(** * Thermal-noise removal for Sentinel-1 TOPS GRD images

    A shallow embedding of [s1denoise/S1_TOPS_GRD_NoiseCorrection.py]
    (class [Sentinel1Image]) and of the power-balancing experiment of
    [s1denoise/sentinel1calval.py] (class [Sentinel1CalVal]).

    Conventions of the embedding.

    - A NumPy [float64] is an extended rational: an exact rational, one of
      the two infinities, or NaN.  The arithmetic is the IEEE one on this
      carrier (NaN is absorbing, [inf - inf] is NaN, every comparison with
      NaN is false); rounding, overflow and the sign of zero are not
      represented.  The one place where the binary representation decides
      a result that is not a number, the key ['%.1f' % IPFversion] of the
      coefficient store, is computed on the binary64 value.
    - A Python exception is a value of [exn]; a call that may raise returns
      a [result].
    - A dense raster is an array of shape [self.shape()]; it is represented
      by its indexing function on [0,lines) x [0,pixels), the shape being
      kept once, in the object.
    - The values computed inside SciPy and NumPy numerical kernels (spline
      evaluation, least-squares fits, correlation, logarithm) are parameters
      of the development.  The checks these routines make on their
      arguments, which decide whether they raise, are written out.  The
      order in which [np.argsort] leaves tied keys is a parameter too. *)

From Stdlib Require Import ZArith QArith Qround Qabs Lqa Lia List String Bool.
From stdpp Require Import base option list sorting gmap strings pretty.

(** ** IEEE values on an exact carrier *)

Inductive float64 : Type :=
| NaN
| NInf
| Fin (q : Q)
| PInf.

Definition Qlt_bool (x y : Q) : bool := negb (Qle_bool y x).

Definition isnan (a : float64) : bool :=
  match a with NaN => true | _ => false end.

Definition isfinite (a : float64) : bool :=
  match a with Fin _ => true | _ => false end.

Definition fopp (a : float64) : float64 :=
  match a with
  | NaN => NaN
  | NInf => PInf
  | Fin q => Fin (- q)
  | PInf => NInf
  end.

Definition fadd (a b : float64) : float64 :=
  match a, b with
  | NaN, _ | _, NaN => NaN
  | PInf, NInf | NInf, PInf => NaN
  | PInf, _ | _, PInf => PInf
  | NInf, _ | _, NInf => NInf
  | Fin x, Fin y => Fin (x + y)
  end.

Definition fsub (a b : float64) : float64 := fadd a (fopp b).

(** [inf_of_sign c up] is the infinity whose sign is the sign recorded by
    the comparison [c] of a finite factor with zero, applied to [up]
    ([PInf] or [NInf]); a zero factor gives NaN. *)
Definition inf_of_sign (c : comparison) (up : float64) : float64 :=
  match c with
  | Eq => NaN
  | Gt => up
  | Lt => fopp up
  end.

Definition fmul (a b : float64) : float64 :=
  match a, b with
  | NaN, _ | _, NaN => NaN
  | Fin x, Fin y => Fin (x * y)
  | Fin x, PInf | PInf, Fin x => inf_of_sign (x ?= 0)%Q PInf
  | Fin x, NInf | NInf, Fin x => inf_of_sign (x ?= 0)%Q NInf
  | PInf, PInf | NInf, NInf => PInf
  | PInf, NInf | NInf, PInf => NInf
  end.

(** Division: a finite value over zero is an infinity of the sign of the
    numerator (the zero divisor is taken positive) and [0/0] is NaN. *)
Definition fdiv (a b : float64) : float64 :=
  match a, b with
  | NaN, _ | _, NaN => NaN
  | Fin x, Fin y =>
      if Qeq_bool y 0 then inf_of_sign (x ?= 0)%Q PInf else Fin (x / y)
  | Fin _, (PInf | NInf) => Fin 0
  | PInf, Fin y => if Qlt_bool y 0 then NInf else PInf
  | NInf, Fin y => if Qlt_bool y 0 then PInf else NInf
  | (PInf | NInf), (PInf | NInf) => NaN
  end.

(** IEEE comparisons: false as soon as one side is NaN. *)
Definition fltb (a b : float64) : bool :=
  match a, b with
  | NaN, _ | _, NaN => false
  | _, NInf => false
  | NInf, _ => true
  | PInf, _ => false
  | Fin _, PInf => true
  | Fin x, Fin y => Qlt_bool x y
  end.

Definition fleb (a b : float64) : bool :=
  match a, b with
  | NaN, _ | _, NaN => false
  | NInf, _ => true
  | _, PInf => true
  | _, NInf => false
  | PInf, _ => false
  | Fin x, Fin y => Qle_bool x y
  end.

Definition feqb (a b : float64) : bool :=
  match a, b with
  | NInf, NInf | PInf, PInf => true
  | Fin x, Fin y => Qeq_bool x y
  | _, _ => false
  end.

Definition fgtb (a b : float64) : bool := fltb b a.
Definition fgeb (a b : float64) : bool := fleb b a.

(** Two model values denote the same number ([NaN] included: this is the
    identity of values, not the IEEE [==]). *)
Definition same (a b : float64) : Prop :=
  match a, b with
  | NaN, NaN | NInf, NInf | PInf, PInf => True
  | Fin x, Fin y => (x == y)%Q
  | _, _ => False
  end.

Definition sameb (a b : float64) : bool :=
  match a, b with
  | NaN, NaN | NInf, NInf | PInf, PInf => true
  | Fin x, Fin y => Qeq_bool x y
  | _, _ => false
  end.

Definition of_Z (z : Z) : float64 := Fin (inject_Z z).
Definition of_nat (n : nat) : float64 := of_Z (Z.of_nat n).

(** [np.sum] of a one-dimensional array. *)
Definition np_sum (xs : list float64) : float64 := foldr fadd (Fin 0) xs.

(** [np.nanmean] of the listed values: the NaNs are dropped, the rest is
    summed and divided by its count; an empty rest gives NaN. *)
Definition np_nanmean (xs : list float64) : float64 :=
  let kept := filter (fun a => isnan a = false) xs in
  match kept with
  | [] => NaN
  | _ => fdiv (np_sum kept) (of_nat (length kept))
  end.

(** [np.mean]: NaN as soon as a value is NaN, NaN on an empty array. *)
Definition np_mean (xs : list float64) : float64 :=
  match xs with
  | [] => NaN
  | _ => fdiv (np_sum xs) (of_nat (length xs))
  end.

(** ** Exceptions *)

Inductive exn : Type :=
| ValueError (msg : string)
| KeyError (key : string)
| IndexError (msg : string)
| TypeError (msg : string)
| FitpackError (msg : string)
| UnboundLocalError (msg : string)
(** not a Python exception: a loop of the model used up its iteration
    budget (shown not to happen where it is used) *)
| OutOfFuel.

Inductive result (A : Type) : Type :=
| Ok (a : A)
| Raise (e : exn).
Arguments Ok {A} a.
Arguments Raise {A} e.

Definition rbind {A B : Type} (m : result A) (k : A -> result B) : result B :=
  match m with
  | Ok a => k a
  | Raise e => Raise e
  end.

Declare Scope result_scope.
Delimit Scope result_scope with result.
Notation "x <- m ;; k" := (rbind m (fun x => k))
  (at level 100, m at next level, right associativity) : result_scope.

Definition succeeds {A : Type} (m : result A) : bool :=
  match m with Ok _ => true | Raise _ => false end.

(** [for x in xs: acc = body(acc, x)], stopping at the first exception. *)
Fixpoint for_each {A S : Type} (xs : list A) (body : S -> A -> result S) (s : S)
  : result S :=
  match xs with
  | [] => Ok s
  | x :: rest => rbind (body s x) (for_each rest body)
  end.

(** A list comprehension whose element expression may raise. *)
Fixpoint map_result {A B : Type} (f : A -> result B) (xs : list A)
  : result (list B) :=
  match xs with
  | [] => Ok []
  | x :: rest =>
      rbind (f x) (fun y => rbind (map_result f rest) (fun ys => Ok (y :: ys)))
  end.

(** ** Python values and NumPy indexing *)

(** The dynamically typed arguments of the public methods. *)
Inductive pyval : Type :=
| PyNone
| PyBool (b : bool)
| PyInt (z : Z)
| PyFloat (x : float64)
| PyStr (s : string).

(** [filename.split('/')[-1]]; [word] is the component being read and 47
    the code of the slash. *)
Fixpoint last_component (word : string) (filename : string) : string :=
  match filename with
  | EmptyString => word
  | String c rest =>
      if (Ascii.nat_of_ascii c =? 47)%nat then last_component "" rest
      else last_component (word +:+ String c "") rest
  end.

(** [text.split(sep)] for the separator of code [sep]; [word] is the
    field being read. *)
Fixpoint split_on (sep : nat) (word : string) (text : string) : list string :=
  match text with
  | EmptyString => [word]
  | String c rest =>
      if (Ascii.nat_of_ascii c =? sep)%nat then word :: split_on sep "" rest
      else split_on sep (word +:+ String c "") rest
  end.

(** [isinstance(v, bool)]. *)
Definition isinstance_bool (v : pyval) : bool :=
  match v with PyBool _ => true | _ => false end.

(** [v == 'lit'] for a string literal. *)
Definition py_eq_str (v : pyval) (lit : string) : bool :=
  match v with PyStr s => String.eqb s lit | _ => false end.

(** [v in [lit1, lit2, ...]] for a list of string literals. *)
Definition py_in_strs (v : pyval) (lits : list string) : bool :=
  existsb (py_eq_str v) lits.

(** Truth value of an object that passed [isinstance(v, bool)]. *)
Definition py_truth (v : pyval) : bool :=
  match v with PyBool b => b | _ => false end.

(** Index [i] into an axis of length [n]: negative indices count from the
    end, anything outside [-n, n) raises [IndexError]. *)
Definition np_index (n : nat) (i : Z) : result nat :=
  if (0 <=? i)%Z && (i <? Z.of_nat n)%Z then Ok (Z.to_nat i)
  else if (- Z.of_nat n <=? i)%Z && (i <? 0)%Z then Ok (Z.to_nat (Z.of_nat n + i))
  else Raise (IndexError "index is out of bounds for axis").

(** A slice bound [b] of [a[b:...]] or [a[...:b]] on an axis of length [n]:
    negative bounds count from the end and the result is clipped to
    [0, n]. *)
Definition slice_bound (n : nat) (b : Z) : nat :=
  if (b <? 0)%Z then Z.to_nat (Z.max 0 (Z.of_nat n + b))
  else Z.to_nat (Z.min b (Z.of_nat n)).

(** [i] is one of the positions selected by [start:stop] on an axis of
    length [n]. *)
Definition in_slice (n : nat) (start stop : Z) (i : nat) : bool :=
  (slice_bound n start <=? i)%nat && (i <? slice_bound n stop)%nat && (i <? n)%nat.

(** [np.arange(a, b)] on integers. *)
Definition arange (a b : Z) : list Z :=
  map (fun k => (a + Z.of_nat k)%Z) (seq 0 (Z.to_nat (b - a))).

(** [xs[a:b]] on a list, with Python's treatment of the bounds. *)
Definition py_slice {A : Type} (xs : list A) (a b : Z) : list A :=
  let lo := slice_bound (length xs) a in
  let hi := slice_bound (length xs) b in
  take (hi - lo) (drop lo xs).

(** [min(xs)] and [max(xs)] of a list of integers; [ValueError] when the
    list is empty. *)
Definition py_min (xs : list Z) : result Z :=
  match xs with
  | [] => Raise (ValueError "min() arg is an empty sequence")
  | x :: rest => Ok (foldr Z.min x rest)
  end.

Definition py_max (xs : list Z) : result Z :=
  match xs with
  | [] => Raise (ValueError "max() arg is an empty sequence")
  | x :: rest => Ok (foldr Z.max x rest)
  end.

(** ** Rasters *)

Definition raster : Type := nat -> nat -> float64.
(** The subswath index map has dtype [uint8]. *)
Definition indexmap : Type := nat -> nat -> N.

(** The values of a raster of the given shape, in C order. *)
Definition cells {A : Type} (shape : nat * nat) (f : nat -> nat -> A) : list A :=
  flat_map (fun i => map (f i) (seq 0 (snd shape))) (seq 0 (fst shape)).

(** Boolean-mask selection [f[mask]]. *)
Definition masked {A : Type} (shape : nat * nat) (mask : nat -> nat -> bool)
  (f : nat -> nat -> A) : list A :=
  flat_map (fun i => map (f i) (filter (fun j => mask i j = true) (seq 0 (snd shape))))
    (seq 0 (fst shape)).

Definition in_shape (shape : nat * nat) (i j : nat) : Prop :=
  (i < fst shape)%nat /\ (j < snd shape)%nat.

(** ** The image object *)

Inductive obsMode_t : Type := IW | EW.

(** [{'IW':3, 'EW':5}[self.obsMode]] *)
Definition numberOfSubswaths (m : obsMode_t) : nat :=
  match m with IW => 3 | EW => 5 end.

(** [range(1, {'IW':3, 'EW':5}[self.obsMode]+1)] *)
Definition subswathRange (m : obsMode_t) : list nat := seq 1 (numberOfSubswaths m).

Definition obsMode_str (m : obsMode_t) : string :=
  match m with IW => "IW" | EW => "EW" end.

Definition digit_str (n : nat) : string :=
  match n with
  | 0 => "0" | 1 => "1" | 2 => "2" | 3 => "3" | 4 => "4"
  | 5 => "5" | 6 => "6" | 7 => "7" | 8 => "8" | _ => "9"
  end%nat.

(** ['%s%s' % (self.obsMode, iSW)] for the one-digit indices of
    [subswathRange]. *)
Definition subswathID (m : obsMode_t) (iSW : nat) : string :=
  obsMode_str m +:+ digit_str iSW.

Inductive polarization : Type := HH | HV | VH | VV.

Definition polarization_eqb (p q : polarization) : bool :=
  match p, q with
  | HH, HH | HV, HV | VH, VH | VV, VV => true
  | _, _ => false
  end.

(** ** Numerical kernels of NumPy and SciPy

    What the library routines compute is a parameter; the argument checks
    they make before computing are the definitions that follow. *)

Record kernels : Type := {
  (** [InterpolatedUnivariateSpline(x, y, k=k)(at)] *)
  spline_eval : nat -> list float64 -> list float64 -> float64 -> float64;
  (** [RectBivariateSpline(x, y, z, kx=1, ky=1)(atx, aty)]; [z] is given by
      its columns, one list per element of [y] *)
  bispline_eval :
    list float64 -> list float64 -> list (list float64) -> float64 -> float64 -> float64;
  (** [np.corrcoef(a, b)[0,1]] *)
  np_corrcoef : list float64 -> list float64 -> float64;
  (** [np.log10] *)
  np_log10 : float64 -> float64;
  (** [np.polynomial.hermite.hermfit(x, y, deg)] *)
  hermfit_coef : list float64 -> list float64 -> nat -> list float64;
  (** [scipy.ndimage.convolve(a, np.ones((w,w))/w**2., mode='constant',
      cval=0.0)] on a float raster and on the [uint8] index map (the
      output takes the dtype of the input) *)
  box_mean : nat -> nat * nat -> raster -> raster;
  box_mean_u8 : nat -> nat * nat -> indexmap -> indexmap
}.

Fixpoint strictly_increasing (xs : list float64) : bool :=
  match xs with
  | [] => true
  | x :: rest =>
      match rest with
      | [] => true
      | y :: _ => fltb x y && strictly_increasing rest
      end
  end.

(** Construction of [InterpolatedUnivariateSpline(x, y, k=k)]: [x] must be
    strictly increasing and as long as [y], and FITPACK wants [len(x) > k].
    The object is represented by its evaluation function. *)
Definition InterpolatedUnivariateSpline (K : kernels) (x y : list float64) (k : nat)
  : result (float64 -> float64) :=
  if negb (strictly_increasing x) then
    Raise (ValueError "x must be strictly increasing")
  else if negb (length x =? length y)%nat then
    Raise (ValueError "x and y should have a same length")
  else if negb (k <? length x)%nat then
    Raise (FitpackError "(m>k) failed for hidden m")
  else Ok (spline_eval K k x y).

(** Construction of [RectBivariateSpline(x, y, z, kx=kx, ky=ky)]: both axes
    strictly increasing, one column of [z] per element of [y], each as long
    as [x], and FITPACK wants [len(x) > kx] and [len(y) > ky]. *)
Definition RectBivariateSpline (K : kernels) (x y : list float64)
  (z : list (list float64)) (kx ky : nat) : result (float64 -> float64 -> float64) :=
  if negb (strictly_increasing x) then
    Raise (ValueError "x must be strictly increasing")
  else if negb (strictly_increasing y) then
    Raise (ValueError "y must be strictly increasing")
  else if negb (forallb (fun col => (length col =? length x)%nat) z) then
    Raise (ValueError "x dimension of z must have same number of elements as x")
  else if negb (length z =? length y)%nat then
    Raise (ValueError "y dimension of z must have same number of elements as y")
  else if negb (kx <? length x)%nat then
    Raise (FitpackError "(mx>kx) failed for hidden mx")
  else if negb (ky <? length y)%nat then
    Raise (FitpackError "(my>ky) failed for hidden my")
  else Ok (bispline_eval K x y z).

(** [np.diff] of a one-dimensional array. *)
Definition np_diff (xs : list float64) : list float64 :=
  zip_with (fun a b => fsub b a) xs (drop 1 xs).

(** [np.gradient] of a one-dimensional array with unit spacing: one-sided
    differences at the two ends, central differences inside; fewer than two
    elements raise [ValueError]. *)
Definition np_gradient (xs : list float64) : result (list float64) :=
  let n := length xs in
  if (n <? 2)%nat then
    Raise (ValueError "Shape of array too small to calculate a numerical gradient")
  else
    let at_ (k : nat) := default NaN (xs !! k) in
    Ok (map (fun k =>
               if (k =? 0)%nat then fsub (at_ 1%nat) (at_ 0%nat)
               else if (k =? n - 1)%nat then fsub (at_ (n - 1)%nat) (at_ (n - 2)%nat)
               else fdiv (fsub (at_ (k + 1)%nat) (at_ (k - 1)%nat)) (Fin 2))
            (seq 0 n)).

(** [np.linspace(0, stop, num)] (end point included). *)
Definition linspace0 (stop : float64) (num : Z) : result (list float64) :=
  if (num <? 0)%Z then Raise (ValueError "Number of samples must be non-negative")
  else if (num =? 1)%Z then Ok [Fin 0]
  else
    Ok (map (fun k => fmul (of_nat k) (fdiv stop (of_Z (num - 1))))
          (seq 0 (Z.to_nat num))).

(** [np.argmax]: the first position of the maximum, a NaN counting as the
    maximum; [ValueError] on an empty array. *)
Fixpoint argmax_from (best : nat) (bestv : float64) (k : nat) (xs : list float64) : nat :=
  match xs with
  | [] => best
  | x :: rest =>
      if isnan bestv then best
      else if isnan x || fltb bestv x then argmax_from k x (S k) rest
      else argmax_from best bestv (S k) rest
  end.

Definition np_argmax (xs : list float64) : result nat :=
  match xs with
  | [] => Raise (ValueError "attempt to get argmax of an empty sequence")
  | x :: rest => Ok (argmax_from 0 x 1 rest)
  end.

(** Boolean-mask selection on a one-dimensional array. *)
Definition select {A : Type} (mask : list bool) (xs : list A) : list A :=
  map snd (filter (fun p : bool * A => fst p = true) (combine mask xs)).

(** [mask.sum()] *)
Definition count_true (mask : list bool) : nat :=
  length (filter (fun b => b = true) mask).

(** ** Annotation tables *)

(** One [swathBounds] rectangle of a subswath (the azimuth time, which no
    modelled method reads, is left out). *)
Record swathBound : Type := {
  firstAzimuthLine : Z;
  firstRangeSample : Z;
  lastAzimuthLine : Z;
  lastRangeSample : Z
}.

(** One record of a sparse vector table: its image line, and its pixel and
    value arrays, which have one length and are kept as one list of
    pairs.  Used for the calibration vectors ([sigmaNought]) and for the
    noise range vectors ([noiseRangeLut]). *)
Record sparseRecord : Type := {
  sr_line : Z;
  sr_samples : list (Z * float64)
}.

(** The [line] and [noiseAzimuthLut] entries of one noise azimuth block:
    [get_DOM_nodeValue] returns a scalar when the node holds one value and
    a list otherwise. *)
Inductive azimuthLut : Type :=
| AzScalar (line : Z) (lut : float64)
| AzList (lines : list Z) (luts : list float64).

Record noiseAzimuthBlock : Type := {
  az_firstAzimuthLine : Z;
  az_firstRangeSample : Z;
  az_lastAzimuthLine : Z;
  az_lastRangeSample : Z;
  az_lut : azimuthLut
}.

(** One orbit state vector, its time given in seconds relative to
    [self.time_coverage_center]; position and velocity are [(x, y, z)]. *)
Record stateVector : Type := {
  sv_time : float64;
  sv_position : float64 * float64 * float64;
  sv_velocity : float64 * float64 * float64
}.

(** The content of one polarization entry of [denoising_parameters_*.npz].
    A field is [None] when its key is absent from the dictionary. *)
Record denoParams_t : Type := {
  dp_noiseScalingParameters : option (gmap string (gmap string float64));
  dp_powerBalancingParameters : option (gmap string (gmap string float64));
  dp_extraScalingParameters : option (gmap string (list float64));
  dp_noiseVarianceParameters : option (gmap string float64)
}.

(** The object [self].  It holds the attributes set by [__init__], what the
    collaborators (annotation parser, pixel reader, coefficient store) hand
    over, and one slot per method that the modelled methods reach through
    [self]: a slot holds what the call returns or raises. *)
Record Sentinel1Image : Type := {
  (** [self.filename] *)
  filename : string;
  obsMode : obsMode_t;
  (** the decimal number in the [version] attribute of the manifest;
      [self.IPFversion], the [float] of that text, is the binary64 number
      nearest to it *)
  IPFversion : Q;
  shape : nat * nat;
  (** [self['DN_' + polarization]] *)
  DN : polarization -> result (nat -> nat -> N);
  (** [np.load(...)[polarization].item()] *)
  denoParams : polarization -> result denoParams_t;
  import_swathBounds : polarization -> result (nat -> list swathBound);
  import_calibrationVector : polarization -> result (list sparseRecord);
  import_noiseVector :
    polarization -> result (list sparseRecord * (nat -> list noiseAzimuthBlock));
  import_orbit : polarization -> result (list stateVector);
  self_geolocationGridPointInterpolator :
    polarization -> string -> result (float64 -> float64 -> float64);
  self_elevationAntennaPatternInterpolator :
    polarization -> result (float64 -> float64 -> float64);
  self_rangeSpreadingLossInterpolator :
    polarization -> result (float64 -> float64 -> float64);
  self_subswathIndexMap : polarization -> result indexmap;
  self_calibrationVectorMap : polarization -> result raster;
  self_noiseVectorMap : polarization -> bool -> result raster;
  self_scallopingGainMap : polarization -> result raster;
  self_rawSigma0Map : polarization -> result raster;
  self_rawNoiseEquivalentSigma0Map : polarization -> bool -> result raster;
  self_modifiedNoiseEquivalentSigma0Map : polarization -> bool -> result raster
}.

(** ** Sparse-to-dense reconstruction *)

Section Reconstruction.
Local Open Scope result_scope.

Variable K : kernels.

(** [subswathIndexMap]: the rectangles of each subswath are painted over a
    raster of zeros, later assignments overwriting earlier ones. *)
Definition subswathIndexMap (self : Sentinel1Image) (pol : polarization)
  : result indexmap :=
  swathBounds <- import_swathBounds self pol ;;
  Ok (foldl
        (fun m iSW =>
           foldl
             (fun (m : indexmap) b => fun i j =>
                if in_slice (fst (shape self)) (firstAzimuthLine b) (lastAzimuthLine b + 1) i
                   && in_slice (snd (shape self)) (firstRangeSample b) (lastRangeSample b + 1) j
                then N.of_nat iSW else m i j)
             m (swathBounds iSW))
        (fun _ _ => 0%N) (subswathRange (obsMode self))).

(** [subswathIndexMap[y, x]] for a line [y] and an array of pixels [x]. *)
Definition index_at (shp : nat * nat) (swi : indexmap) (y : Z) (x : list Z)
  : result (list N) :=
  match x with
  | [] => Raise (IndexError "arrays used as indices must be of integer (or boolean) type")
  | _ =>
      i <- np_index (fst shp) y ;;
      map_result (fun p => j <- np_index (snd shp) p ;; Ok (swi i j)) x
  end.

(** [valid = (subswathIndexMap[y,x]==iSW) * (z > 0)] *)
Definition usable_samples (shp : nat * nat) (swi : indexmap) (iSW : nat) (r : sparseRecord)
  : result (list bool) :=
  idx <- index_at shp swi (sr_line r) (map fst (sr_samples r)) ;;
  Ok (zip_with (fun s z => N.eqb s (N.of_nat iSW) && fgtb z (Fin 0))
        idx (map snd (sr_samples r))).

(** The same followed by [valid[np.gradient(x)==0] = False] (noise range
    vectors). *)
Definition usable_noise_samples (shp : nat * nat) (swi : indexmap) (iSW : nat)
  (r : sparseRecord) : result (list bool) :=
  valid <- usable_samples shp swi iSW r ;;
  g <- np_gradient (map (fun p => of_Z (fst p)) (sr_samples r)) ;;
  Ok (zip_with (fun v gi => v && negb (feqb gi (Fin 0))) valid g).

Definition nan_row (n : nat) : list float64 := replicate n NaN.

(** Body of [for li,y in enumerate(line)] in [calibrationVectorMap] and in
    the branch without LUT shift of [noiseVectorMap]: the row [zi[li,:]]
    of the record.  [continue] leaves the row as initialised, all NaN. *)
Definition interpolated_row (usable : sparseRecord -> result (list bool))
  (r : sparseRecord) (xBins : list Z) : result (list float64) :=
  valid <- usable r ;;
  if (count_true valid =? 0)%nat then Ok (nan_row (length xBins))
  else
    f <- InterpolatedUnivariateSpline K
           (select valid (map (fun p => of_Z (fst p)) (sr_samples r)))
           (select valid (map snd (sr_samples r))) 3 ;;
    Ok (map (fun p => f (of_Z p)) xBins).

(** A Python [while] loop: [None] when the iteration budget [fuel] does not
    suffice, otherwise the final state or the exception of the body. *)
Fixpoint py_while {St : Type} (fuel : nat) (cond : St -> bool) (body : St -> result St)
  (s : St) : option (result St) :=
  if cond s then
    match fuel with
    | O => None
    | S fuel' =>
        match body s with
        | Ok s' => py_while fuel' cond body s'
        | Raise e => Some (Raise e)
        end
    end
  else Some (Ok s).

Definition finished {A : Type} (o : option (result A)) : result A :=
  match o with
  | Some r => r
  | None => Raise OutOfFuel
  end.

(** [est_shift(reference, test, oversampling=10)] *)
Definition est_shift (reference test : list float64) (oversampling : Z)
  : result float64 :=
  let lref := Z.of_nat (length reference) in
  let lags := arange 0 (Z.of_nat (length test) - lref + 1) in
  let cc := map (fun lag => np_corrcoef K reference (py_slice test lag (lag + lref))) lags in
  let n := Z.of_nat (length cc) in
  let x := map of_Z (arange 0 n) in
  xi <- linspace0 (of_Z n) ((n - 1) * oversampling + 1) ;;
  f <- InterpolatedUnivariateSpline K x cc 3 ;;
  k <- np_argmax (map f xi) ;;
  Ok (fsub (default NaN (xi !! k)) (of_Z (n / 2))).

(** The state [xShiftPixel, deltaShift, ni] of the shift search. *)
Record shiftState : Type := {
  xShiftPixel : float64;
  deltaShift : float64;
  ni : nat
}.

(** [xShiftPixel, deltaShift, ni = 0, np.inf, 0] *)
Definition shift_init : shiftState :=
  {| xShiftPixel := Fin 0; deltaShift := PInf; ni := 0 |}.

(** [deltaShift > 1e-2 and ni < 10] *)
Definition shift_continues (st : shiftState) : bool :=
  fgtb (deltaShift st) (Fin (1 # 100)) && (ni st <? 10)%nat.

(** The loop body; [estimate s] stands for
    [est_shift(referencePattern, zInterpolator(xBins + s))]. *)
Definition shift_step (estimate : float64 -> result float64) (st : shiftState)
  : result shiftState :=
  d <- estimate (xShiftPixel st) ;;
  Ok {| xShiftPixel := fadd (xShiftPixel st) d; deltaShift := d; ni := S (ni st) |}.

(** The [while] loop of the LUT shift search in [noiseVectorMap]. *)
Definition lutShiftSearch (fuel : nat) (estimate : float64 -> result float64)
  : option (result shiftState) :=
  py_while fuel shift_continues (shift_step estimate) shift_init.

(** Body of [for li,y in enumerate(line)] in the branch with LUT shift. *)
Definition shifted_row (shp : nat * nat) (swi : indexmap) (iSW : nat)
  (annotatedElevationAngleIntp elevationAntennaPatternIntp rangeSpreadingLossIntp
     : float64 -> float64 -> float64)
  (r : sparseRecord) (xBins : list Z) : result (list float64) :=
  valid <- usable_noise_samples shp swi iSW r ;;
  if (count_true valid =? 0)%nat then Ok (nan_row (length xBins))
  else
    let buf := 150%Z in
    let y := of_Z (sr_line r) in
    let xv := select valid (map (fun p => of_Z (fst p)) (sr_samples r)) in
    let zv := select valid (map snd (sr_samples r)) in
    let referencePattern :=
      map (fun p =>
             let g := fdiv (fdiv (Fin 1) (elevationAntennaPatternIntp y (of_Z p)))
                        (rangeSpreadingLossIntp y (of_Z p)) in
             fmul g g)
          (py_slice xBins buf (- buf)) in
    zInterpolator <- InterpolatedUnivariateSpline K xv zv 3 ;;
    st <- finished
            (lutShiftSearch 10
               (fun shift =>
                  est_shift referencePattern
                    (map (fun p => zInterpolator (fadd (of_Z p) shift)) xBins) 10)) ;;
    let elevation := map (fun p => annotatedElevationAngleIntp y (of_Z p)) xBins in
    let meanElevationAngleIncrement := np_mean (np_diff elevation) in
    let xShiftAngle := fmul meanElevationAngleIncrement (xShiftPixel st) in
    g <- np_gradient elevation ;;
    f <- InterpolatedUnivariateSpline K xv zv 3 ;;
    Ok (zip_with (fun p gi => f (fadd (of_Z p) (fdiv xShiftAngle gi))) xBins g).

(** The rows of the table [zi] that survive
    [valid = np.isfinite(np.sum(zi,axis=1))], with their records. *)
Definition finite_rows (records : list sparseRecord) (zi : list (list float64))
  : list (sparseRecord * list float64) :=
  filter (fun p : sparseRecord * list float64 => isfinite (np_sum (snd p)) = true)
    (combine records zi).

(** The records of the table whose line lies in the azimuth range of the
    subswath. *)
Definition records_of_subswath (swathBound : list swathBound) (table : list sparseRecord)
  : result (list sparseRecord) :=
  lo <- py_min (map firstAzimuthLine swathBound) ;;
  hi <- py_max (map lastAzimuthLine swathBound) ;;
  Ok (filter (fun r => (lo <=? sr_line r)%Z && (sr_line r <=? hi)%Z = true) table).

(** [xBins] of a subswath. *)
Definition subswath_xBins (swathBound : list swathBound) : result (list Z) :=
  lo <- py_min (map firstRangeSample swathBound) ;;
  hi <- py_max (map lastRangeSample swathBound) ;;
  Ok (arange lo (hi + 1)).

(** The first half of one pass of [for iSW in range(...)]: the table rows
    [zi] of the subswath and the bilinear interpolation [interpFunc] across
    the rows that are finite.  [row] is the body of the inner loop. *)
Definition subswath_interpolant (swathBounds : nat -> list swathBound)
  (table : list sparseRecord)
  (row : nat -> sparseRecord -> list Z -> result (list float64)) (iSW : nat)
  : result (float64 -> float64 -> float64) :=
  records <- records_of_subswath (swathBounds iSW) table ;;
  xBins <- subswath_xBins (swathBounds iSW) ;;
  zi <- map_result (fun r => row iSW r xBins) records ;;
  let kept := finite_rows records zi in
  RectBivariateSpline K (map of_Z xBins)
    (map (fun p => of_Z (sr_line (fst p))) kept) (map snd kept) 1 1.

(** One pass of [for iSW in range(...)]: the interpolation, evaluated on
    the full grid and assigned to the pixels of the subswath. *)
Definition rasterize_subswath (swi : indexmap)
  (swathBounds : nat -> list swathBound) (table : list sparseRecord)
  (row : nat -> sparseRecord -> list Z -> result (list float64))
  (m : raster) (iSW : nat) : result raster :=
  interpFunc <- subswath_interpolant swathBounds table row iSW ;;
  Ok (fun i j =>
        if N.eqb (swi i j) (N.of_nat iSW) then interpFunc (of_nat j) (of_nat i)
        else m i j).

(** [calibrationVectorMap] *)
Definition calibrationVectorMap (self : Sentinel1Image) (pol : polarization)
  : result raster :=
  calibrationVector <- import_calibrationVector self pol ;;
  swathBounds <- import_swathBounds self pol ;;
  swi <- self_subswathIndexMap self pol ;;
  for_each (subswathRange (obsMode self))
    (rasterize_subswath swi swathBounds calibrationVector
       (fun iSW => interpolated_row (usable_samples (shape self) swi iSW)))
    (fun _ _ => NaN).

(** The image row that the entry [y] of a fancy index selects last among
    [yBins], if any. *)
Definition selects (n : nat) (i : nat) (y : Z) : bool :=
  match np_index n y with
  | Ok k => (k =? i)%nat
  | Raise _ => false
  end.

Definition last_selecting (n : nat) (yBins : list Z) (i : nat) : option Z :=
  last (filter (fun y => selects n i y = true) yBins).

(** One block of the azimuth noise vectors:
    [noiseVectorMap[yBins, xs:xe+1] *= ...]. *)
Definition azimuth_block (shp : nat * nat) (m : raster) (b : noiseAzimuthBlock)
  : result raster :=
  let xs := az_firstRangeSample b in
  let xe := az_lastRangeSample b in
  let yBins := arange (az_firstAzimuthLine b) (az_lastAzimuthLine b + 1) in
  _ <- map_result (np_index (fst shp)) yBins ;;
  let cols := in_slice (snd shp) xs (xe + 1) in
  match az_lut b with
  | AzScalar _ z =>
      Ok (fun i j =>
            match last_selecting (fst shp) yBins i with
            | Some _ => if cols j then fmul (m i j) z else m i j
            | None => m i j
            end)
  | AzList y z =>
      f <- InterpolatedUnivariateSpline K (map of_Z y) z 1 ;;
      let w := (xe - xs + 1)%Z in
      let wt := Z.of_nat (slice_bound (snd shp) (xe + 1) - slice_bound (snd shp) xs) in
      if (w <? 0)%Z then Raise (ValueError "negative dimensions are not allowed")
      else if negb ((w =? wt)%Z || (w =? 1)%Z) then
        Raise (ValueError "operands could not be broadcast together")
      else
        Ok (fun i j =>
              match last_selecting (fst shp) yBins i with
              | Some yb => if cols j then fmul (m i j) (f (of_Z yb)) else m i j
              | None => m i j
              end)
  end.

(** [noiseVectorMap(polarization, lutShift)] *)
Definition noiseVectorMap (self : Sentinel1Image) (pol : polarization) (lutShift : bool)
  : result raster :=
  noiseVector <- import_noiseVector self pol ;;
  let noiseRangeVector := fst noiseVector in
  let noiseAzimuthVector := snd noiseVector in
  swathBounds <- import_swathBounds self pol ;;
  swi <- self_subswathIndexMap self pol ;;
  ranged <-
    (if lutShift then
       annotatedElevationAngleIntp <-
         self_geolocationGridPointInterpolator self pol "elevationAngle" ;;
       elevationAntennaPatternIntp <- self_elevationAntennaPatternInterpolator self pol ;;
       rangeSpreadingLossIntp <- self_rangeSpreadingLossInterpolator self pol ;;
       for_each (subswathRange (obsMode self))
         (rasterize_subswath swi swathBounds noiseRangeVector
            (fun iSW =>
               shifted_row (shape self) swi iSW annotatedElevationAngleIntp
                 elevationAntennaPatternIntp rangeSpreadingLossIntp))
         (fun _ _ => NaN)
     else
       for_each (subswathRange (obsMode self))
         (rasterize_subswath swi swathBounds noiseRangeVector
            (fun iSW => interpolated_row (usable_noise_samples (shape self) swi iSW)))
         (fun _ _ => NaN)) ;;
  for_each (subswathRange (obsMode self))
    (fun m iSW => for_each (noiseAzimuthVector iSW) (azimuth_block (shape self)) m)
    ranged.

End Reconstruction.

(** ** Correction coefficients *)

(** What [import_denoisingCoefficients] returns: four dictionaries. *)
Record coefficients : Type := {
  noiseScalingParameters : gmap string float64;
  powerBalancingParameters : gmap string float64;
  extraScalingParameters : gmap string (list float64);
  noiseVarianceParameters : gmap string float64
}.

(** [d[key]] on a dictionary. *)
Definition py_getitem {V : Type} (d : gmap string V) (key : string) : result V :=
  match d !! key with
  | Some v => Ok v
  | None => Raise (KeyError key)
  end.

(** Rounding to the nearest integer, ties to even. *)
Definition round_half_even (q : Q) : Z :=
  let fl := Qfloor q in
  match (q - inject_Z fl ?= 1 # 2)%Q with
  | Lt => fl
  | Gt => (fl + 1)%Z
  | Eq => if Z.even fl then fl else (fl + 1)%Z
  end.

(** [2^e] for an integer exponent. *)
Definition Qpow2 (e : Z) : Q :=
  if (0 <=? e)%Z then inject_Z (2 ^ e) else (1 / inject_Z (2 ^ (- e)))%Q.

(** The exponent [e] with [2^e <= a < 2^(e+1)], for a positive [a]. *)
Definition Qlog2 (a : Q) : Z :=
  let e := (Z.log2 (Qnum a) - Z.log2 (Zpos (Qden a)))%Z in
  if Qle_bool (Qpow2 e) a then e else (e - 1)%Z.

(** The binary64 number nearest to a positive [a], ties to even: 53
    significant bits, no bit below [2^-1074]; [None] stands for the
    infinity that numbers from [2^1024 - 2^970] on are rounded to. *)
Definition binary64_abs (a : Q) : option Q :=
  let quantum := Qpow2 (Z.max (Qlog2 a - 52) (- (1074))) in
  let x := (inject_Z (round_half_even (a / quantum)) * quantum)%Q in
  if Qle_bool (Qpow2 1024) x then None else Some x.

(** The binary64 number nearest to the decimal [d], ties to even: the
    [float] of a text and the value of a literal of the code. *)
Definition binary64 (d : Q) : float64 :=
  if Qeq_bool d 0 then Fin 0
  else
    match binary64_abs (Qabs d) with
    | None => if Qlt_bool d 0 then NInf else PInf
    | Some x => Fin (if Qlt_bool d 0 then - x else x)
    end.

(** ['%.1f' % v], where [v] is the [float] of the decimal number [d]: the
    number formatted is the binary64 number nearest to [d], and it is
    rounded to one decimal exactly, ties to even. *)
Definition format_1f (d : Q) : string :=
  if Qeq_bool d 0 then "0.0"
  else
    let sign := if Qlt_bool d 0 then "-" else "" in
    match binary64_abs (Qabs d) with
    | None => sign +:+ "inf"
    | Some x =>
        let t := round_half_even (x * 10) in
        sign +:+ pretty (t / 10)%Z +:+ "." +:+ pretty (t mod 10)%Z
    end.

(** [np.linspace(-30,+30,601)] and [np.ones(601)] *)
Definition linspace_30_30_601 : list float64 :=
  map (fun k => Fin (- (30) + inject_Z (Z.of_nat k) / 10)) (seq 0 601).
Definition ones_601 : list float64 := replicate 601 (Fin 1).

(** [try: d[subswathID][version] except: default], or the default when
    the field itself is missing. *)
Definition versioned_or (field : option (gmap string (gmap string float64)))
  (ID version : string) (dflt : float64) : float64 :=
  match field with
  | Some d =>
      match d !! ID with
      | Some byVersion => default dflt (byVersion !! version)
      | None => dflt
      end
  | None => dflt
  end.

(** The [extraScalingParameters] part of one pass of the loop.  In the
    [try] block the curve of the subswath is stored first and the SNR axis,
    read from the key ['SNNR'] of the file, is stored under ['SNR']; the
    [except] block (and the branch of the missing field) stores the default
    axis under ['SNNR'] and the constant curve under the subswath. *)
Definition extraScaling_step (field : option (gmap string (list float64)))
  (ID : string) (es : gmap string (list float64)) : gmap string (list float64) :=
  let fallback (es : gmap string (list float64)) :=
    <[ID := ones_601]> (<["SNNR" := linspace_30_30_601]> es) in
  match field with
  | Some d =>
      match d !! ID with
      | Some curve =>
          let es1 := <[ID := curve]> es in
          match d !! "SNNR" with
          | Some axis => <["SNR" := axis]> es1
          | None => fallback es1
          end
      | None => fallback es
      end
  | None => fallback es
  end.

Definition variance_or (field : option (gmap string float64)) (ID : string) : float64 :=
  match field with
  | Some d => default (Fin 0) (d !! ID)
  | None => Fin 0
  end.

(** A character class of the pattern of [strptime]: the digits [lo] to
    [hi], or the character of one of the codes. *)
Definition digit_between (lo hi : nat) (c : Ascii.ascii) : bool :=
  let n := Ascii.nat_of_ascii c in
  ((48 + lo <=? n) && (n <=? 48 + hi))%nat.

Definition one_of (codes : list nat) (c : Ascii.ascii) : bool :=
  existsb (Nat.eqb (Ascii.nat_of_ascii c)) codes.

(** The characters of [s] that one alternative of a group matches at the
    head of [s], with what follows them. *)
Fixpoint match_classes (classes : list (Ascii.ascii -> bool)) (s : string)
  : option (string * string) :=
  match classes with
  | [] => Some (EmptyString, s)
  | class :: classes' =>
      match s with
      | String c rest =>
          if class c then
            match match_classes classes' rest with
            | Some (m, r) => Some (String c m, r)
            | None => None
            end
          else None
      | EmptyString => None
      end
  end.

(** [re.match] on a sequence of groups, each a list of alternatives: the
    alternatives are tried in order, and a later one is tried when the rest
    of the pattern fails after an earlier one.  The result is what each
    group matched and what is left of the text. *)
Fixpoint match_groups (groups : list (list (list (Ascii.ascii -> bool)))) (s : string)
  : option (list string * string) :=
  match groups with
  | [] => Some ([], s)
  | alternatives :: groups' =>
      (fix first_of (alts : list (list (Ascii.ascii -> bool))) : option (list string * string) :=
         match alts with
         | [] => None
         | alt :: alts' =>
             match match_classes alt s with
             | Some (m, rest) =>
                 match match_groups groups' rest with
                 | Some (ms, r) => Some (m :: ms, r)
                 | None => first_of alts'
                 end
             | None => first_of alts'
             end
         end) alternatives
  end.

(** The pattern [strptime] compiles ['%Y%m%dT%H%M%S'] to, letter case
    ignored:
    [(\d\d\d\d)(1[0-2]|0[1-9]|[1-9])(3[0-1]|[1-2]\d|0[1-9]|[1-9]| [1-9])T]
    [(2[0-3]|[0-1]\d|\d)([0-5]\d|\d)(6[0-1]|[0-5]\d|\d)]. *)
Definition compact_time_pattern : list (list (list (Ascii.ascii -> bool))) :=
  let d := digit_between in
  [ [[d 0 9; d 0 9; d 0 9; d 0 9]];
    [[d 1 1; d 0 2]; [d 0 0; d 1 9]; [d 1 9]];
    [[d 3 3; d 0 1]; [d 1 2; d 0 9]; [d 0 0; d 1 9]; [d 1 9]; [one_of [32]; d 1 9]];
    [[one_of [84; 116]]];
    [[d 2 2; d 0 3]; [d 0 1; d 0 9]; [d 0 9]];
    [[d 0 5; d 0 9]; [d 0 9]];
    [[d 6 6; d 0 1]; [d 0 5; d 0 9]; [d 0 9]] ]%nat.

(** [int(text)] for a text of digits, a blank before them allowed. *)
Definition int_of_digits (text : string) : Z :=
  fold_left
    (fun n c =>
       if digit_between 0 9 c then (10 * n + Z.of_nat (Ascii.nat_of_ascii c - 48))%Z else n)
    (list_ascii_of_string text) 0%Z.

(** The number of days of a month of the proleptic Gregorian calendar. *)
Definition days_in_month (year month : Z) : Z :=
  if (month =? 2)%Z then
    if ((year mod 4 =? 0) && (negb (year mod 100 =? 0) || (year mod 400 =? 0)))%Z
    then 29 else 28
  else if ((month =? 4) || (month =? 6) || (month =? 9) || (month =? 11))%Z then 30
  else 31.

(** [datetime.strptime(text, '%Y%m%dT%H%M%S')] on a text of ASCII
    characters, the date and time returned as the number [YYYYMMDDhhmmss]
    (the order of these numbers is the order of the dates); every failure
    is a [ValueError]. *)
Definition strptime_compact (text : string) : result Z :=
  match match_groups compact_time_pattern text with
  | Some ([yy; mo; dd; _; hh; mi; ss], rest) =>
      let year := int_of_digits yy in
      let month := int_of_digits mo in
      let day := int_of_digits dd in
      let second := int_of_digits ss in
      if negb (String.eqb rest "") then Raise (ValueError "unconverted data remains")
      else if (year =? 0)%Z then Raise (ValueError "year 0 is out of range")
      else if (days_in_month year month <? day)%Z then
        Raise (ValueError "day is out of range for month")
      else if (59 <? second)%Z then Raise (ValueError "second must be in 0..59")
      else
        Ok (((((year * 100 + month) * 100 + day) * 100 + int_of_digits hh) * 100
             + int_of_digits mi) * 100 + second)%Z
  | _ => Raise (ValueError "time data does not match format '%Y%m%dT%H%M%S'")
  end.

(** [satID = self.filename.split('/')[-1][:3]] *)
Definition satID (self : Sentinel1Image) : string :=
  substring 0 3 (last_component "" (filename self)).

(** [sensingDate = datetime.strptime(
       self.filename.split('/')[-1].split('_')[4], '%Y%m%dT%H%M%S')] *)
Definition sensingDate (self : Sentinel1Image) : result Z :=
  match split_on 95 "" (last_component "" (filename self)) !! 4%nat with
  | Some field => strptime_compact field
  | None => Raise (IndexError "list index out of range")
  end.

(** [sensingDate >= datetime(...)] for the date of the number [since], once
    the sensing date is read. *)
Definition sensed_since (self : Sentinel1Image) (since : Z) : bool :=
  match sensingDate self with
  | Ok date => (since <=? date)%Z
  | Raise _ => false
  end.

(** The version the coefficients are looked up under: the IPF version,
    replaced by 2.8 for S1B products of IPF 2.72 sensed from
    2017-01-16T13:42:34 on. *)
Definition coefficientVersion (self : Sentinel1Image) : Q :=
  if String.eqb (satID self) "S1B"
     && feqb (binary64 (IPFversion self)) (binary64 (272 # 100))
     && sensed_since self 20170116134234
  then 28 # 10 else IPFversion self.

(** One pass of the loop of [import_denoisingCoefficients] over the
    subswaths. *)
Definition coefficients_step (dp : denoParams_t) (mode : obsMode_t) (key : string)
  (c : coefficients) (iSW : nat) : coefficients :=
  let ID := subswathID mode iSW in
  {| noiseScalingParameters :=
       <[ID := versioned_or (dp_noiseScalingParameters dp) ID key (Fin 1)]>
         (noiseScalingParameters c);
     powerBalancingParameters :=
       <[ID := versioned_or (dp_powerBalancingParameters dp) ID key (Fin 0)]>
         (powerBalancingParameters c);
     extraScalingParameters :=
       extraScaling_step (dp_extraScalingParameters dp) ID (extraScalingParameters c);
     noiseVarianceParameters :=
       <[ID := variance_or (dp_noiseVarianceParameters dp) ID]>
         (noiseVarianceParameters c) |}.

(** The dictionaries before the loop: all empty but for
    [extraScalingParameters['SNR'] = []]. *)
Definition coefficients_init : coefficients :=
  {| noiseScalingParameters := ∅;
     powerBalancingParameters := ∅;
     extraScalingParameters := {["SNR" := []]};
     noiseVarianceParameters := ∅ |}.

(** [import_denoisingCoefficients]: the store is loaded, the sensing date
    is read off the file name, and the loop over the subswaths fills the
    dictionaries. *)
Definition import_denoisingCoefficients (self : Sentinel1Image) (pol : polarization)
  : result coefficients :=
  rbind (denoParams self pol) (fun dp =>
  rbind (sensingDate self) (fun _ =>
  Ok (foldl (coefficients_step dp (obsMode self) (format_1f (coefficientVersion self)))
        coefficients_init (subswathRange (obsMode self))))).

(** ** Noise-equivalent sigma nought *)

Section NoiseEquivalent.
Local Open Scope result_scope.

Variable K : kernels.

(** [astype(np.uint32)] followed by [np.power(., 2)] in [uint32]. *)
Definition uint32_square (dn : N) : N :=
  ((dn mod 2 ^ 32) * (dn mod 2 ^ 32) mod 2 ^ 32)%N.

(** [rawSigma0Map] *)
Definition rawSigma0Map (self : Sentinel1Image) (pol : polarization) : result raster :=
  dn <- DN self pol ;;
  cal <- self_calibrationVectorMap self pol ;;
  Ok (fun i j => fdiv (of_Z (Z.of_N (uint32_square (dn i j)))) (fmul (cal i j) (cal i j))).

(** [noiseCalibrationFactor['%s%s' % (self.obsMode, iSW)]] *)
Definition noiseCalibrationFactor (m : obsMode_t) (iSW : nat) : result float64 :=
  match m, iSW with
  | IW, 1%nat => Ok (Fin (596583803 # 10000))
  | IW, 2%nat => Ok (Fin (5273443872 # 100000))
  | IW, 3%nat => Ok (Fin (597586889 # 10000))
  | EW, 1%nat => Ok (Fin (5606587 # 100))
  | EW, 2%nat => Ok (Fin (5655976 # 100))
  | EW, 3%nat => Ok (Fin (4495639 # 100))
  | EW, 4%nat => Ok (Fin (4632429 # 100))
  | EW, 5%nat => Ok (Fin (4350568 # 100))
  | _, _ => Raise (KeyError (subswathID m iSW))
  end.

(** [{'IW':474, 'EW':1087}[self.obsMode]**2] *)
Definition prescale_square (m : obsMode_t) : float64 :=
  match m with
  | IW => Fin (474 * 474)
  | EW => Fin (1087 * 1087)
  end.

(** One pass of the pre-scaling loop: [noiseEquivalentSigma0[valid] *= ...]
    with [valid = (subswathIndexMap==iSW)]. *)
Definition prescale_pass (mode : obsMode_t) (swi : indexmap) (n : raster) (iSW : nat)
  : result raster :=
  factor <- noiseCalibrationFactor mode iSW ;;
  Ok (fun i j =>
        if N.eqb (swi i j) (N.of_nat iSW)
        then fmul (n i j) (fmul (prescale_square mode) factor)
        else n i j).

(** [rawNoiseEquivalentSigma0Map(polarization, lutShift)] *)
Definition rawNoiseEquivalentSigma0Map (self : Sentinel1Image) (pol : polarization)
  (lutShift : bool) : result raster :=
  noise <- self_noiseVectorMap self pol lutShift ;;
  cal <- self_calibrationVectorMap self pol ;;
  let nesz : raster := fun i j => fdiv (noise i j) (fmul (cal i j) (cal i j)) in
  if fltb (fmul (Fin 10) (np_log10 K (np_nanmean (cells (shape self) nesz)))) (Fin (- (40)))
  then
    swi <- self_subswathIndexMap self pol ;;
    for_each (subswathRange (obsMode self)) (prescale_pass (obsMode self) swi) nesz
  else Ok nesz.

(** [adaptiveNoiseScaling] *)
Definition adaptiveNoiseScaling (self : Sentinel1Image) (sigma0 noiseEquivalentSigma0 : raster)
  (swi : indexmap) (extraScaling : gmap string (list float64)) (windowSize : nat)
  : result raster :=
  let meanSigma0 := box_mean K windowSize (shape self) sigma0 in
  let meanNEsigma0 := box_mean K windowSize (shape self) noiseEquivalentSigma0 in
  let meanSWindex := box_mean_u8 K windowSize (shape self) swi in
  let SNR : raster := fun i j =>
    fmul (Fin 10) (np_log10 K (fsub (fdiv (meanSigma0 i j) (meanNEsigma0 i j)) (Fin 1))) in
  for_each (subswathRange (obsMode self))
    (fun (n : raster) iSW =>
       axis <- py_getitem extraScaling "SNR" ;;
       curve <- py_getitem extraScaling (subswathID (obsMode self) iSW) ;;
       interpFunc <- InterpolatedUnivariateSpline K axis curve 3 ;;
       Ok (fun i j =>
             if isfinite (SNR i j) && N.eqb (meanSWindex i j) (N.of_nat iSW)
             then fmul (n i j) (interpFunc (SNR i j))
             else n i j))
    noiseEquivalentSigma0.

Definition is_cross_pol (pol : polarization) : bool :=
  polarization_eqb pol HV || polarization_eqb pol VH.

(** [self.IPFversion >= 2.5 and self.IPFversion < 2.9] *)
Definition scallopingApplies (self : Sentinel1Image) : bool :=
  fleb (binary64 (25 # 10)) (binary64 (IPFversion self))
  && fltb (binary64 (IPFversion self)) (binary64 (29 # 10)).

(** [modifiedNoiseEquivalentSigma0Map(polarization,
    localNoisePowerCompensation)] *)
Definition modifiedNoiseEquivalentSigma0Map (self : Sentinel1Image) (pol : polarization)
  (localNoisePowerCompensation : bool) : result raster :=
  nesz <- self_rawNoiseEquivalentSigma0Map self pol true ;;
  nesz <-
    (if scallopingApplies self
     then
       gain <- self_scallopingGainMap self pol ;;
       Ok (fun i j => fmul (nesz i j) (gain i j))
     else Ok nesz) ;;
  swi <- self_subswathIndexMap self pol ;;
  coef <- import_denoisingCoefficients self pol ;;
  nesz <-
    for_each (subswathRange (obsMode self))
      (fun (n : raster) iSW =>
         k <- py_getitem (noiseScalingParameters coef) (subswathID (obsMode self) iSW) ;;
         b <- py_getitem (powerBalancingParameters coef) (subswathID (obsMode self) iSW) ;;
         Ok (fun i j =>
               if N.eqb (swi i j) (N.of_nat iSW) then fadd (fmul (n i j) k) b else n i j))
      nesz ;;
  if localNoisePowerCompensation && is_cross_pol pol then
    sigma0 <- self_rawSigma0Map self pol ;;
    adaptiveNoiseScaling self sigma0 nesz swi (extraScalingParameters coef) 5
  else Ok nesz.

End NoiseEquivalent.

(** ** Thermal noise removal *)

(** The calls a method makes on [self], in the order it makes them. *)
Inductive method_call : Type :=
| Called_subswathIndexMap (pol : polarization)
| Called_rawSigma0Map (pol : polarization)
| Called_rawNoiseEquivalentSigma0Map (pol : polarization) (lutShift : bool)
| Called_modifiedNoiseEquivalentSigma0Map (pol : polarization)
    (localNoisePowerCompensation : bool).

(** A method body: it threads the log of the calls made on the object so
    far, and returns or raises. *)
Definition method (A : Type) : Type :=
  list method_call -> list method_call * result A.

Definition mreturn {A : Type} (a : A) : method A := fun log => (log, Ok a).
Definition mraise {A : Type} (e : exn) : method A := fun log => (log, Raise e).
Definition mbind {A B : Type} (m : method A) (k : A -> method B) : method B :=
  fun log =>
    match m log with
    | (log', Ok a) => k a log'
    | (log', Raise e) => (log', Raise e)
    end.

(** Calling a method of [self]: the call is logged and its outcome is the
    content of the slot. *)
Definition invoke {A : Type} (c : method_call) (slot : result A) : method A :=
  fun log => (log ++ [c], slot).

Declare Scope method_scope.
Delimit Scope method_scope with method.
Notation "x <- m ;; k" := (mbind m (fun x => k))
  (at level 100, m at next level, right associativity) : method_scope.

(** What [thermalNoiseRemoval] returns: [sigma0], or the pair
    [noiseEquivalentSigma0, sigma0] when [returnNESZ] is set. *)
Inductive denoised : Type :=
| Sigma0 (sigma0 : raster)
| NESZ_Sigma0 (noiseEquivalentSigma0 sigma0 : raster).

Definition sigma0_of (d : denoised) : raster :=
  match d with
  | Sigma0 s => s
  | NESZ_Sigma0 _ s => s
  end.

(** The noise subtraction:
    [sigma0 = rawSigma0 - noiseEquivalentSigma0] and, under
    [preserveTotalPower], [sigma0 += np.nanmean(noiseEquivalentSigma0)]. *)
Definition noiseSubtraction (shp : nat * nat) (preserveTotalPower : bool)
  (rawSigma0 noiseEquivalentSigma0 : raster) : raster :=
  let sigma0 : raster := fun i j => fsub (rawSigma0 i j) (noiseEquivalentSigma0 i j) in
  if preserveTotalPower then
    fun i j => fadd (sigma0 i j) (np_nanmean (cells shp noiseEquivalentSigma0))
  else sigma0.

(** The post-filter: [sigma0[sigma0 < 0] = 0] for ['ESA'];
    [sigma0[rawSigma0==0] = np.nan] and [sigma0[rawSigma0 < 1e-4] = np.nan]
    for ['NERSC']. *)
Definition postFilter (algorithm : pyval) (rawSigma0 sigma0 : raster) : raster :=
  if py_eq_str algorithm "ESA" then
    fun i j => if fltb (sigma0 i j) (Fin 0) then Fin 0 else sigma0 i j
  else if py_eq_str algorithm "NERSC" then
    fun i j =>
      if feqb (rawSigma0 i j) (Fin 0) || fltb (rawSigma0 i j) (Fin (1 # 10000))
      then NaN else sigma0 i j
  else sigma0.

(** [thermalNoiseRemoval(polarization, algorithm, localNoisePowerCompensation,
    preserveTotalPower, returnNESZ)] *)
Definition thermalNoiseRemoval (self : Sentinel1Image) (pol : polarization)
  (algorithm : pyval) (localNoisePowerCompensation : bool) (preserveTotalPower : pyval)
  (returnNESZ : bool) : method denoised :=
  (if negb (py_in_strs algorithm ["ESA"; "NERSC"]) then
     mraise (ValueError "algorithm must be 'ESA' or 'NERSC'")
   else if negb (isinstance_bool preserveTotalPower) then
     mraise (ValueError "preserveTotalPower must be True or False")
   else
     swi <- invoke (Called_subswathIndexMap pol) (self_subswathIndexMap self pol) ;;
     rawSigma0 <- invoke (Called_rawSigma0Map pol) (self_rawSigma0Map self pol) ;;
     noiseEquivalentSigma0 <-
       (if py_eq_str algorithm "ESA" then
          invoke (Called_rawNoiseEquivalentSigma0Map pol false)
            (self_rawNoiseEquivalentSigma0Map self pol false)
        else if py_eq_str algorithm "NERSC" then
          invoke (Called_modifiedNoiseEquivalentSigma0Map pol localNoisePowerCompensation)
            (self_modifiedNoiseEquivalentSigma0Map self pol localNoisePowerCompensation)
        else mraise (UnboundLocalError "noiseEquivalentSigma0")) ;;
     let sigma0 :=
       postFilter algorithm rawSigma0
         (noiseSubtraction (shape self) (py_truth preserveTotalPower)
            rawSigma0 noiseEquivalentSigma0) in
     mreturn (if returnNESZ then NESZ_Sigma0 noiseEquivalentSigma0 sigma0
              else Sigma0 sigma0))%method.

(** ** Orbit interpolation *)

Section Orbit.
Local Open Scope result_scope.

Variable K : kernels.

Definition fabs (a : float64) : float64 :=
  match a with
  | NaN => NaN
  | NInf | PInf => PInf
  | Fin q => Fin (Qabs q)
  end.

(** The order [np.argsort] sorts by: the IEEE order, NaNs last. *)
Definition sorts_before (a b : float64) : bool := fleb a b || isnan b.

(** The key of position [i] sorts before the key of position [j]. *)
Definition key_le (keys : list float64) (i j : nat) : Prop :=
  sorts_before (default NaN (keys !! i)) (default NaN (keys !! j)) = true.

(** Position [i] stands before position [j] in a sort that keeps tied keys
    in their order: its key sorts before, and when the keys are tied [i] is
    not after [j]. *)
Definition argsort_le (keys : list float64) (i j : nat) : Prop :=
  key_le keys i j /\ (key_le keys j i -> (i <= j)%nat).

#[local] Instance argsort_le_dec (keys : list float64) (i j : nat)
  : Decision (argsort_le keys i j).
Proof. unfold argsort_le, key_le. apply _. Defined.

(** [np.argsort(keys)] with tied keys kept in their order, as the
    insertion sort does that the scalar sort of numpy applies to arrays of
    up to 17 elements. *)
Definition np_argsort (keys : list float64) : list nat :=
  merge_sort (argsort_le keys) (seq 0 (length keys)).

(** [np.argsort] in general.  On longer arrays the sort of numpy is an
    introsort (or a vectorised sort) that promises the indices in an order
    that sorts the keys and no order among tied keys; the methods are given
    the function, of which the statements assume what numpy promises. *)
Variable argsort : list float64 -> list nat.

(** [sorted(indices)] *)
Definition py_sorted (indices : list nat) : list nat := merge_sort le indices.






(** [useIndices = sorted(np.argsort(abs(orbitTime-t))[:4])] *)
Definition useIndices (orbitTime : list float64) (t : float64) : list nat :=
  py_sorted (take 4 (argsort (map (fun ot => fabs (fsub ot t)) orbitTime))).






End Orbit.

(** ** Power balancing *)

(** [np.cumsum] of a one-dimensional array. *)
Fixpoint cumsum_from (acc : float64) (xs : list float64) : list float64 :=
  match xs with
  | [] => []
  | x :: rest => fadd acc x :: cumsum_from (fadd acc x) rest
  end.

Definition np_cumsum (xs : list float64) : list float64 :=
  match xs with
  | [] => []
  | x :: rest => x :: cumsum_from x rest
  end.

(** [xs[i]] on a Python list or a one-dimensional array. *)
Definition list_getitem {A : Type} (xs : list A) (i : Z) : result A :=
  rbind (np_index (length xs) i) (fun k =>
  match xs !! k with
  | Some x => Ok x
  | None => Raise (IndexError "list index out of range")
  end).

(** The value of a fitted line [slope * x + offset]; [np.polyfit(..., deg=1)]
    returns the pair slope first. *)
Definition line_at (coef : float64 * float64) (x : float64) : float64 :=
  fadd (fmul (fst coef) x) (snd coef).

(** The power discontinuity at one interswath boundary:
    [power2 - power1], both lines evaluated at the boundary. *)
Definition power_step (left right : float64 * float64) (boundary : float64) : float64 :=
  fsub (line_at right boundary) (line_at left boundary).

(** [balancingPower[i+1] = step] on an array. *)
Definition set_step (bp : list float64) (i : nat) (step : float64) : result (list float64) :=
  if (S i <? length bp)%nat then Ok (<[S i := step]> bp)
  else Raise (IndexError "index is out of bounds for axis").

Module Image.
(** The end of one block of [Sentinel1Image.experiment_powerBalancing],
    from [balancingPower = np.zeros(5)] on.  The fitted coefficients of the
    subswaths and the interswath boundary positions, computed earlier in
    the block, are given. *)

(** [balancingPower = np.zeros(5)] and the loop [for li in range(4)]. *)
Definition power_steps (fitCoefficients : list (float64 * float64))
  (interswathBounds : nat -> result float64) : result (list float64) :=
  for_each (seq 0 4)
    (fun bp li =>
       rbind (interswathBounds li) (fun boundary =>
       rbind (list_getitem fitCoefficients (Z.of_nat li)) (fun left =>
       rbind (list_getitem fitCoefficients (Z.of_nat li + 1)) (fun right =>
       set_step bp li (power_step left right boundary)))))
    (replicate 5 (Fin 0)).

(** The loop [blockN0[valid] += balancingPower[iSW-1]]. *)
Definition balanced_noise (self : Sentinel1Image) (balancingPower : list float64)
  (blockSWI : indexmap) (blockN0 : raster) : result raster :=
  for_each (subswathRange (obsMode self))
    (fun (n : raster) iSW =>
       rbind (list_getitem balancingPower (Z.of_nat iSW - 1)) (fun b =>
       Ok (fun i j =>
             if N.eqb (blockSWI i j) (N.of_nat iSW) then fadd (n i j) b else n i j)))
    blockN0.

(** [powerBias = np.nanmean((blockRN0-blockN0)[blockSWI>=2])] *)
Definition powerBias (blockShape : nat * nat) (blockSWI : indexmap)
  (blockRN0 balanced : raster) : float64 :=
  np_nanmean
    (masked blockShape (fun i j => (2 <=? blockSWI i j)%N)
       (fun i j => fsub (blockRN0 i j) (balanced i j))).

(** The array [balancingPower] whose entries are appended to the
    results. *)
Definition balancingPower_of_block (self : Sentinel1Image)
  (fitCoefficients : list (float64 * float64)) (interswathBounds : nat -> result float64)
  (blockShape : nat * nat) (blockSWI : indexmap) (blockN0 blockRN0 : raster)
  : result (list float64) :=
  rbind (power_steps fitCoefficients interswathBounds) (fun steps =>
  let balancingPower := np_cumsum steps in
  rbind (balanced_noise self balancingPower blockSWI blockN0) (fun balanced =>
  Ok (map (fun b => fadd b (powerBias blockShape blockSWI blockRN0 balanced))
        balancingPower))).
End Image.

Module CalVal.
(** The end of one line of [Sentinel1CalVal.experiment_powerBalancing],
    from [balancingPower = np.zeros(num_swaths)] on.  [swath_ids] is the
    attribute [self.swath_ids]; [frs] and [lrs] are the dictionaries of
    first and last range samples of the subswaths at this line; [pixels] is
    [nrv_pixel[li]], and [blockN0], [blockRN0] are the two noise arrays
    over these pixels. *)

(** [(p >= lo) * (p <= hi)] *)
Definition pixel_between (lo hi : Z) (p : Z) : bool := (lo <=? p)%Z && (p <=? hi)%Z.

(** [balancingPower = np.zeros(num_swaths)] and the loop
    [for i in range(num_swaths - 1)]. *)
Definition power_steps (mode : obsMode_t) (num_swaths : nat)
  (fitCoefficients : list (float64 * float64)) (lrs : gmap string Z)
  : result (list float64) :=
  for_each (seq 0 (num_swaths - 1))
    (fun bp i =>
       rbind (list_getitem fitCoefficients (Z.of_nat i)) (fun left =>
       rbind (py_getitem lrs (subswathID mode (S i))) (fun boundary =>
       rbind (list_getitem fitCoefficients (Z.of_nat i + 1)) (fun right =>
       set_step bp i (power_step left right (of_Z boundary))))))
    (replicate num_swaths (Fin 0)).

(** The loop [blockN0[valid2] += balancingPower[iSW-1]]. *)
Definition balanced_noise (mode : obsMode_t) (swath_ids : list nat)
  (balancingPower : list float64) (frs lrs : gmap string Z) (crop : Z)
  (pixels : list Z) (blockN0 : list float64) : result (list float64) :=
  for_each swath_ids
    (fun (n : list float64) iSW =>
       rbind (py_getitem frs (subswathID mode iSW)) (fun lo =>
       rbind (py_getitem lrs (subswathID mode iSW)) (fun hi =>
       rbind (list_getitem balancingPower (Z.of_nat iSW - 1)) (fun b =>
       Ok (zip_with
             (fun p v => if pixel_between (lo + crop) (hi - crop) p then fadd v b else v)
             pixels n)))))
    blockN0.

(** [valid3] and [powerBias = np.nanmean((blockRN0-blockN0)[valid3])] *)
Definition powerBias (mode : obsMode_t) (frs : gmap string Z) (crop : Z)
  (pixels : list Z) (blockRN0 balanced : list float64) : result float64 :=
  rbind (py_getitem frs (subswathID mode 2)) (fun lo2 =>
  let valid3 := map (fun p => (lo2 + crop <=? p)%Z) pixels in
  Ok (np_nanmean (select valid3 (zip_with fsub blockRN0 balanced)))).

(** The array [balancingPower] stored in the results of the line. *)
Definition balancingPower_of_line (mode : obsMode_t) (swath_ids : list nat)
  (fitCoefficients : list (float64 * float64)) (frs lrs : gmap string Z) (crop : Z)
  (pixels : list Z) (blockN0 blockRN0 : list float64) : result (list float64) :=
  rbind (power_steps mode (length swath_ids) fitCoefficients lrs) (fun steps =>
  let balancingPower := np_cumsum steps in
  rbind (balanced_noise mode swath_ids balancingPower frs lrs crop pixels blockN0)
    (fun balanced =>
  rbind (powerBias mode frs crop pixels blockRN0 balanced) (fun bias =>
  Ok (map (fun b => fadd b bias) balancingPower)))).
End CalVal.

(** * Vocabulary of the statements and example objects *)

(** ** Calls and arguments of [thermalNoiseRemoval] *)

(** The slot that [thermalNoiseRemoval] reads the noise raster from. *)
Definition noise_slot (self : Sentinel1Image) (pol : polarization) (algorithm : string)
  (localNoisePowerCompensation : bool) : result raster :=
  if String.eqb algorithm "ESA" then self_rawNoiseEquivalentSigma0Map self pol false
  else self_modifiedNoiseEquivalentSigma0Map self pol localNoisePowerCompensation.

Definition noise_call (pol : polarization) (algorithm : string)
  (localNoisePowerCompensation : bool) : method_call :=
  if String.eqb algorithm "ESA" then Called_rawNoiseEquivalentSigma0Map pol false
  else Called_modifiedNoiseEquivalentSigma0Map pol localNoisePowerCompensation.

Definition is_variant (algorithm : string) : Prop :=
  algorithm = "ESA" \/ algorithm = "NERSC".

Definition valid_algorithm (algorithm : pyval) : Prop :=
  algorithm = PyStr "ESA" \/ algorithm = PyStr "NERSC".

Definition is_bool (v : pyval) : Prop := exists b, v = PyBool b.

(** The post-filter of the variant leaves the pixel as the noise
    subtraction computed it. *)
Definition postFilter_keeps (algorithm : string) (raw sigma0 : raster) (i j : nat) : Prop :=
  (algorithm = "ESA" /\ fltb (sigma0 i j) (Fin 0) = false)
  \/ (algorithm = "NERSC" /\ feqb (raw i j) (Fin 0) = false
      /\ fltb (raw i j) (Fin (1 # 10000)) = false).

(** ** Example objects *)

(** A raster given by its rows. *)
Definition raster_of (rows : list (list float64)) : raster :=
  fun i j =>
    match rows !! i with
    | Some row => default NaN (row !! j)
    | None => NaN
    end.

Definition not_provided {A : Type} : result A := Raise (KeyError "not provided").

(** The value attached to the first node that is not below [at_] (the last
    node when there is none): an interpolation that is exact at the
    nodes. *)
Fixpoint step_pick {A : Type} (dflt : A) (x : list float64) (v : list A) (at_ : float64) : A :=
  match x, v with
  | xk :: xs, vk :: vs =>
      match xs with
      | [] => vk
      | _ => if fleb at_ xk then vk else step_pick dflt xs vs at_
      end
  | _, _ => dflt
  end.

(** A concrete choice of kernels, used to run the model on examples: both
    interpolations are exact at their nodes and the logarithm is exact at
    the two values it tabulates. *)
Definition trial_kernels : kernels :=
  {| spline_eval := fun _ x y at_ => step_pick NaN x y at_;
     bispline_eval := fun x y z atx aty => step_pick NaN x (step_pick [] y z aty) atx;
     np_corrcoef := fun _ _ => Fin 0;
     np_log10 := fun a =>
       if sameb a (Fin 1) then Fin 0
       else if sameb a (Fin (1 # 1000000)) then Fin (- (6))
       else NaN;
     hermfit_coef := fun _ y _ => [default (Fin 0) (head y)];
     box_mean := fun _ _ f => f;
     box_mean_u8 := fun _ _ f => f |}.

(** The name of an S1A product of the mode, sensed on 2018-01-01. *)
Definition product_name (mode : obsMode_t) : string :=
  match mode with
  | IW => "/data/S1A_IW_GRDH_1SDV_20180101T000000_20180101T000025_019955_021FC4_1A2B.SAFE"
  | EW => "/data/S1A_EW_GRDM_1SDH_20180101T000000_20180101T000100_019955_021FC4_3C4D.SAFE"
  end.

(** An object whose collaborators and raster methods return what is given,
    the same for every polarization. *)
Definition image_with (mode : obsMode_t) (version : Q) (shp : nat * nat)
  (coefficients : result denoParams_t)
  (bounds : result (nat -> list swathBound))
  (calibration : result (list sparseRecord))
  (noise : result (list sparseRecord * (nat -> list noiseAzimuthBlock)))
  (orbit : result (list stateVector))
  (swi : result indexmap) (calmap noisemap raw nesz modified : result raster)
  : Sentinel1Image :=
  {| filename := product_name mode;
     obsMode := mode;
     IPFversion := version;
     shape := shp;
     DN := fun _ => not_provided;
     denoParams := fun _ => coefficients;
     import_swathBounds := fun _ => bounds;
     import_calibrationVector := fun _ => calibration;
     import_noiseVector := fun _ => noise;
     import_orbit := fun _ => orbit;
     self_geolocationGridPointInterpolator := fun _ _ => not_provided;
     self_elevationAntennaPatternInterpolator := fun _ => not_provided;
     self_rangeSpreadingLossInterpolator := fun _ => not_provided;
     self_subswathIndexMap := fun _ => swi;
     self_calibrationVectorMap := fun _ => calmap;
     self_noiseVectorMap := fun _ _ => noisemap;
     self_scallopingGainMap := fun _ => not_provided;
     self_rawSigma0Map := fun _ => raw;
     self_rawNoiseEquivalentSigma0Map := fun _ _ => nesz;
     self_modifiedNoiseEquivalentSigma0Map := fun _ _ => modified |}.

(** An object whose raster methods return the given rasters and whose
    other collaborators are absent. *)
Definition image_of_rasters (mode : obsMode_t) (shp : nat * nat) (swi : indexmap)
  (raw nesz modified : raster) : Sentinel1Image :=
  image_with mode (29 # 10) shp not_provided not_provided not_provided not_provided
    not_provided (Ok swi) not_provided not_provided (Ok raw) (Ok nesz) (Ok modified).

(** The pixel [(i, j)] of the denoised raster a call returned (NaN when
    the call raised). *)
Definition returned_pixel (out : list method_call * result denoised) (i j : nat) : float64 :=
  match snd out with
  | Ok d => sigma0_of d i j
  | Raise _ => NaN
  end.

Definition demo_image : Sentinel1Image :=
  image_of_rasters IW (1, 2)%nat (fun _ _ => 1%N)
    (raster_of [[Fin 0; Fin 5]]) (raster_of [[Fin 1; Fin 3]]) (raster_of [[Fin 2; Fin 7]]).


Definition c2_raw : raster := raster_of [[Fin 0; Fin 0]].
Definition c2_noise : raster := raster_of [[Fin 1; Fin 3]].
Definition c2_image : Sentinel1Image :=
  image_of_rasters IW (1, 2)%nat (fun _ _ => 1%N) c2_raw c2_noise c2_noise.

(** A line whose first pixel lies outside the subswaths: raw and noise are
    NaN there. *)
Definition c2_blank_raw : raster := raster_of [[NaN; Fin 1]].
Definition c2_blank_noise : raster := raster_of [[NaN; Fin 3]].
Definition c2_blank_image : Sentinel1Image :=
  image_of_rasters IW (1, 2)%nat (fun _ _ => 1%N) c2_blank_raw c2_blank_noise c2_blank_noise.

(** A line whose first pixel has noise but no raw value. *)
Definition c2_gap_raw : raster := raster_of [[NaN; Fin 1]].
Definition c2_gap_image : Sentinel1Image :=
  image_of_rasters IW (1, 2)%nat (fun _ _ => 1%N) c2_gap_raw c2_noise c2_noise.

(** An IW image of one line of two pixels, both in the first subswath,
    with constant noise vector and calibration vector maps, whose
    [rawNoiseEquivalentSigma0Map] is the method of the class. *)
Definition image_of_noise (noise cal : float64) : Sentinel1Image :=
  let parts nesz :=
    image_with IW (29 # 10) (1, 2)%nat not_provided not_provided not_provided not_provided
      not_provided (Ok (fun _ _ => 1%N)) (Ok (fun _ _ => cal)) (Ok (fun _ _ => noise))
      (Ok (raster_of [[Fin 5; Fin 5]])) nesz not_provided in
  parts (rawNoiseEquivalentSigma0Map trial_kernels (parts not_provided) HV false).

(** The noise raster a call handed back under [returnNESZ] (NaN when the
    call raised or handed none back). *)
Definition returned_noise (out : list method_call * result denoised) (i j : nat) : float64 :=
  match snd out with
  | Ok (NESZ_Sigma0 n _) => n i j
  | _ => NaN
  end.

(** ** Means over a raster *)

(** The index pairs of an array of the shape, in row-major order. *)
Definition positions (shp : nat * nat) : list (nat * nat) :=
  flat_map (fun i => map (pair i) (seq 0 (snd shp))) (seq 0 (fst shp)).

(** The finite values of an array. *)
Fixpoint finite_values (xs : list float64) : list Q :=
  match xs with
  | [] => []
  | Fin q :: rest => q :: finite_values rest
  | _ :: rest => finite_values rest
  end.

Definition Qsum (qs : list Q) : Q := foldr Qplus 0%Q qs.

Definition no_infinity (a : float64) : Prop := a <> PInf /\ a <> NInf.

(** ** The LUT shift search *)

(** [m] successive passes of the loop body from the state [st]. *)
Fixpoint shift_steps (estimate : float64 -> result float64) (st : shiftState) (m : nat)
  : result shiftState :=
  match m with
  | O => Ok st
  | S m' => rbind (shift_step estimate st) (fun st' => shift_steps estimate st' m')
  end.

(** ** Orbit interpolation *)




(** A state vector at time [t] on a straight line. *)
Definition state_at (t : Q) : stateVector :=
  {| sv_time := Fin t;
     sv_position := (Fin (7000 + t), Fin (2 * t), Fin 0);
     sv_velocity := (Fin 1, Fin 2, Fin 0) |}.

Definition five_states : list stateVector :=
  [state_at (- (20)); state_at (- (10)); state_at 0; state_at 10; state_at 20].


(** ** Correction coefficients *)

(** An object of an S1A IW product whose raster methods return the given
    rasters and whose coefficient store returns [dp]. *)
Definition image_of_coefficients (dp : denoParams_t) (version : Q) (shp : nat * nat)
  (swi : indexmap) (raw nesz : raster) : Sentinel1Image :=
  image_with IW version shp (Ok dp) not_provided not_provided not_provided
    not_provided (Ok swi) not_provided not_provided (Ok raw) (Ok nesz) not_provided.

(** A coefficient store with no entry at all. *)
Definition no_coefficients : denoParams_t :=
  {| dp_noiseScalingParameters := None;
     dp_powerBalancingParameters := None;
     dp_extraScalingParameters := None;
     dp_noiseVarianceParameters := None |}.

(** The field holds no value for the version, whatever the subswath. *)
Definition no_entry_for (field : option (gmap string (gmap string float64)))
  (version : string) : Prop :=
  forall d ID byVersion,
    field = Some d -> d !! ID = Some byVersion -> byVersion !! version = None.

(** The field holds no curve for any subswath of the mode. *)
Definition no_curve_for (field : option (gmap string (list float64))) (mode : obsMode_t)
  : Prop :=
  forall d iSW,
    field = Some d -> iSW ∈ subswathRange mode -> d !! subswathID mode iSW = None.

(** The dictionaries the loop builds from a store with no entry. *)
Definition default_coefficients (mode : obsMode_t) : coefficients :=
  foldl (coefficients_step no_coefficients mode "") coefficients_init (subswathRange mode).

Definition c8_image : Sentinel1Image :=
  image_of_coefficients no_coefficients (31 # 10) (1, 3)%nat
    (fun _ j => N.of_nat (S j))
    (raster_of [[Fin 5; Fin 6; Fin 7]]) (raster_of [[Fin 1; Fin 2; Fin 3]]).

(** ** Power balancing *)

(** The value assigned in pass [li] of the loop of
    [Sentinel1Image.experiment_powerBalancing]. *)
Definition image_step (fitCoefficients : list (float64 * float64))
  (interswathBounds : nat -> result float64) (li : nat) (v : float64) : Prop :=
  exists left right boundary,
    fitCoefficients !! li = Some left
    /\ fitCoefficients !! S li = Some right
    /\ interswathBounds li = Ok boundary
    /\ v = power_step left right boundary.

(** The value assigned in pass [i] of the loop of
    [Sentinel1CalVal.experiment_powerBalancing]: the lines are evaluated at
    the last range sample of the left subswath. *)
Definition calval_step (mode : obsMode_t) (fitCoefficients : list (float64 * float64))
  (lrs : gmap string Z) (i : nat) (v : float64) : Prop :=
  exists left right boundary,
    fitCoefficients !! i = Some left
    /\ fitCoefficients !! S i = Some right
    /\ lrs !! subswathID mode (S i) = Some boundary
    /\ v = power_step left right (of_Z boundary).

(** A line over three subswaths of two pixels each: the fitted lines are
    the constants 0, 1 and 3, the scaled noise is 1 and the raw noise is 2
    everywhere. *)
Definition c9_fit : list (float64 * float64) :=
  [(Fin 0, Fin 0); (Fin 0, Fin 1); (Fin 0, Fin 3)].
Definition c9_frs : gmap string Z := list_to_map [("IW1", 0%Z); ("IW2", 2%Z); ("IW3", 4%Z)].
Definition c9_lrs : gmap string Z := list_to_map [("IW1", 1%Z); ("IW2", 3%Z); ("IW3", 5%Z)].
Definition c9_pixels : list Z := [0; 1; 2; 3; 4; 5]%Z.
Definition c9_line : result (list float64) :=
  CalVal.balancingPower_of_line IW [1; 2; 3]%nat c9_fit c9_frs c9_lrs 0 c9_pixels
    (replicate 6 (Fin 1)) (replicate 6 (Fin 2)).

(** A block of one line over five subswaths of one pixel each: the fitted
    lines are the constants 0, 1, 3, 6 and 10, the scaled noise is 1 and
    the raw noise is 2 everywhere. *)
Definition c9_block : result (list float64) :=
  Image.balancingPower_of_block
    (image_of_rasters EW (1, 5)%nat (fun _ _ => 0%N) (fun _ _ => NaN) (fun _ _ => NaN)
       (fun _ _ => NaN))
    [(Fin 0, Fin 0); (Fin 0, Fin 1); (Fin 0, Fin 3); (Fin 0, Fin 6); (Fin 0, Fin 10)]
    (fun li => Ok (of_nat li)) (1, 5)%nat (fun _ j => N.of_nat (S j))
    (fun _ _ => Fin 1) (fun _ _ => Fin 2).

(** The offset of the first subswath in a returned [balancingPower]. *)
Definition first_offset (r : result (list float64)) : float64 :=
  match r with
  | Ok (b :: _) => b
  | _ => NaN
  end.

(** ** Sparse-to-dense reconstruction *)

(** The pixel lies in none of the subswaths of the acquisition mode. *)
Definition in_no_subswath (self : Sentinel1Image) (swi : indexmap) (i j : nat) : Prop :=
  forall iSW, iSW ∈ subswathRange (obsMode self) -> swi i j <> N.of_nat iSW.

(** An IW image of 3 lines by 12 pixels: subswath [k] covers the pixels
    [4(k-1) .. 4k-1] of every line. *)
Definition c7_bounds (iSW : nat) : list swathBound :=
  if (1 <=? iSW)%nat && (iSW <=? 3)%nat then
    [{| firstAzimuthLine := 0;
        firstRangeSample := 4 * (Z.of_nat iSW - 1);
        lastAzimuthLine := 2;
        lastRangeSample := 4 * Z.of_nat iSW - 1 |}]
  else [].

(** A record with a sample at every pixel: the value [first] over the first
    subswath and 1 elsewhere. *)
Definition c7_record (line : Z) (first : float64) : sparseRecord :=
  {| sr_line := line;
     sr_samples :=
       map (fun p => (p, if (p <? 4)%Z then first else Fin 1)) (arange 0 12) |}.

Definition c7_block : noiseAzimuthBlock :=
  {| az_firstAzimuthLine := 0;
     az_firstRangeSample := 0;
     az_lastAzimuthLine := 2;
     az_lastRangeSample := 11;
     az_lut := AzList [0; 2]%Z [Fin 1; Fin 1] |}.

(** An object that holds sparse tables and swath bounds, with a given slot
    for the subswath index map. *)
Definition image_of_tables (table : list sparseRecord) (swi : result indexmap)
  : Sentinel1Image :=
  image_with IW (29 # 10) (3, 12)%nat not_provided (Ok c7_bounds) (Ok table)
    (Ok (table, fun _ => [c7_block])) not_provided swi not_provided not_provided
    not_provided not_provided not_provided.

(** The slot of the subswath index map is bound to the method of the
    class. *)
Definition image_with_index_map (table : list sparseRecord) : Sentinel1Image :=
  image_of_tables table (subswathIndexMap (image_of_tables table not_provided) HV).

(** The record of line 1 has no positive sample over the first subswath. *)
Definition c7_image : Sentinel1Image :=
  image_with_index_map [c7_record 0 (Fin 1); c7_record 1 (Fin 0); c7_record 2 (Fin 1)].

(** No record has a positive sample over the first subswath. *)
Definition c7_void : Sentinel1Image :=
  image_with_index_map [c7_record 0 (Fin 0); c7_record 1 (Fin 0); c7_record 2 (Fin 0)].

Definition c7_swi : indexmap :=
  match self_subswathIndexMap c7_image HV with
  | Ok swi => swi
  | Raise _ => fun _ _ => 0%N
  end.

Definition raster_pixel (r : result raster) (i j : nat) : float64 :=
  match r with
  | Ok m => m i j
  | Raise _ => NaN
  end.

(** * Further methods and vocabulary *)

(** ** The subswath index map *)

(** [subswathIndexMap[fal:lal+1,frs:lrs+1]] selects the pixel. *)
Definition rectangle_covers (shp : nat * nat) (b : swathBound) (i j : nat) : bool :=
  in_slice (fst shp) (firstAzimuthLine b) (lastAzimuthLine b + 1) i
  && in_slice (snd shp) (firstRangeSample b) (lastRangeSample b + 1) j.

(** One of the rectangles of the subswath selects the pixel. *)
Definition subswath_covers (shp : nat * nat) (bounds : list swathBound) (i j : nat) : bool :=
  existsb (fun b => rectangle_covers shp b i j) bounds.


(** ** The shift estimate *)

(** The number of lags [est_shift] correlates at:
    [len(np.arange(len(test) - len(reference) + 1))]. *)
Definition lag_count (reference test : list float64) : Z :=
  Z.max 0 (Z.of_nat (length test) - Z.of_nat (length reference) + 1).

(** ** Subswaths without swath bounds *)

(** The image of [c7_image] with no rectangle for the third subswath. *)
Definition image_without_third_bounds : Sentinel1Image :=
  let table := [c7_record 0 (Fin 1); c7_record 1 (Fin 1); c7_record 2 (Fin 1)] in
  let bounds (iSW : nat) := if (iSW =? 3)%nat then [] else c7_bounds iSW in
  let parts swi :=
    image_with IW (29 # 10) (3, 12)%nat not_provided (Ok bounds) (Ok table)
      (Ok (table, fun _ => [c7_block])) not_provided swi not_provided not_provided
      not_provided not_provided not_provided in
  parts (subswathIndexMap (parts not_provided) HV).

(** ** Stored correction coefficients *)

(** A coefficient store with an entry for every subswath of an IW product
    under the version key ['2.9']. *)
Definition stored_axis : list float64 := [Fin (- (1)); Fin 0; Fin 1; Fin 2].

Definition stored_coefficients : denoParams_t :=
  {| dp_noiseScalingParameters :=
       Some (list_to_map
               [("IW1", list_to_map [("2.9", Fin (3 # 2))]);
                ("IW2", list_to_map [("2.9", Fin 2)]);
                ("IW3", list_to_map [("2.9", Fin (5 # 2))])]);
     dp_powerBalancingParameters :=
       Some (list_to_map
               [("IW1", list_to_map [("2.9", Fin 0)]);
                ("IW2", list_to_map [("2.9", Fin (1 # 10))]);
                ("IW3", list_to_map [("2.9", Fin (2 # 10))])]);
     dp_extraScalingParameters :=
       Some (list_to_map
               [("SNNR", stored_axis);
                ("IW1", [Fin 1; Fin 1; Fin 1; Fin 1]);
                ("IW2", [Fin 2; Fin 2; Fin 2; Fin 2]);
                ("IW3", [Fin 3; Fin 3; Fin 3; Fin 3])]);
     dp_noiseVarianceParameters :=
       Some (list_to_map [("IW1", Fin 0); ("IW2", Fin 0); ("IW3", Fin 0)]) |}.

(** An IW product of IPF 2.9 of one line of three pixels, one per subswath,
    with that store. *)
Definition image_with_store : Sentinel1Image :=
  image_of_coefficients stored_coefficients (29 # 10) (1, 3)%nat
    (fun _ j => N.of_nat (S j))
    (raster_of [[Fin 5; Fin 6; Fin 7]]) (raster_of [[Fin 1; Fin 2; Fin 3]]).

(** ** The modified noise map *)

(** [out] is [base] scaled and balanced subswath by subswath with the
    coefficients that the store [dp] gives for the object: a pixel of
    subswath [iSW] holds [base * k + b], a pixel of no subswath holds
    [base]. *)
Definition scaled_and_balanced (self : Sentinel1Image) (dp : denoParams_t) (swi : indexmap)
  (base out : raster) : Prop :=
  let key := format_1f (coefficientVersion self) in
  forall i j,
    (in_no_subswath self swi i j -> out i j = base i j)
    /\ forall iSW, iSW ∈ subswathRange (obsMode self) -> swi i j = N.of_nat iSW ->
         let ID := subswathID (obsMode self) iSW in
         out i j
         = fadd (fmul (base i j)
                   (versioned_or (dp_noiseScalingParameters dp) ID key (Fin 1)))
             (versioned_or (dp_powerBalancingParameters dp) ID key (Fin 0)).

(** ** The adaptive scaling *)

(** The extra-scaling dictionary of an IW product: the axis under ['SNR']
    and one constant curve per subswath. *)
Definition stored_curves : gmap string (list float64) :=
  list_to_map
    [("SNR", stored_axis);
     ("IW1", [Fin 1; Fin 1; Fin 1; Fin 1]);
     ("IW2", [Fin 2; Fin 2; Fin 2; Fin 2]);
     ("IW3", [Fin 3; Fin 3; Fin 3; Fin 3])].

(** [SNR] of [adaptiveNoiseScaling]:
    [10*np.log10(meanSigma0/meanNEsigma0 - 1)] on the window means. *)
Definition windowed_SNR (K : kernels) (self : Sentinel1Image) (windowSize : nat)
  (sigma0 noiseEquivalentSigma0 : raster) : raster :=
  fun i j =>
    fmul (Fin 10)
      (np_log10 K
         (fsub (fdiv (box_mean K windowSize (shape self) sigma0 i j)
                  (box_mean K windowSize (shape self) noiseEquivalentSigma0 i j))
            (Fin 1))).

(** ** Raw sigma nought *)

(** An IW product of one line of three pixels with digital numbers 0, 300
    and 65536 and a calibration of 2 everywhere, whose [rawSigma0Map] is the
    method of the class and whose noise is 1 everywhere. *)
Definition image_of_numbers : Sentinel1Image :=
  let parts raw :=
    {| filename := product_name IW;
       obsMode := IW;
       IPFversion := 29 # 10;
       shape := (1, 3)%nat;
       DN := fun _ =>
         Ok (fun _ j => match j with 0%nat => 0 | 1%nat => 300 | _ => 65536 end)%N;
       denoParams := fun _ => not_provided;
       import_swathBounds := fun _ => not_provided;
       import_calibrationVector := fun _ => not_provided;
       import_noiseVector := fun _ => not_provided;
       import_orbit := fun _ => not_provided;
       self_geolocationGridPointInterpolator := fun _ _ => not_provided;
       self_elevationAntennaPatternInterpolator := fun _ => not_provided;
       self_rangeSpreadingLossInterpolator := fun _ => not_provided;
       self_subswathIndexMap := fun _ => Ok (fun _ _ => 1%N);
       self_calibrationVectorMap := fun _ => Ok (fun _ _ => Fin 2);
       self_noiseVectorMap := fun _ _ => not_provided;
       self_scallopingGainMap := fun _ => not_provided;
       self_rawSigma0Map := raw;
       self_rawNoiseEquivalentSigma0Map := fun _ _ => Ok (fun _ _ => Fin 1);
       self_modifiedNoiseEquivalentSigma0Map := fun _ _ => Ok (fun _ _ => Fin 1) |} in
  parts (rawSigma0Map (parts (fun _ => not_provided))).

(** ** The land mask *)

(** The positions that [::step] selects on an axis of length [n], for a
    step of at least one: 0, [step], [2*step], ... below [n]. *)
Definition every (step n : nat) : list nat :=
  filter (fun k => (k mod step =? 0)%nat = true) (seq 0 n).

(** [max([ y for y in range(1,numberOfGCPs//21)
           if ((numberOfGCPs//21 -1) % y == 0) and y <= skipGCP ])] *)
Definition skipRowGCP (numberOfGCPs : nat) (skipGCP : Z) : result Z :=
  let rows := (Z.of_nat numberOfGCPs / 21)%Z in
  py_max (filter (fun y => ((rows - 1) mod y =? 0)%Z && (y <=? skipGCP)%Z = true)
            (arange 1 rows)).

(** [np.concatenate(index[::skipRowGCP,::skipGCP])] for
    [index = np.arange(0,numberOfGCPs).reshape(numberOfGCPs//21,21)]: the
    entry of row [r] and column [c] is [21*r + c]. *)
Definition sampledIndices (numberOfGCPs skipRow skip : nat) : list nat :=
  flat_map (fun r => map (fun c => (21 * r + c)%nat) (every skip 21))
    (every skipRow (numberOfGCPs / 21)).

(** The part of [landmask] up to [sampledGCPs]. *)
Definition sampledGCPs {GCP : Type} (originalGCPs : list GCP) (skipGCP : Z)
  : result (list GCP) :=
  if negb (existsb (Z.eqb skipGCP) [1; 2; 4; 5]%Z) then
    Raise (ValueError "skipGCP must be one of the following values: 1,2,4,5")
  else
    let numberOfGCPs := length originalGCPs in
    if negb (numberOfGCPs / 21 * 21 =? numberOfGCPs)%nat then
      Raise (ValueError "cannot reshape array into shape (numberOfGCPs//21,21)")
    else
      rbind (skipRowGCP numberOfGCPs skipGCP) (fun skipRow =>
      map_result (fun i => list_getitem originalGCPs (Z.of_nat i))
        (sampledIndices numberOfGCPs (Z.to_nat skipRow) (Z.to_nat skipGCP))).

(** [landmask(skipGCP)] on a dataset holding the ground control points
    [dataset]: the points the dataset holds afterwards, and the mask or the
    exception.  [watermask gcps] stands for [self.watermask(tps=True)[1]]
    while the dataset holds [gcps]. *)
Definition landmask {GCP : Type} (watermask : list GCP -> result (nat -> nat -> Z))
  (dataset : list GCP) (skipGCP : Z) : list GCP * result (nat -> nat -> bool) :=
  let originalGCPs := dataset in
  match sampledGCPs originalGCPs skipGCP with
  | Raise e => (dataset, Raise e)
  | Ok sampled =>
      match watermask sampled with
      | Raise e => (sampled, Raise e)
      | Ok mask => (originalGCPs, Ok (fun i j => (mask i j =? 2)%Z))
      end
  end.

(** A grid of [rows] rows of 21 ground control points, numbered in order. *)
Definition numbered_GCPs (rows : nat) : list nat := seq 0 (21 * rows).

(** ** Exceptions of the further methods *)

(** The exceptions of the methods above and the built-in ones that only the
    methods below raise. *)
Inductive raised : Type :=
| Exn (e : exn)
| OverflowError (msg : string)
| ZeroDivisionError (msg : string)
| AttributeError (msg : string).

Inductive outcome (A : Type) : Type :=
| Done (a : A)
| Fails (e : raised).
Arguments Done {A} a.
Arguments Fails {A} e.

Definition obind {A B : Type} (m : outcome A) (k : A -> outcome B) : outcome B :=
  match m with
  | Done a => k a
  | Fails e => Fails e
  end.

Declare Scope outcome_scope.
Delimit Scope outcome_scope with outcome.
Notation "x <- m ;; k" := (obind m (fun x => k))
  (at level 100, m at next level, right associativity) : outcome_scope.

Definition lift {A : Type} (r : result A) : outcome A :=
  match r with
  | Ok a => Done a
  | Raise e => Fails (Exn e)
  end.

Definition returns {A : Type} (m : outcome A) : bool :=
  match m with Done _ => true | Fails _ => false end.

(** [for x in xs: acc = body(acc, x)], stopping at the first exception. *)
Fixpoint each {A S : Type} (xs : list A) (body : S -> A -> outcome S) (s : S) : outcome S :=
  match xs with
  | [] => Done s
  | x :: rest => obind (body s x) (each rest body)
  end.

(** [[f(x) for x in xs]] *)
Fixpoint collect {A B : Type} (f : A -> outcome B) (xs : list A) : outcome (list B) :=
  match xs with
  | [] => Done []
  | x :: rest => obind (f x) (fun y => obind (collect f rest) (fun ys => Done (y :: ys)))
  end.

(** [int(round(x))] on a float: half to even; NaN and the infinities have
    no integer. *)
Definition int_round (x : float64) : outcome Z :=
  match x with
  | Fin q => Done (round_half_even q)
  | NaN => Fails (Exn (ValueError "cannot convert float NaN to integer"))
  | _ => Fails (OverflowError "cannot convert float infinity to integer")
  end.

(** ** The centre sample of the subswaths *)

Section CenterSample.
Local Open Scope outcome_scope.

(** [np.sum(midPixelIndices * numberOfLines) / np.sum(numberOfLines)] for
    the rectangles of one subswath. *)
Definition weightedCenter (swathBound : list swathBound) : float64 :=
  let numberOfLines :=
    map (fun b => (lastAzimuthLine b - firstAzimuthLine b + 1)%Z) swathBound in
  let midPixelIndices :=
    map (fun b => fdiv (of_Z (firstRangeSample b + lastRangeSample b)) (Fin 2)) swathBound in
  fdiv (np_sum (zip_with (fun m n => fmul m (of_Z n)) midPixelIndices numberOfLines))
       (of_Z (foldr Z.add 0%Z numberOfLines)).

(** [subswathCenterSampleIndex(polarization)] *)
Definition subswathCenterSampleIndex (self : Sentinel1Image) (pol : polarization)
  : outcome (gmap string Z) :=
  swathBounds <- lift (import_swathBounds self pol) ;;
  each (subswathRange (obsMode self))
    (fun (d : gmap string Z) iSW =>
       let subswathID := subswathID (obsMode self) iSW in
       c <- int_round (weightedCenter (swathBounds iSW)) ;;
       Done (<[subswathID := c]> d))
    ∅.

End CenterSample.

(** ** Values of the annotation documents *)

(** A node of an [xml.dom.minidom] tree: an element with its tag and its
    child nodes, or character data (a text, a CDATA section, a comment)
    with its string.  A document is an element too: [getElementsByTagName]
    never tests the node it is called on. *)
#[warnings="-register-all"] Inductive node : Type :=
| Element (tagName : string) (childNodes : list node)
| CharacterData (data : string).

(** [node.childNodes] *)
Definition childNodes_of (n : node) : list node :=
  match n with
  | Element _ childNodes => childNodes
  | CharacterData _ => []
  end.

(** [node.nodeValue]: [None] on an element. *)
Definition nodeValue (n : node) : option string :=
  match n with
  | Element _ _ => None
  | CharacterData data => Some data
  end.

(** The test of [getElementsByTagName] on one node. *)
Definition has_tag (name : string) (n : node) : bool :=
  match n with
  | Element tagName _ => String.eqb name "*" || String.eqb tagName name
  | CharacterData _ => false
  end.

(** [parent.getElementsByTagName(name)]: the descendants that are elements
    of the tag, in document order. *)
Fixpoint getElementsByTagName (parent : node) (name : string) : list node :=
  match parent with
  | Element _ childNodes =>
      flat_map (fun n => (if has_tag name n then [n] else []) ++ getElementsByTagName n name)
        childNodes
  | CharacterData _ => []
  end.

(** [get_DOM_subElement(element, tags)] *)
Definition get_DOM_subElement (element : node) (tags : list string) : outcome node :=
  each tags
    (fun element tag => lift (list_getitem (getElementsByTagName element tag) 0))
    element.

(** The white space of [str.split()], on characters below 256: the code
    points 9 to 13, 28 to 32, 133 and 160. *)
Definition is_space (c : Ascii.ascii) : bool :=
  let n := Ascii.nat_of_ascii c in
  ((9 <=? n) && (n <=? 13) || (28 <=? n) && (n <=? 32) || (n =? 133) || (n =? 160))%nat.

(** [text.split()]: the maximal runs of characters that are not white
    space; [word] is the run being read. *)
Fixpoint split_from (word : string) (text : string) : list string :=
  match text with
  | EmptyString => if String.eqb word "" then [] else [word]
  | String c rest =>
      if is_space c then
        if String.eqb word "" then split_from "" rest else word :: split_from "" rest
      else split_from (word +:+ String c "") rest
  end.

Definition py_split (text : string) : list string := split_from "" text.

(** What [get_DOM_nodeValue] returns: one value when the node holds one
    word, the list of the values otherwise. *)
Inductive nodeValues : Type :=
| Scalar (v : pyval)
| Several (vs : list pyval).

Section NodeValue.
Local Open Scope outcome_scope.

(** What [float(v)] parses, for the words it accepts. *)
Variable float_of_str : string -> option float64.

(** [float(v)] *)
Definition py_float (v : string) : outcome float64 :=
  match float_of_str v with
  | Some x => Done x
  | None => Fails (Exn (ValueError "could not convert string to float"))
  end.

(** [get_DOM_nodeValue(element, tags, oType)] *)
Definition get_DOM_nodeValue (element : node) (tags : list string) (oType : string)
  : outcome nodeValues :=
  if negb (existsb (String.eqb oType) ["str"; "int"; "float"]) then
    Fails (Exn (ValueError "see error message."))
  else
    sub <- get_DOM_subElement element tags ;;
    first <- lift (list_getitem (childNodes_of sub) 0) ;;
    text <- match nodeValue first with
            | Some data => Done data
            | None => Fails (AttributeError "'NoneType' object has no attribute 'split'")
            end ;;
    value <-
      (if String.eqb oType "str" then Done (map PyStr (py_split text))
       else if String.eqb oType "int" then
         collect (fun v => x <- py_float v ;; n <- int_round x ;; Done (PyInt n))
           (py_split text)
       else
         collect (fun v => x <- py_float v ;; Done (PyFloat x)) (py_split text)) ;;
    Done (match value with
          | [v] => Scalar v
          | _ => Several value
          end).

(** ** The length of the focused bursts *)

(** [{'IW':1450, 'EW':1100}[self.obsMode]] *)
Definition nominalLinesPerBurst (m : obsMode_t) : Z :=
  match m with IW => 1450 | EW => 1100 end.

(** [max([ primeNumber
           for primeNumber in range(1,numberOfInputLines//nominalLinesPerBurst+1)
           if (numberOfInputLines % primeNumber)==0 ])] *)
Definition numberOfBursts (nominal numberOfInputLines : Z) : result Z :=
  py_max (filter (fun primeNumber => (numberOfInputLines mod primeNumber =? 0)%Z = true)
            (arange 1 (numberOfInputLines / nominal + 1))).

(** [focusedBurstLengthInTime(polarization)], on the annotation document of
    the polarization. *)
Definition focusedBurstLengthInTime (self : Sentinel1Image) (annotationXML : node)
  : outcome (gmap string float64) :=
  azimuthFrequency <- get_DOM_nodeValue annotationXML ["azimuthFrequency"] "float" ;;
  azimuthTimeIntevalInSLC <-
    match azimuthFrequency with
    | Scalar (PyFloat x) =>
        if feqb x (Fin 0) then Fails (ZeroDivisionError "float division by zero")
        else Done (fdiv (Fin 1) x)
    | _ => Fails (Exn (TypeError "unsupported operand type(s) for /: 'float' and 'list'"))
    end ;;
  let inputDimensionsList := getElementsByTagName annotationXML "inputDimensions" in
  let nominalLinesPerBurst := nominalLinesPerBurst (obsMode self) in
  each inputDimensionsList
    (fun (d : gmap string float64) iList =>
       swath <- get_DOM_nodeValue iList ["swath"] "str" ;;
       lines <- get_DOM_nodeValue iList ["numberOfInputLines"] "int" ;;
       numberOfInputLines <-
         match lines with
         | Scalar (PyInt n) => Done n
         | _ => Fails (Exn (TypeError "unsupported operand type(s) for //: 'list' and 'int'"))
         end ;;
       numberOfBursts <- lift (numberOfBursts nominalLinesPerBurst numberOfInputLines) ;;
       if (numberOfInputLines mod numberOfBursts =? 0)%Z then
         let length :=
           fmul (fdiv (of_Z numberOfInputLines) (of_Z numberOfBursts))
             azimuthTimeIntevalInSLC in
         match swath with
         | Scalar (PyStr s) => Done (<[s := length]> d)
         | _ => Fails (Exn (TypeError "unhashable type: 'list'"))
         end
       else Fails (Exn (ValueError "number of bursts cannot be determined.")))
    ∅.

End NodeValue.

(** [float(v)] on the words made of decimal digits only. *)
Definition digit_value (c : Ascii.ascii) : option Z :=
  let n := Ascii.nat_of_ascii c in
  if ((48 <=? n) && (n <=? 57))%nat then Some (Z.of_nat n - 48)%Z else None.

Fixpoint digits_from (acc : Z) (s : string) : option Z :=
  match s with
  | EmptyString => Some acc
  | String c rest =>
      match digit_value c with
      | Some d => digits_from (10 * acc + d) rest
      | None => None
      end
  end.

Definition float_of_digits (s : string) : option float64 :=
  match s with
  | EmptyString => None
  | _ => option_map of_Z (digits_from 0 s)
  end.

(** An annotation document of two swaths. *)
Definition annotation_of (lines1 lines2 : string) : node :=
  Element "product"
    [Element "imageAnnotation"
       [Element "imageInformation"
          [Element "azimuthFrequency" [CharacterData "2"]]];
     Element "inputDimensionsList"
       [Element "inputDimensions"
          [Element "swath" [CharacterData "IW1"];
           Element "numberOfInputLines" [CharacterData lines1]];
        Element "inputDimensions"
          [Element "swath" [CharacterData "IW2"];
           Element "numberOfInputLines" [CharacterData lines2]]]].

(** The swath name and the number of input lines that [get_DOM_nodeValue]
    reads in an element (an empty name and no line when it reads neither). *)
Definition swath_read (iList : node) : string :=
  match get_DOM_nodeValue float_of_digits iList ["swath"] "str" with
  | Done (Scalar (PyStr s)) => s
  | _ => ""
  end.

Definition lines_read (iList : node) : Z :=
  match get_DOM_nodeValue float_of_digits iList ["numberOfInputLines"] "int" with
  | Done (Scalar (PyInt n)) => n
  | _ => 0
  end.

(** The entry of a returned dictionary (NaN when there is none). *)
Definition entry_of (r : outcome (gmap string float64)) (key : string) : float64 :=
  match r with
  | Done d => default NaN (d !! key)
  | Fails _ => NaN
  end.

(** ** Words of a text *)

(** The string has no white space. *)
Fixpoint spaceless (s : string) : bool :=
  match s with
  | EmptyString => true
  | String c rest => negb (is_space c) && spaceless rest
  end.

(** The string is made of white space only. *)
Fixpoint blank (s : string) : bool :=
  match s with
  | EmptyString => true
  | String c rest => is_space c && blank rest
  end.

(** A word: at least one character, none of them white space. *)
Definition is_word (w : string) : Prop := w <> "" /\ spaceless w = true.

(** What [get_DOM_nodeValue] hands back for the values read. *)
Definition handed_back (values : list pyval) : nodeValues :=
  match values with
  | [v] => Scalar v
  | _ => Several values
  end.

(** An element with one child element that holds the given text. *)
Definition element_with (tag text : string) : node :=
  Element "noiseAzimuthVector" [Element tag [CharacterData text]].

(** ** Noise vectors of the calibration and validation class *)

Section NoiseVectors.
Local Open Scope result_scope.

(** [np.where(mask)[0]] for the mask that [P] gives on an array. *)
Definition np_where {A : Type} (P : A -> bool) (xs : list A) : list nat :=
  filter (fun k => match xs !! k with Some x => P x | None => false end = true)
    (seq 0 (length xs)).

(** [a[idx] = vals] for an index array and as many values. *)
Definition assign (a : list float64) (idx : list nat) (vals : list float64) : list float64 :=
  foldl (fun r p => <[fst p := snd p]> r) a (combine idx vals).

(** [a[idx]] for an index array. *)
Definition at_indices (a : list float64) (idx : list nat) : result (list float64) :=
  map_result (fun k => list_getitem a (Z.of_nat k)) idx.

(** [get_noise_range_vectors(polarization)]: the lines, and for each record
    the pixels and the values of the samples whose noise is positive. *)
Definition get_noise_range_vectors (self : Sentinel1Image) (pol : polarization)
  : result (list Z * list (list Z) * list (list float64)) :=
  noiseVector <- import_noiseVector self pol ;;
  let noiseRangeVector := fst noiseVector in
  let nrv_line := map sr_line noiseRangeVector in
  let gpi (r : sparseRecord) := np_where (fun p => fgtb (snd p) (Fin 0)) (sr_samples r) in
  let nrv_noise :=
    map (fun r => map (fun k => default NaN (map snd (sr_samples r) !! k)) (gpi r))
      noiseRangeVector in
  let nrv_pixel :=
    map (fun r => map (fun k => default 0%Z (map fst (sr_samples r) !! k)) (gpi r))
      noiseRangeVector in
  Ok (nrv_line, nrv_pixel, nrv_noise).

(** The two statements of the innermost loop of [get_corrected_nesz_vectors]
    on the row [v1]:
    [nrv_nesz_corrected[v1][valid2] = nesz[v1][valid2] * ns[swath_name]] and,
    under [add_pb], [nrv_nesz_corrected[v1][valid2] += pb[swath_name]]. *)
Definition corrected_row (ns pb : gmap string float64) (add_pb : bool) (swath_name : string)
  (valid2 : list nat) (nesz_row out_row : list float64) : result (list float64) :=
  vals <- at_indices nesz_row valid2 ;;
  k <- py_getitem ns swath_name ;;
  let out1 := assign out_row valid2 (map (fun x => fmul x k) vals) in
  if add_pb then
    cur <- at_indices out1 valid2 ;;
    b <- py_getitem pb swath_name ;;
    Ok (assign out1 valid2 (map (fun x => fadd x b) cur))
  else Ok out1.

(** [get_corrected_nesz_vectors(polarization, nrv_line, nrv_pixel, nesz,
    add_pb)]; [swath_ids] is [self.swath_ids]. *)
Definition get_corrected_nesz_vectors (self : Sentinel1Image) (swath_ids : list nat)
  (pol : polarization) (nrv_line : list Z) (nrv_pixel : list (list Z))
  (nesz : list (list float64)) (add_pb : bool) : result (list (list float64)) :=
  let nrv_nesz_corrected := map (fun p => replicate (length p) NaN) nrv_pixel in
  swathBounds <- import_swathBounds self pol ;;
  coef <- import_denoisingCoefficients self pol ;;
  let ns := noiseScalingParameters coef in
  let pb := powerBalancingParameters coef in
  for_each swath_ids
    (fun acc swid =>
       let swath_name := subswathID (obsMode self) swid in
       for_each (swathBounds swid)
         (fun acc b =>
            let valid1 :=
              np_where (fun y => (firstAzimuthLine b <=? y)%Z && (y <=? lastAzimuthLine b)%Z)
                nrv_line in
            for_each valid1
              (fun acc v1 =>
                 pixel_row <- list_getitem nrv_pixel (Z.of_nat v1) ;;
                 let valid2 :=
                   np_where (fun p => (firstRangeSample b <=? p)%Z
                                      && (p <=? lastRangeSample b)%Z) pixel_row in
                 nesz_row <- list_getitem nesz (Z.of_nat v1) ;;
                 out_row <- list_getitem acc (Z.of_nat v1) ;;
                 new_row <- corrected_row ns pb add_pb swath_name valid2 nesz_row out_row ;;
                 Ok (<[v1 := new_row]> acc))
              acc)
         acc)
    nrv_nesz_corrected.

End NoiseVectors.

(** The sample [(line, pixel)] lies in the rectangle. *)
Definition rectangle_holds (b : swathBound) (line pixel : Z) : bool :=
  (firstAzimuthLine b <=? line)%Z && (line <=? lastAzimuthLine b)%Z
  && (firstRangeSample b <=? pixel)%Z && (pixel <=? lastRangeSample b)%Z.

(** One of the rectangles of the subswath holds the sample. *)
Definition subswath_holds (bounds : nat -> list swathBound) (swid : nat) (line pixel : Z)
  : bool :=
  existsb (fun b => rectangle_holds b line pixel) (bounds swid).

(** The value that the pass of subswath [swid] gives a sample of noise
    [x]: scaled and, under [add_pb], balanced. *)
Definition corrected_value (ns pb : gmap string float64) (add_pb : bool) (mode : obsMode_t)
  (swid : nat) (x : float64) : float64 :=
  let k := default NaN (ns !! subswathID mode swid) in
  let b := default NaN (pb !! subswathID mode swid) in
  if add_pb then fadd (fmul x k) b else fmul x k.

(** The effect of the pass of one rectangle on the rows of corrected
    noise: the samples that the rectangle holds get the corrected value of
    the input noise, the others keep what they have. *)
Definition paint_rectangle (corr : nat -> float64 -> float64) (nrv_line : list Z)
  (nrv_pixel : list (list Z)) (nesz : list (list float64)) (pass : nat * swathBound)
  (acc : list (list float64)) : list (list float64) :=
  imap (fun v row =>
          imap (fun k old =>
                  match nrv_line !! v, nrv_pixel !! v ≫= (.!! k), nesz !! v ≫= (.!! k) with
                  | Some line, Some p, Some x =>
                      if rectangle_holds (snd pass) line p then corr (fst pass) x else old
                  | _, _, _ => old
                  end) row) acc.

(** The sample [k] of the row [v] of a list of rows. *)
Definition sample_of {A : Type} (rows : list (list A)) (v k : nat) : option A :=
  rows !! v ≫= (.!! k).

(** The rows have the lengths of the rows of pixels. *)
Definition shaped (nrv_pixel : list (list Z)) (acc : list (list float64)) : Prop :=
  length acc = length nrv_pixel
  /\ forall v row p, acc !! v = Some row -> nrv_pixel !! v = Some p -> length row = length p.

(** An IW product of IPF 2.9 with the swath bounds of the image of 3 lines
    by 12 pixels and the stored coefficients. *)
Definition image_with_bounds_and_store : Sentinel1Image :=
  image_with IW (29 # 10) (3, 12)%nat (Ok stored_coefficients) (Ok c7_bounds) not_provided
    not_provided not_provided not_provided not_provided not_provided not_provided
    not_provided not_provided.

(** ** The product behind a file name *)

(** The product types that [__init__] accepts. *)
Definition accepted_prefixes : list string :=
  ["S1A_IW_GRDH_1SDH"; "S1A_IW_GRDH_1SDV"; "S1B_IW_GRDH_1SDH"; "S1B_IW_GRDH_1SDV";
   "S1A_EW_GRDM_1SDH"; "S1A_EW_GRDM_1SDV"; "S1B_EW_GRDM_1SDH"; "S1B_EW_GRDM_1SDV"].

(** What [__init__] reads off the file name, after the test of the product
    type: [self.platform], [self.obsMode], [txPol] and the two
    polarizations [[txPol + 'H', txPol + 'V']]. *)
Record nameAttributes : Type := {
  na_platform : string;
  na_obsMode : string;
  na_txPol : string;
  na_polarizations : list string
}.

Definition attributes_of_filename (filename : string) : result nameAttributes :=
  let name := last_component "" filename in
  if negb (existsb (String.eqb (substring 0 16 name)) accepted_prefixes) then
    Raise (ValueError
             "Source file must be Sentinel-1A/1B IW_GRDH_1SDH, IW_GRDH_1SDV, EW_GRDM_1SDH, or EW_GRDM_1SDV product.")
  else
    match get 15 name with
    | None => Raise (IndexError "string index out of range")
    | Some c =>
        let txPol := String c "" in
        Ok {| na_platform := substring 0 3 name;
              na_obsMode := substring 4 2 name;
              na_txPol := txPol;
              na_polarizations := [txPol +:+ "H"; txPol +:+ "V"] |}
    end.

(** ** The refinement of the elevation angle *)

(** [depressionAngle, status, nIter] of the loop of
    [refinedElevationAngleInterpolator]. *)
Record refineState : Type := {
  depressionAngle : float64;
  status : bool;
  nIter : nat
}.

(** [depressionAngle = 45.], [nIter = 0], [status = False] *)
Definition refine_init : refineState :=
  {| depressionAngle := Fin 45; status := false; nIter := 0 |}.

(** [not (status or (nIter >= maxIter))] with [maxIter = 100] *)
Definition refine_continues (st : refineState) : bool :=
  negb (status st || (100 <=? nIter st)%nat).

(** The loop body; [err angle] stands for
    [range_to_target(positionVector,
       planar_rotation(rotationAxis, lookVector, angle)) - slantRangeDistance],
    [angleStep] is 1e-3 and [distanceThreshold] 1e-2. *)
Definition refine_step (err : float64 -> float64) (st : refineState) : refineState :=
  let angleStep := Fin (1 # 1000) in
  let err1 := err (depressionAngle st) in
  let err2 := err (fadd (depressionAngle st) angleStep) in
  {| depressionAngle :=
       fadd (depressionAngle st) (fdiv err1 (fdiv (fsub err1 err2) angleStep));
     status := fltb (fabs err1) (Fin (1 # 100));
     nIter := S (nIter st) |}.

(** The [while] loop of the refinement and the angle appended:
    [90. - depressionAngle]. *)
Definition refinedElevationAngle (fuel : nat) (err : float64 -> float64)
  : option (result float64) :=
  match py_while fuel refine_continues (fun st => Ok (refine_step err st)) refine_init with
  | Some (Ok st) => Some (Ok (fsub (Fin 90) (depressionAngle st)))
  | Some (Raise e) => Some (Raise e)
  | None => None
  end.

(** An IW product of 3 lines by 14 pixels whose subswaths cover the pixels
    0 to 11 of every line, with a calibration of 1 and a raw sigma nought of
    4 everywhere; the index map, the noise vector map and the raw
    noise-equivalent sigma nought are the methods of the class. *)
Definition image_wider_than_swaths : Sentinel1Image :=
  let table := [c7_record 0 (Fin 1); c7_record 1 (Fin 1); c7_record 2 (Fin 1)] in
  let parts swi noisemap nesz :=
    image_with IW (29 # 10) (3, 14)%nat not_provided (Ok c7_bounds) (Ok table)
      (Ok (table, fun _ => [c7_block])) not_provided swi (Ok (fun _ _ => Fin 1))
      noisemap (Ok (fun _ _ => Fin 4)) nesz not_provided in
  let swi := subswathIndexMap (parts not_provided not_provided not_provided) HV in
  let noisemap :=
    noiseVectorMap trial_kernels (parts swi not_provided not_provided) HV false in
  let nesz :=
    rawNoiseEquivalentSigma0Map trial_kernels (parts swi noisemap not_provided) HV false in
  parts swi noisemap nesz.

Definition index_map_of (self : Sentinel1Image) : indexmap :=
  match self_subswathIndexMap self HV with
  | Ok swi => swi
  | Raise _ => fun _ _ => 0%N
  end.

(** * Properties *)

(** ** Arithmetic of the value domain *)

Lemma Qlt_bool_iff (x y : Q) : Qlt_bool x y = true <-> (x < y)%Q.
Proof.
  unfold Qlt_bool. rewrite negb_true_iff. split; intros H.
  - apply Qnot_le_lt. intros Hle. apply Qle_bool_iff in Hle. congruence.
  - destruct (Qle_bool y x) eqn:E; [|reflexivity].
    apply Qle_bool_iff in E. exfalso. exact (Qlt_not_le _ _ H E).
Qed.

Lemma Qlt_bool_false_iff (x y : Q) : Qlt_bool x y = false <-> (y <= x)%Q.
Proof.
  unfold Qlt_bool. rewrite negb_false_iff. apply Qle_bool_iff.
Qed.

Lemma same_refl (a : float64) : same a a.
Proof. destruct a; simpl; auto. reflexivity. Qed.

Lemma same_sym (a b : float64) : same a b -> same b a.
Proof. destruct a, b; simpl; auto. intros H; symmetry; exact H. Qed.

Lemma same_trans (a b c : float64) : same a b -> same b c -> same a c.
Proof.
  destruct a, b, c; simpl; auto; try contradiction.
  intros H1 H2. rewrite H1. exact H2.
Qed.

Lemma sameb_same (a b : float64) : sameb a b = true <-> same a b.
Proof.
  destruct a, b; simpl; try apply Qeq_bool_iff;
    split; intros H; try discriminate; try contradiction; auto.
Qed.

(** ** The calls made by [thermalNoiseRemoval] *)

(** With valid arguments and slots that return, the method makes its three
    calls and returns the post-filtered noise subtraction. *)
Lemma thermalNoiseRemoval_returns self pol algorithm lnpc (ptp : bool) returnNESZ log
    swi raw noise :
  is_variant algorithm ->
  self_subswathIndexMap self pol = Ok swi ->
  self_rawSigma0Map self pol = Ok raw ->
  noise_slot self pol algorithm lnpc = Ok noise ->
  thermalNoiseRemoval self pol (PyStr algorithm) lnpc (PyBool ptp) returnNESZ log =
    (log ++ [Called_subswathIndexMap pol] ++ [Called_rawSigma0Map pol]
         ++ [noise_call pol algorithm lnpc],
     Ok (let sigma0 :=
           postFilter (PyStr algorithm) raw (noiseSubtraction (shape self) ptp raw noise) in
         if returnNESZ then NESZ_Sigma0 noise sigma0 else Sigma0 sigma0)).
Proof.
  intros Hv Hswi Hraw Hnoise.
  unfold thermalNoiseRemoval, noise_slot, noise_call, mbind, invoke, mreturn in *.
  destruct Hv as [-> | ->]; simpl in *; rewrite Hswi, Hraw, Hnoise; simpl;
    rewrite <- !app_assoc; reflexivity.
Qed.

(** ** Argument validation (C10) *)

Lemma py_in_strs_variants (algorithm : pyval) :
  py_in_strs algorithm ["ESA"; "NERSC"] = true <-> valid_algorithm algorithm.
Proof.
  unfold py_in_strs, valid_algorithm, py_eq_str. simpl.
  destruct algorithm as [| b | z | x | s]; simpl;
    try (split; [discriminate | intros [H | H]; discriminate]).
  rewrite orb_false_r, orb_true_iff, !String.eqb_eq.
  split; intros [H | H]; (left + right); congruence.
Qed.

Lemma isinstance_bool_iff (v : pyval) : isinstance_bool v = true <-> is_bool v.
Proof.
  unfold is_bool. destruct v; simpl; split;
    try discriminate; try (intros [b Hb]; discriminate); eauto.
Qed.

(** C10.  A call of [thermalNoiseRemoval] whose [algorithm] is neither
    ['ESA'] nor ['NERSC'], or whose [preserveTotalPower] is not a [bool],
    raises [ValueError] with the log of calls on the object unchanged: no
    raster method has been invoked.  With valid arguments the validation
    passes: the first raster method is invoked, and an exception of the
    call, if any, is one raised by an invoked raster method. *)
Theorem thermalNoiseRemoval_validates_arguments
    self pol algorithm lnpc preserveTotalPower returnNESZ log :
  (~ valid_algorithm algorithm \/ ~ is_bool preserveTotalPower ->
   exists msg,
     thermalNoiseRemoval self pol algorithm lnpc preserveTotalPower returnNESZ log
     = (log, Raise (ValueError msg)))
  /\
  (valid_algorithm algorithm -> is_bool preserveTotalPower ->
   let out := thermalNoiseRemoval self pol algorithm lnpc preserveTotalPower returnNESZ log in
   (exists calls, fst out = log ++ Called_subswathIndexMap pol :: calls)
   /\ forall e, snd out = Raise e ->
        self_subswathIndexMap self pol = Raise e
        \/ self_rawSigma0Map self pol = Raise e
        \/ self_rawNoiseEquivalentSigma0Map self pol false = Raise e
        \/ self_modifiedNoiseEquivalentSigma0Map self pol lnpc = Raise e).
Proof.
  split.
  - intros Hbad. unfold thermalNoiseRemoval.
    destruct (py_in_strs algorithm ["ESA"; "NERSC"]) eqn:Ealg; simpl.
    + apply py_in_strs_variants in Ealg.
      destruct (isinstance_bool preserveTotalPower) eqn:Eb; simpl.
      * apply isinstance_bool_iff in Eb. tauto.
      * eexists. reflexivity.
    + eexists. reflexivity.
  - intros Halg [b ->]. apply py_in_strs_variants in Halg as Hin.
    unfold thermalNoiseRemoval. rewrite Hin. simpl.
    unfold mbind, invoke, mreturn, mraise.
    destruct (self_subswathIndexMap self pol) as [swi | e0] eqn:Hswi.
    2:{ split; [exists []; reflexivity | intros e [= ->]; auto]. }
    destruct (self_rawSigma0Map self pol) as [raw | e1] eqn:Hraw.
    2:{ split; [eexists; simpl; rewrite <- app_assoc; reflexivity
               | intros e [= ->]; auto]. }
    destruct Halg as [-> | ->]; simpl.
    + destruct (self_rawNoiseEquivalentSigma0Map self pol false) as [n | e2] eqn:Hn;
        (split; [eexists; simpl; rewrite <- !app_assoc; reflexivity |]).
      * intros e; simpl; discriminate.
      * intros e [= ->]; auto.
    + destruct (self_modifiedNoiseEquivalentSigma0Map self pol lnpc) as [n | e2] eqn:Hn;
        (split; [eexists; simpl; rewrite <- !app_assoc; reflexivity |]).
      * intros e; simpl; discriminate.
      * intros e [= ->]; auto.
Qed.

Lemma thermalNoiseRemoval_validates_arguments_witness :
  (exists msg,
     thermalNoiseRemoval demo_image HV (PyStr "SNAP") false (PyBool true) false []
     = ([], Raise (ValueError msg)))
  /\ (exists msg,
        thermalNoiseRemoval demo_image HV (PyStr "ESA") false (PyInt 1) false []
        = ([], Raise (ValueError msg)))
  /\ (exists calls,
        fst (thermalNoiseRemoval demo_image HV (PyStr "NERSC") false (PyBool false) false [])
        = [] ++ Called_subswathIndexMap HV :: calls).
Proof.
  split; [| split].
  - apply (proj1 (thermalNoiseRemoval_validates_arguments
                    demo_image HV (PyStr "SNAP") false (PyBool true) false [])).
    left. intros [H | H]; discriminate.
  - apply (proj1 (thermalNoiseRemoval_validates_arguments
                    demo_image HV (PyStr "ESA") false (PyInt 1) false [])).
    right. intros [b H]; discriminate.
  - apply (proj2 (thermalNoiseRemoval_validates_arguments
                    demo_image HV (PyStr "NERSC") false (PyBool false) false [])).
    + right; reflexivity.
    + exists false; reflexivity.
Defined.

(** ** The post-filter (C1) *)

(** C1.  For every polarization and every raw raster, with the rasters the
    raster methods return, [thermalNoiseRemoval] post-filters the
    noise-subtracted raster by variant.  With ['ESA'] every pixel whose
    noise-subtracted value is negative is returned as zero and every other
    pixel is returned as it is.  With ['NERSC'] every pixel whose raw
    sigma0 is zero or below 1e-4 is returned as NaN and every other pixel
    keeps its noise-subtracted value, negative values included: nothing is
    clipped. *)
Theorem thermalNoiseRemoval_postfilter
    self pol lnpc (preserveTotalPower : bool) returnNESZ log swi raw noise :
  self_subswathIndexMap self pol = Ok swi ->
  self_rawSigma0Map self pol = Ok raw ->
  (self_rawNoiseEquivalentSigma0Map self pol false = Ok noise ->
   exists d,
     snd (thermalNoiseRemoval self pol (PyStr "ESA") lnpc (PyBool preserveTotalPower)
            returnNESZ log) = Ok d
     /\ forall i j,
          let s := noiseSubtraction (shape self) preserveTotalPower raw noise i j in
          (fltb s (Fin 0) = true -> sigma0_of d i j = Fin 0)
          /\ (fltb s (Fin 0) = false -> sigma0_of d i j = s))
  /\
  (self_modifiedNoiseEquivalentSigma0Map self pol lnpc = Ok noise ->
   exists d,
     snd (thermalNoiseRemoval self pol (PyStr "NERSC") lnpc (PyBool preserveTotalPower)
            returnNESZ log) = Ok d
     /\ forall i j,
          let s := noiseSubtraction (shape self) preserveTotalPower raw noise i j in
          (feqb (raw i j) (Fin 0) = true \/ fltb (raw i j) (Fin (1 # 10000)) = true ->
           sigma0_of d i j = NaN)
          /\ (feqb (raw i j) (Fin 0) = false -> fltb (raw i j) (Fin (1 # 10000)) = false ->
              sigma0_of d i j = s)).
Proof.
  intros Hswi Hraw. split; intros Hnoise.
  - rewrite (thermalNoiseRemoval_returns self pol "ESA" lnpc preserveTotalPower
               returnNESZ log swi raw noise); auto; [| left; reflexivity].
    eexists. split; [reflexivity |].
    intros i j s. subst s.
    destruct returnNESZ; cbn [snd sigma0_of]; unfold postFilter; simpl;
      (split; intros ->; reflexivity).
  - rewrite (thermalNoiseRemoval_returns self pol "NERSC" lnpc preserveTotalPower
               returnNESZ log swi raw noise); auto; [| right; reflexivity].
    eexists. split; [reflexivity |].
    intros i j s. subst s.
    destruct returnNESZ; cbn [snd sigma0_of]; unfold postFilter; simpl;
      (split; [intros [-> | ->]; [reflexivity | rewrite orb_true_r; reflexivity]
              | intros -> ->; reflexivity]).
Qed.

Lemma thermalNoiseRemoval_postfilter_witness :
  (exists d,
     snd (thermalNoiseRemoval demo_image HV (PyStr "ESA") false (PyBool false) false [])
     = Ok d
     /\ sigma0_of d 0%nat 0%nat = Fin 0)
  /\ (exists d,
        snd (thermalNoiseRemoval demo_image HV (PyStr "NERSC") false (PyBool false) false [])
        = Ok d
        /\ sigma0_of d 0%nat 0%nat = NaN
        /\ sigma0_of d 0%nat 1%nat = Fin (5 + - (7))).
Proof.
  pose proof (thermalNoiseRemoval_postfilter demo_image HV false false false []
                (fun _ _ => 1%N) (raster_of [[Fin 0; Fin 5]]) (raster_of [[Fin 1; Fin 3]])
                eq_refl eq_refl) as [Hesa _].
  pose proof (thermalNoiseRemoval_postfilter demo_image HV false false false []
                (fun _ _ => 1%N) (raster_of [[Fin 0; Fin 5]]) (raster_of [[Fin 2; Fin 7]])
                eq_refl eq_refl) as [_ Hnersc].
  split.
  - destruct (Hesa eq_refl) as [d [Hd Hpix]].
    exists d. split; [exact Hd |].
    apply (proj1 (Hpix 0%nat 0%nat)). reflexivity.
  - destruct (Hnersc eq_refl) as [d [Hd Hpix]].
    exists d. split; [exact Hd | split].
    + apply (proj1 (Hpix 0%nat 0%nat)). left. reflexivity.
    + apply (proj2 (Hpix 0%nat 1%nat)); reflexivity.
Defined.

(** ** The noise raster of the reference variant (C3) *)

(** The pre-scaling loop over subswaths that all have a calibration
    factor: it returns; a pixel of none of the subswaths keeps its value and
    a pixel of one of them is multiplied once, by the factor of its
    subswath. *)
Lemma prescale_loop mode swi (l : list nat) :
  NoDup l ->
  (forall iSW, iSW ∈ l -> succeeds (noiseCalibrationFactor mode iSW) = true) ->
  forall n0, exists n,
    for_each l (prescale_pass mode swi) n0 = Ok n
    /\ (forall i j, (forall iSW, iSW ∈ l -> swi i j <> N.of_nat iSW) -> n i j = n0 i j)
    /\ (forall i j iSW factor,
          iSW ∈ l -> noiseCalibrationFactor mode iSW = Ok factor ->
          swi i j = N.of_nat iSW ->
          n i j = fmul (n0 i j) (fmul (prescale_square mode) factor)).
Proof.
  induction l as [| a l IH]; intros Hnd Hok n0.
  - exists n0. split; [reflexivity | split; [reflexivity |]].
    intros i j iSW factor Hin. inversion Hin.
  - apply NoDup_cons in Hnd as [Ha Hnd].
    pose proof (Hok a ltac:(left)) as Hfa.
    destruct (noiseCalibrationFactor mode a) as [fa |] eqn:Efa; [| discriminate].
    set (n1 := fun i j => if N.eqb (swi i j) (N.of_nat a)
                          then fmul (n0 i j) (fmul (prescale_square mode) fa)
                          else n0 i j).
    destruct (IH Hnd (fun iSW Hin => Hok iSW ltac:(right; exact Hin)) n1)
      as [n [Hrun [Hout Hin]]].
    exists n. split; [| split].
    + cbn [for_each]. unfold prescale_pass at 1. rewrite Efa. cbn [rbind]. exact Hrun.
    + intros i j Hnone. rewrite Hout by (intros iSW Hl; apply Hnone; right; exact Hl).
      unfold n1. destruct (N.eqb_spec (swi i j) (N.of_nat a)) as [E | _]; [| reflexivity].
      exfalso. apply (Hnone a); [left | exact E].
    + intros i j iSW factor Helem Hf Hij.
      apply elem_of_cons in Helem as [-> | Helem].
      * rewrite Hout.
        -- unfold n1. rewrite Hij, N.eqb_refl. congruence.
        -- intros k Hk E. rewrite Hij in E. apply Nat2N.inj in E. subst k. contradiction.
      * rewrite (Hin i j iSW factor Helem Hf Hij). unfold n1.
        destruct (N.eqb_spec (swi i j) (N.of_nat a)) as [E | _]; [| reflexivity].
        exfalso. rewrite Hij in E. apply Nat2N.inj in E. subst a. contradiction.
Qed.

Lemma noiseCalibrationFactor_defined mode iSW :
  iSW ∈ subswathRange mode -> succeeds (noiseCalibrationFactor mode iSW) = true.
Proof.
  intros Hin. apply elem_of_seq in Hin.
  destruct mode; cbn [numberOfSubswaths] in Hin;
    do 6 (destruct iSW as [| iSW]; [first [lia | reflexivity] |]); lia.
Qed.

(** What the class's own [rawNoiseEquivalentSigma0Map] returns: the noise
    vector map of the requested [lutShift] divided by the squared
    calibration map and, under the low-value test only, multiplied in each
    subswath by the pre-scaling factor of the subswath. *)
Lemma rawNoiseEquivalentSigma0Map_returns K self pol lutShift swi noise cal :
  self_subswathIndexMap self pol = Ok swi ->
  self_noiseVectorMap self pol lutShift = Ok noise ->
  self_calibrationVectorMap self pol = Ok cal ->
  let base : raster := fun i j => fdiv (noise i j) (fmul (cal i j) (cal i j)) in
  let low :=
    fltb (fmul (Fin 10) (np_log10 K (np_nanmean (cells (shape self) base)))) (Fin (- (40))) in
  exists nesz,
    rawNoiseEquivalentSigma0Map K self pol lutShift = Ok nesz
    /\ (low = false -> forall i j, nesz i j = base i j)
    /\ (low = true -> forall i j,
          (in_no_subswath self swi i j -> nesz i j = base i j)
          /\ forall iSW factor,
               iSW ∈ subswathRange (obsMode self) ->
               noiseCalibrationFactor (obsMode self) iSW = Ok factor ->
               swi i j = N.of_nat iSW ->
               nesz i j = fmul (base i j) (fmul (prescale_square (obsMode self)) factor)).
Proof.
  intros Hswi Hn Hc base low. unfold rawNoiseEquivalentSigma0Map.
  rewrite Hn, Hc. cbn [rbind]. fold base. fold low.
  destruct low eqn:Elow.
  - rewrite Hswi. cbn [rbind].
    destruct (prescale_loop (obsMode self) swi (subswathRange (obsMode self))
                (NoDup_seq 1 _) (noiseCalibrationFactor_defined (obsMode self)) base)
      as [nesz [Hrun [Hout Hin]]].
    exists nesz. split; [exact Hrun | split; [discriminate |]].
    intros _ i j. split; [apply Hout | apply Hin].
  - exists base. split; [reflexivity | split; [reflexivity | discriminate]].
Qed.

(** C3, as amended.  For every polarization and both values of
    [returnNESZ], a call of [thermalNoiseRemoval] with [algorithm='ESA']
    asks the object for [rawNoiseEquivalentSigma0Map(polarization)],
    without LUT shift, and for no other noise raster; what this call
    returns is subtracted unchanged: every returned pixel is raw minus that
    raster (plus its mean under [preserveTotalPower]), clipped at zero, and
    the raster is the one handed back under [returnNESZ].  The modified
    noise raster (scalloping, coefficient scaling, balancing, adaptive
    scaling) is never asked for.  The raster subtracted is not the noise
    vector map itself: with [rawNoiseEquivalentSigma0Map] the method of the
    class it is the noise vector map reconstructed without LUT shift
    divided by the squared calibration vector map and, when ten times the
    decimal logarithm of the mean of that quotient is below -40, multiplied
    in each subswath by the pre-scaling factor of the subswath. *)
Theorem thermalNoiseRemoval_ESA_noise
    K self pol lnpc (preserveTotalPower : bool) returnNESZ log swi raw nesz :
  self_subswathIndexMap self pol = Ok swi ->
  self_rawSigma0Map self pol = Ok raw ->
  self_rawNoiseEquivalentSigma0Map self pol false = Ok nesz ->
  (exists sigma0 : raster,
     thermalNoiseRemoval self pol (PyStr "ESA") lnpc (PyBool preserveTotalPower)
       returnNESZ log
     = (log ++ [Called_subswathIndexMap pol; Called_rawSigma0Map pol;
                Called_rawNoiseEquivalentSigma0Map pol false],
        Ok (if returnNESZ then NESZ_Sigma0 nesz sigma0 else Sigma0 sigma0))
     /\ forall i j,
          let s :=
            if preserveTotalPower
            then fadd (fsub (raw i j) (nesz i j)) (np_nanmean (cells (shape self) nesz))
            else fsub (raw i j) (nesz i j) in
          sigma0 i j = if fltb s (Fin 0) then Fin 0 else s)
  /\ (forall noise cal,
        self_rawNoiseEquivalentSigma0Map self pol false
        = rawNoiseEquivalentSigma0Map K self pol false ->
        self_noiseVectorMap self pol false = Ok noise ->
        self_calibrationVectorMap self pol = Ok cal ->
        let base : raster := fun i j => fdiv (noise i j) (fmul (cal i j) (cal i j)) in
        let low :=
          fltb (fmul (Fin 10) (np_log10 K (np_nanmean (cells (shape self) base))))
            (Fin (- (40))) in
        (low = false -> forall i j, nesz i j = base i j)
        /\ (low = true -> forall i j,
              (in_no_subswath self swi i j -> nesz i j = base i j)
              /\ forall iSW factor,
                   iSW ∈ subswathRange (obsMode self) ->
                   noiseCalibrationFactor (obsMode self) iSW = Ok factor ->
                   swi i j = N.of_nat iSW ->
                   nesz i j
                   = fmul (base i j) (fmul (prescale_square (obsMode self)) factor))).
Proof.
  intros Hswi Hraw Hnesz. split.
  - rewrite (thermalNoiseRemoval_returns self pol "ESA" lnpc preserveTotalPower
               returnNESZ log swi raw nesz); auto; [| left; reflexivity].
    exists (postFilter (PyStr "ESA") raw
              (noiseSubtraction (shape self) preserveTotalPower raw nesz)).
    split; [reflexivity |].
    intros i j. unfold postFilter, noiseSubtraction.
    change (py_eq_str (PyStr "ESA") "ESA") with true. cbv iota beta.
    destruct preserveTotalPower; reflexivity.
  - intros noise cal Hbound Hn Hc.
    destruct (rawNoiseEquivalentSigma0Map_returns K self pol false swi noise cal Hswi Hn Hc)
      as [nesz' [Hrun Hshape]].
    rewrite Hbound, Hrun in Hnesz. injection Hnesz as <-. exact Hshape.
Qed.

(** On an image whose raw sigma nought is 5, whose noise vector map is 4
    and whose calibration map is 2 everywhere, the default call returns
    5 - 4 / (2 * 2) at every pixel. *)
Lemma thermalNoiseRemoval_ESA_noise_witness :
  exists sigma0 : raster,
    thermalNoiseRemoval (image_of_noise (Fin 4) (Fin 2)) HV (PyStr "ESA") true
      (PyBool false) false []
    = ([] ++ [Called_subswathIndexMap HV; Called_rawSigma0Map HV;
              Called_rawNoiseEquivalentSigma0Map HV false],
       Ok (Sigma0 sigma0))
    /\ forall j, (j < 2)%nat ->
         sigma0 0%nat j = fsub (Fin 5) (fdiv (Fin 4) (fmul (Fin 2) (Fin 2))).
Proof.
  destruct (rawNoiseEquivalentSigma0Map trial_kernels (image_of_noise (Fin 4) (Fin 2)) HV false)
    as [nesz |] eqn:E; [| vm_compute in E; discriminate E].
  destruct (thermalNoiseRemoval_ESA_noise trial_kernels (image_of_noise (Fin 4) (Fin 2)) HV
              true false false [] (fun _ _ => 1%N) (raster_of [[Fin 5; Fin 5]]) nesz
              eq_refl eq_refl E) as [[sigma0 [Hcall Hpix]] Hshape].
  exists sigma0. split; [exact Hcall |].
  destruct (Hshape (fun _ _ => Fin 4) (fun _ _ => Fin 2) eq_refl eq_refl eq_refl)
    as [Hplain _].
  intros j Hj. rewrite Hpix. cbv zeta.
  rewrite (Hplain ltac:(vm_compute; reflexivity) 0%nat j).
  destruct j as [| [| j]]; [reflexivity | reflexivity | lia].
Defined.

(** C3 fails as stated.  On an image whose noise vector map is 4 and whose
    calibration map is 2 everywhere, the raster handed back and subtracted
    by the ['ESA'] variant is 1, not 4, and the pixel returned for a raw
    sigma nought of 5 is 4, not 1.  On low values the raster is moreover
    pre-scaled: with a noise vector map of 1e-6 and a calibration map of 1
    the raster handed back is 1e-6 * 474^2 * 59658.3803. *)
Lemma thermalNoiseRemoval_ESA_not_the_noise_vectors :
  let image := image_of_noise (Fin 4) (Fin 2) in
  let low := image_of_noise (Fin (1 # 1000000)) (Fin 1) in
  sameb (raster_pixel (self_noiseVectorMap image HV false) 0%nat 0%nat) (Fin 4) = true
  /\ sameb (returned_noise
              (thermalNoiseRemoval image HV (PyStr "ESA") false (PyBool false) true [])
              0%nat 0%nat) (Fin 1) = true
  /\ sameb (returned_pixel
              (thermalNoiseRemoval image HV (PyStr "ESA") false (PyBool false) false [])
              0%nat 0%nat) (Fin 4) = true
  /\ sameb (raster_pixel (self_noiseVectorMap low HV false) 0%nat 0%nat)
           (Fin (1 # 1000000)) = true
  /\ sameb (returned_noise
              (thermalNoiseRemoval low HV (PyStr "ESA") false (PyBool false) true [])
              0%nat 0%nat)
           (Fin ((1 # 1000000) * (474 * 474) * (596583803 # 10000))) = true.
Proof.
  repeat split; vm_compute; reflexivity.
Qed.

(** ** Monotonicity of the noise subtraction (C4) *)






(** ** Means over a raster *)

Lemma cells_positions {A : Type} shp (f : nat -> nat -> A) :
  cells shp f = map (fun p => f (fst p) (snd p)) (positions shp).
Proof.
  unfold cells, positions. induction (seq 0 (fst shp)) as [| i l IH]; simpl.
  - reflexivity.
  - rewrite map_app, map_map, IH. reflexivity.
Qed.

Lemma positions_in_shape shp p : In p (positions shp) -> in_shape shp (fst p) (snd p).
Proof.
  unfold positions, in_shape. rewrite in_flat_map.
  intros [i [Hi Hp]]. apply in_map_iff in Hp as [j [<- Hj]]. simpl.
  apply in_seq in Hi. apply in_seq in Hj. lia.
Qed.

Lemma filter_not_nan (xs : list float64) :
  Forall no_infinity xs ->
  filter (fun a => isnan a = false) xs = map Fin (finite_values xs).
Proof.
  induction 1 as [| a xs [Hp Hn] _ IH]; [reflexivity |].
  destruct a; try congruence.
  - rewrite filter_cons_False by (simpl; congruence). exact IH.
  - rewrite filter_cons_True by reflexivity. simpl. rewrite IH. reflexivity.
Qed.

Lemma np_sum_finite (qs : list Q) : np_sum (map Fin qs) = Fin (Qsum qs).
Proof.
  unfold np_sum, Qsum. induction qs as [| q qs IH]; simpl; [reflexivity |].
  rewrite IH. reflexivity.
Qed.

Lemma inject_nat_succ_nonzero (k : nat) : ~ (inject_Z (Z.of_nat (S k)) == 0)%Q.
Proof.
  unfold Qeq, inject_Z. simpl. lia.
Qed.

Lemma np_nanmean_finite (xs : list float64) :
  Forall no_infinity xs ->
  np_nanmean xs =
    match finite_values xs with
    | [] => NaN
    | qs => Fin (Qsum qs / inject_Z (Z.of_nat (length qs)))
    end.
Proof.
  intros H. unfold np_nanmean. rewrite (filter_not_nan xs H).
  destruct (finite_values xs) as [| q qs]; [reflexivity |].
  change (map Fin (q :: qs)) with (Fin q :: map Fin qs).
  change (Fin q :: map Fin qs) with (map Fin (q :: qs)).
  rewrite np_sum_finite, length_map. unfold of_nat, of_Z, fdiv.
  destruct (Qeq_bool (inject_Z (Z.of_nat (length (q :: qs)))) 0) eqn:E.
  - apply Qeq_bool_iff in E. exfalso. exact (inject_nat_succ_nonzero _ E).
  - reflexivity.
Qed.

Lemma np_nanmean_some_finite (xs : list float64) :
  Forall no_infinity xs ->
  (0 < length (finite_values xs))%nat ->
  np_nanmean xs =
    Fin (Qsum (finite_values xs) / inject_Z (Z.of_nat (length (finite_values xs)))).
Proof.
  intros H Hlen. rewrite (np_nanmean_finite xs H).
  destruct (finite_values xs); [simpl in Hlen; lia | reflexivity].
Qed.

Lemma Qsum_shifted (qs : list Q) (m : Q) :
  (Qsum (map (fun q => q - m) qs) == Qsum qs - inject_Z (Z.of_nat (length qs)) * m)%Q.
Proof.
  unfold Qsum. induction qs as [| q qs IH].
  - simpl. ring.
  - cbn [map foldr length]. rewrite IH.
    rewrite Nat2Z.inj_succ, <- Z.add_1_r, inject_Z_plus. ring.
Qed.

(** What remains of [raw - ((raw - noise) + mean)] at the positions [ps]:
    NaN where the noise is NaN, whatever the raw value is, and the noise
    lowered by the mean where the noise and the raw value are finite. *)
Lemma finite_values_residual {P : Type} (ps : list P) (raw noise : P -> float64) (m : Q) :
  Forall (fun p => no_infinity (noise p)
                   /\ (isfinite (noise p) = true -> isfinite (raw p) = true)) ps ->
  let residual p := fsub (raw p) (fadd (fsub (raw p) (noise p)) (Fin m)) in
  Forall no_infinity (map residual ps)
  /\ length (finite_values (map residual ps)) = length (finite_values (map noise ps))
  /\ (Qsum (finite_values (map residual ps))
      == Qsum (map (fun q => q - m) (finite_values (map noise ps))))%Q.
Proof.
  intros H residual. induction H as [| p ps [[Hp Hn] Hr] _ [IH1 [IH2 IH3]]].
  - simpl. split; [constructor | split; reflexivity].
  - subst residual. cbn [map].
    destruct (noise p) as [| | q |] eqn:En; try congruence.
    + assert (E : fsub (raw p) (fadd (fsub (raw p) NaN) (Fin m)) = NaN)
        by (destruct (raw p); reflexivity).
      rewrite E. cbn [finite_values]. split; [| split; assumption].
      constructor; [split; discriminate | exact IH1].
    + specialize (Hr eq_refl).
      destruct (raw p) as [| | r |] eqn:Er; try discriminate.
      cbn [fsub fopp fadd finite_values length Qsum foldr map]. repeat split.
      * constructor; [split; discriminate | exact IH1].
      * f_equal. exact IH2.
      * unfold Qsum in IH3. rewrite IH3. ring.
Qed.

Lemma np_nanmean_all_nan {P : Type} (ps : list P) (f : P -> float64) :
  (forall p, f p = NaN) -> np_nanmean (map f ps) = NaN.
Proof.
  intros Hf. unfold np_nanmean.
  assert (E : filter (fun a => isnan a = false) (map f ps) = []).
  { induction ps as [| p ps IH]; [reflexivity |]. cbn [map].
    rewrite filter_cons_False by (rewrite Hf; simpl; congruence). exact IH. }
  rewrite E. reflexivity.
Qed.

Lemma fsub_fadd_nan (a b : float64) : fsub a (fadd b NaN) = NaN.
Proof. destruct a, b; reflexivity. Qed.

(** The NaN-ignoring mean of [raw - ((raw - noise) + m)], for [m] the
    NaN-ignoring mean of the noise, is the mean of the noise minus [m]. *)
Lemma residual_mean {P : Type} (ps : list P) (raw noise : P -> float64) :
  Forall (fun p => no_infinity (noise p)
                   /\ (isfinite (noise p) = true -> isfinite (raw p) = true)) ps ->
  let m := np_nanmean (map noise ps) in
  same (np_nanmean (map (fun p => fsub (raw p) (fadd (fsub (raw p) (noise p)) m)) ps))
       (fsub m m).
Proof.
  intros H m.
  assert (Hn : Forall no_infinity (map noise ps)).
  { apply Forall_map. eapply Forall_impl; [exact H |]. intros p [Hp _]. exact Hp. }
  pose proof (np_nanmean_finite _ Hn) as Em. fold m in Em.
  destruct (finite_values (map noise ps)) as [| q qs] eqn:Eq.
  - rewrite Em.
    rewrite (np_nanmean_all_nan ps) by (intros p; apply fsub_fadd_nan).
    exact I.
  - rewrite Em. cbv zeta.
    destruct (finite_values_residual ps raw noise
                (Qsum (q :: qs) / inject_Z (Z.of_nat (length (q :: qs)))) H)
      as [Hres [Hlen Hsum]].
    rewrite Eq in Hlen, Hsum.
    rewrite (np_nanmean_some_finite _ Hres) by (rewrite Hlen; simpl; lia).
    cbn [same fsub fopp fadd]. rewrite Hlen, Hsum, Qsum_shifted.
    pose proof (inject_nat_succ_nonzero (length qs)) as Hnz.
    change (length (q :: qs)) with (S (length qs)) in *.
    field. exact Hnz.
Qed.

Lemma cells_ext {A : Type} shp (f g : nat -> nat -> A) :
  (forall i j, in_shape shp i j -> f i j = g i j) -> cells shp f = cells shp g.
Proof.
  intros H. rewrite !cells_positions. apply map_ext_in. intros p Hp.
  apply H. apply positions_in_shape. exact Hp.
Qed.

(** ** Adding back the mean noise power (C2) *)

(** C2, as amended.  With [preserveTotalPower=True] the raster that
    [thermalNoiseRemoval] returns is, at every pixel its post-filter keeps,
    raw minus noise plus the NaN-ignoring global mean of the noise raster.
    When the noise raster holds no infinity and the raw raster is finite
    wherever the noise is (both may be NaN elsewhere, as they are outside
    the subswaths), the NaN-ignoring spatial mean of (raw - denoised)
    equals the mean noise power minus the added mean term: for the raster
    before the post-filter, and for the returned raster when the
    post-filter keeps every pixel. *)
Theorem thermalNoiseRemoval_preserveTotalPower
    self pol algorithm lnpc returnNESZ log swi raw noise :
  is_variant algorithm ->
  self_subswathIndexMap self pol = Ok swi ->
  self_rawSigma0Map self pol = Ok raw ->
  noise_slot self pol algorithm lnpc = Ok noise ->
  let mean := np_nanmean (cells (shape self) noise) in
  let sigma0 : raster := fun i j => fadd (fsub (raw i j) (noise i j)) mean in
  exists d,
    snd (thermalNoiseRemoval self pol (PyStr algorithm) lnpc (PyBool true) returnNESZ log)
    = Ok d
    /\ (forall i j, postFilter_keeps algorithm raw sigma0 i j ->
                    sigma0_of d i j = sigma0 i j)
    /\ ((forall i j, in_shape (shape self) i j ->
                     no_infinity (noise i j)
                     /\ (isfinite (noise i j) = true -> isfinite (raw i j) = true)) ->
        same (np_nanmean (cells (shape self) (fun i j => fsub (raw i j) (sigma0 i j))))
             (fsub mean mean)
        /\ ((forall i j, in_shape (shape self) i j ->
                         postFilter_keeps algorithm raw sigma0 i j) ->
            same (np_nanmean
                    (cells (shape self) (fun i j => fsub (raw i j) (sigma0_of d i j))))
                 (fsub mean mean))).
Proof.
  intros Hv Hswi Hraw Hnoise mean sigma0.
  rewrite (thermalNoiseRemoval_returns self pol algorithm lnpc true returnNESZ log
             swi raw noise Hv Hswi Hraw Hnoise).
  eexists. split; [reflexivity |].
  change (noiseSubtraction (shape self) true raw noise) with sigma0.
  set (d := if returnNESZ then _ else _).
  assert (Hkept : forall i j, postFilter_keeps algorithm raw sigma0 i j ->
                              sigma0_of d i j = sigma0 i j).
  { intros i j Hkeep. subst d.
    destruct returnNESZ; cbn [sigma0_of]; unfold postFilter;
      (destruct Hkeep as [[-> Hk] | [-> [Hk1 Hk2]]]; simpl;
       [rewrite Hk | rewrite Hk1, Hk2]; reflexivity). }
  split; [exact Hkept |].
  intros Hfin.
  assert (Hmean : same (np_nanmean
                          (cells (shape self) (fun i j => fsub (raw i j) (sigma0 i j))))
                       (fsub mean mean)).
  { subst mean sigma0. rewrite !cells_positions.
    apply (residual_mean (positions (shape self))
             (fun p => raw (fst p) (snd p)) (fun p => noise (fst p) (snd p))).
    apply Forall_forall. intros p Hp. apply Hfin.
    apply positions_in_shape. apply list_elem_of_In. exact Hp. }
  split; [exact Hmean |].
  intros Hall.
  rewrite (cells_ext (shape self) _ (fun i j => fsub (raw i j) (sigma0 i j))).
  - exact Hmean.
  - intros i j Hij. rewrite (Hkept i j (Hall i j Hij)). reflexivity.
Qed.

(** On a line of two pixels of which the first lies outside the subswaths
    (raw and noise are NaN there) and the second holds raw 1 and noise 3,
    the ['NERSC'] variant returns NaN and 1 - 3 + 3, and the mean of
    (raw - denoised) is 3 - 3. *)
Lemma thermalNoiseRemoval_preserveTotalPower_witness :
  let mean := np_nanmean (cells (1, 2)%nat c2_blank_noise) in
  let sigma0 : raster :=
    fun i j => fadd (fsub (c2_blank_raw i j) (c2_blank_noise i j)) mean in
  exists d,
    snd (thermalNoiseRemoval c2_blank_image HV (PyStr "NERSC") false (PyBool true) false [])
    = Ok d
    /\ sigma0_of d 0%nat 1%nat = sigma0 0%nat 1%nat
    /\ same (np_nanmean
               (cells (1, 2)%nat (fun i j => fsub (c2_blank_raw i j) (sigma0_of d i j))))
            (fsub mean mean).
Proof.
  intros mean sigma0.
  destruct (thermalNoiseRemoval_preserveTotalPower c2_blank_image HV "NERSC" false false []
              (fun _ _ => 1%N) c2_blank_raw c2_blank_noise (or_intror eq_refl)
              eq_refl eq_refl eq_refl) as [d [Hd [Hkept Hmean]]].
  assert (Hall : forall i j, in_shape (1, 2)%nat i j ->
                   postFilter_keeps "NERSC" c2_blank_raw sigma0 i j).
  { intros i j [Hi Hj]. simpl in Hi, Hj. right.
    destruct i as [| i]; [| lia].
    destruct j as [| [| j]]; [| | lia]; repeat split; reflexivity. }
  exists d. split; [exact Hd | split].
  - apply Hkept. apply Hall. split; simpl; lia.
  - apply Hmean; [| exact Hall].
    intros i j [Hi Hj]. simpl in Hi, Hj.
    destruct i as [| i]; [| lia].
    destruct j as [| [| j]]; [| | lia];
      (split; [split; discriminate | first [reflexivity | discriminate]]).
Defined.

(** C2 fails as stated.  For the raw raster [[[0, 0]]], the noise raster
    [[[1, 3]]] and [preserveTotalPower=True], raw minus noise plus the mean
    noise (2) is -1 at pixel (0,1), but the ['ESA'] variant returns 0
    there, and the mean of (raw - denoised) over the returned raster is
    -1/2 while the mean noise power minus the added mean term is 0.  And
    for the raw raster [[[NaN, 1]]] with the same noise, where the
    ['NERSC'] variant filters nothing, the mean of (raw - denoised) is 1:
    the first pixel has noise subtracted that the mean counts, but no raw
    value. *)
Lemma preserveTotalPower_not_after_clipping :
  let out := thermalNoiseRemoval c2_image HV (PyStr "ESA") false (PyBool true) false [] in
  let mean := np_nanmean (cells (1, 2)%nat c2_noise) in
  sameb (fadd (fsub (c2_raw 0%nat 1%nat) (c2_noise 0%nat 1%nat)) mean) (Fin (- (1))) = true
  /\ sameb (returned_pixel out 0%nat 1%nat) (Fin 0) = true
  /\ sameb (np_nanmean
              (cells (1, 2)%nat (fun i j => fsub (c2_raw i j) (returned_pixel out i j))))
           (Fin (- (1 # 2))) = true
  /\ sameb (fsub mean mean) (Fin 0) = true
  /\ let out' :=
       thermalNoiseRemoval c2_gap_image HV (PyStr "NERSC") false (PyBool true) false [] in
     sameb (returned_pixel out' 0%nat 1%nat)
           (fadd (fsub (c2_gap_raw 0%nat 1%nat) (c2_noise 0%nat 1%nat)) mean) = true
     /\ sameb (np_nanmean
                 (cells (1, 2)%nat
                    (fun i j => fsub (c2_gap_raw i j) (returned_pixel out' i j))))
              (Fin 1) = true.
Proof.
  repeat split; vm_compute; reflexivity.
Qed.

(** ** The LUT shift search (C5) *)

Section ShiftSearch.

Variable estimate : float64 -> result float64.


(** The last pass of a run: the estimate is taken at the accumulated
    shift, becomes [deltaShift], and is added to the accumulated shift. *)
Lemma shift_steps_last st m st' :
  shift_steps estimate st (S m) = Ok st' ->
  exists prev d,
    shift_steps estimate st m = Ok prev
    /\ estimate (xShiftPixel prev) = Ok d
    /\ deltaShift st' = d
    /\ xShiftPixel st' = fadd (xShiftPixel prev) d.
Proof.
  revert st. induction m as [| m IH]; intros st H.
  - simpl in H. unfold shift_step in H.
    destruct (estimate (xShiftPixel st)) as [d | e] eqn:E; [| discriminate].
    simpl in H. injection H as <-. exists st, d. auto.
  - change (shift_steps estimate st (S (S m)))
      with (rbind (shift_step estimate st) (fun s => shift_steps estimate s (S m))) in H.
    destruct (shift_step estimate st) as [s1 | e] eqn:E1; [| discriminate].
    simpl in H. destruct (IH s1 H) as [prev [d [Hp Hd]]].
    exists prev, d. split; [| exact Hd].
    simpl. rewrite E1. exact Hp.
Qed.

(** The loop from a state whose counter leaves [rem] passes: it ends within
    [rem] passes whatever fuel at least [rem] it is given, every state
    before the last satisfied the loop test, and a final state fails it. *)
Lemma py_while_shift rem : forall st fuel,
  (ni st + rem = 10)%nat -> (rem <= fuel)%nat ->
  exists m, (m <= rem)%nat
    /\ py_while fuel shift_continues (shift_step estimate) st = Some (shift_steps estimate st m)
    /\ (forall k, (k < m)%nat ->
          exists stk, shift_steps estimate st k = Ok stk /\ shift_continues stk = true)
    /\ (forall st', shift_steps estimate st m = Ok st' -> shift_continues st' = false).
Proof.
  induction rem as [| rem IH]; intros st fuel Hni Hfuel.
  - exists 0%nat. assert (Hc : shift_continues st = false).
    { unfold shift_continues. replace (ni st) with 10%nat by lia.
      apply andb_false_r. }
    split; [lia | split; [| split]].
    + destruct fuel; simpl; rewrite Hc; reflexivity.
    + intros k Hk. lia.
    + simpl. intros st' [= <-]. exact Hc.
  - destruct (shift_continues st) eqn:Hc.
    + destruct fuel as [| fuel]; [lia |].
      simpl. rewrite Hc.
      destruct (shift_step estimate st) as [s1 | e] eqn:E1.
      * assert (Hni1 : (ni s1 + rem = 10)%nat).
        { unfold shift_step in E1.
          destruct (estimate (xShiftPixel st)); [| discriminate].
          simpl in E1. injection E1 as <-. simpl. lia. }
        destruct (IH s1 fuel Hni1 ltac:(lia)) as [m [Hm [Hrun [Hbefore Hlast]]]].
        exists (S m). split; [lia | split; [| split]].
        -- simpl. rewrite E1. exact Hrun.
        -- intros [| k] Hk.
           ++ exists st. split; [reflexivity | exact Hc].
           ++ simpl. rewrite E1. apply Hbefore. lia.
        -- simpl. rewrite E1. exact Hlast.
      * exists 1%nat. split; [lia | split; [| split]].
        -- simpl. rewrite E1. reflexivity.
        -- intros k Hk. assert (k = 0%nat) as -> by lia.
           exists st. split; [reflexivity | exact Hc].
        -- simpl. rewrite E1. discriminate.
    + exists 0%nat. split; [lia | split; [| split]].
      * destruct fuel; simpl; rewrite Hc; reflexivity.
      * intros k Hk. lia.
      * simpl. intros st' [= <-]. exact Hc.
Qed.




End ShiftSearch.


(** The search on three estimators: one that never comes under the
    tolerance (ten passes, the ten estimates accumulated), one that is
    under it at once, and one whose first estimate is negative. *)
Example lutShiftSearch_no_convergence :
  finished (lutShiftSearch 10 (fun _ => Ok (Fin 1)))
  = Ok {| xShiftPixel := Fin 10; deltaShift := Fin 1; ni := 10 |}.
Proof. reflexivity. Qed.

Example lutShiftSearch_immediate :
  finished (lutShiftSearch 10 (fun _ => Ok (Fin (1 # 100))))
  = Ok {| xShiftPixel := Fin (0 + (1 # 100)); deltaShift := Fin (1 # 100); ni := 1 |}.
Proof. reflexivity. Qed.

Example lutShiftSearch_negative_estimate :
  finished (lutShiftSearch 10 (fun _ => Ok (Fin (- (5)))))
  = Ok {| xShiftPixel := Fin (0 + - (5)); deltaShift := Fin (- (5)); ni := 1 |}.
Proof. reflexivity. Qed.

(** ** Orbit interpolation (C6) *)

Lemma Qle_bool_total (x y : Q) : Qle_bool x y = true \/ Qle_bool y x = true.
Proof.
  destruct (Qlt_le_dec x y) as [H | H].
  - left. apply Qle_bool_iff. apply Qlt_le_weak. exact H.
  - right. apply Qle_bool_iff. exact H.
Qed.

Lemma sorts_before_total (a b : float64) :
  sorts_before a b = true \/ sorts_before b a = true.
Proof.
  unfold sorts_before. destruct a, b; simpl; auto.
  rewrite !orb_false_r. apply Qle_bool_total.
Qed.

Lemma sorts_before_trans (a b c : float64) :
  sorts_before a b = true -> sorts_before b c = true -> sorts_before a c = true.
Proof.
  unfold sorts_before. destruct a, b, c; simpl; auto; try discriminate.
  rewrite !orb_false_r, !Qle_bool_iff. intros H1 H2. lra.
Qed.

#[local] Instance argsort_le_total (keys : list float64) : Total (argsort_le keys).
Proof.
  intros i j. unfold argsort_le, key_le.
  pose proof (sorts_before_total (default NaN (keys !! i)) (default NaN (keys !! j)))
    as Htotal.
  destruct (sorts_before (default NaN (keys !! i)) (default NaN (keys !! j)));
    destruct (sorts_before (default NaN (keys !! j)) (default NaN (keys !! i))).
  - destruct (Nat.le_ge_cases i j); [left | right]; auto.
  - left. split; [reflexivity | discriminate].
  - right. split; [reflexivity | discriminate].
  - destruct Htotal; discriminate.
Qed.

#[local] Instance argsort_le_transitive (keys : list float64) : Transitive (argsort_le keys).
Proof.
  intros i j k [Hij Tij] [Hjk Tjk]. unfold argsort_le, key_le in *.
  split; [exact (sorts_before_trans _ _ _ Hij Hjk) |].
  intros Hki.
  specialize (Tij (sorts_before_trans _ _ _ Hjk Hki)).
  specialize (Tjk (sorts_before_trans _ _ _ Hki Hij)). lia.
Qed.





Section OrbitSamples.

Variable argsort : list float64 -> list nat.
Variable orbitTime : list float64.
Variable t : float64.

Let keys : list float64 := map (fun ot => fabs (fsub ot t)) orbitTime.

Hypothesis Hperm : argsort keys ≡ₚ seq 0 (length keys).







End OrbitSamples.







(** At time 6 the state vectors at -10, 0, 10 and 20 are the nearest; at
    time 0 those at -20 and 20 are equally distant, and the first is
    used. *)
Example useIndices_five :
  useIndices np_argsort (map sv_time five_states) (Fin 6) = [1; 2; 3; 4]%nat
  /\ useIndices np_argsort (map sv_time five_states) (Fin 0) = [0; 1; 2; 3]%nat.
Proof. split; vm_compute; reflexivity. Qed.




(** ** Missing correction coefficients (C8) *)

(** The adaptive scaler raises as soon as the SNR axis it is handed is
    empty while the curve of the first subswath is not, whatever the
    kernels compute. *)
Lemma adaptiveNoiseScaling_empty_axis K self sigma0 nesz swi
    (extraScaling : gmap string (list float64)) (w : nat) (c : float64) (curve : list float64) :
  extraScaling !! "SNR" = Some [] ->
  extraScaling !! subswathID (obsMode self) 1 = Some (c :: curve) ->
  adaptiveNoiseScaling K self sigma0 nesz swi extraScaling w
  = Raise (ValueError "x and y should have a same length").
Proof.
  intros Haxis Hcurve. unfold adaptiveNoiseScaling, subswathRange.
  destruct (obsMode self); cbn [numberOfSubswaths seq for_each];
    unfold py_getitem; rewrite Haxis, Hcurve; reflexivity.
Qed.

Lemma versioned_or_missing field ID version dflt :
  no_entry_for field version -> versioned_or field ID version dflt = dflt.
Proof.
  intros H. unfold versioned_or.
  destruct field as [d |]; [| reflexivity].
  destruct (d !! ID) as [byVersion |] eqn:E; [| reflexivity].
  rewrite (H d ID byVersion eq_refl E). reflexivity.
Qed.

Lemma extraScaling_step_missing field mode iSW es :
  no_curve_for field mode -> iSW ∈ subswathRange mode ->
  extraScaling_step field (subswathID mode iSW) es
  = <[subswathID mode iSW := ones_601]> (<["SNNR" := linspace_30_30_601]> es).
Proof.
  intros H Hin. unfold extraScaling_step.
  destruct field as [d |]; [| reflexivity].
  rewrite (H d iSW eq_refl Hin). reflexivity.
Qed.

(** Over subswaths without entry, the loop builds the scaling, balancing
    and extra-scaling dictionaries it builds from a store with no entry. *)
Lemma coefficients_loop_missing dp mode key (l : list nat) :
  no_entry_for (dp_noiseScalingParameters dp) key ->
  no_entry_for (dp_powerBalancingParameters dp) key ->
  no_curve_for (dp_extraScalingParameters dp) mode ->
  (forall iSW, iSW ∈ l -> iSW ∈ subswathRange mode) ->
  forall c0 d0,
    noiseScalingParameters c0 = noiseScalingParameters d0 ->
    powerBalancingParameters c0 = powerBalancingParameters d0 ->
    extraScalingParameters c0 = extraScalingParameters d0 ->
    let c := foldl (coefficients_step dp mode key) c0 l in
    let d := foldl (coefficients_step no_coefficients mode "") d0 l in
    noiseScalingParameters c = noiseScalingParameters d
    /\ powerBalancingParameters c = powerBalancingParameters d
    /\ extraScalingParameters c = extraScalingParameters d.
Proof.
  intros Hk Hb He. induction l as [| a l IH]; intros Hl c0 d0 H1 H2 H3; [simpl; auto |].
  cbn [foldl]. apply IH.
  - intros iSW Hin. apply Hl. right. exact Hin.
  - cbn. rewrite (versioned_or_missing _ _ _ _ Hk), H1. reflexivity.
  - cbn. rewrite (versioned_or_missing _ _ _ _ Hb), H2. reflexivity.
  - cbn. rewrite (extraScaling_step_missing _ _ _ _ He) by (apply Hl; left).
    rewrite H3. reflexivity.
Qed.

Lemma default_coefficients_lookup mode iSW :
  iSW ∈ subswathRange mode ->
  noiseScalingParameters (default_coefficients mode) !! subswathID mode iSW = Some (Fin 1)
  /\ powerBalancingParameters (default_coefficients mode) !! subswathID mode iSW
     = Some (Fin 0)
  /\ extraScalingParameters (default_coefficients mode) !! subswathID mode iSW
     = Some ones_601.
Proof.
  intros Hin. apply elem_of_seq in Hin.
  destruct mode; cbn [numberOfSubswaths] in Hin.
  - assert (H : iSW = 1%nat \/ iSW = 2%nat \/ iSW = 3%nat) by lia.
    destruct H as [-> | [-> | ->]]; repeat split; vm_compute; reflexivity.
  - assert (H : iSW = 1%nat \/ iSW = 2%nat \/ iSW = 3%nat \/ iSW = 4%nat \/ iSW = 5%nat)
      by lia.
    destruct H as [-> | [-> | [-> | [-> | ->]]]]; repeat split; vm_compute; reflexivity.
Qed.

(** The default axis sits under ['SNNR']; ['SNR'] keeps the empty list. *)
Lemma default_coefficients_axis mode :
  extraScalingParameters (default_coefficients mode) !! "SNNR" = Some linspace_30_30_601
  /\ extraScalingParameters (default_coefficients mode) !! "SNR" = Some [].
Proof. destruct mode; split; vm_compute; reflexivity. Qed.

Lemma for_each_returns {A S : Type} (body : S -> A -> result S) (l : list A) :
  (forall s a, a ∈ l -> succeeds (body s a) = true) ->
  forall s, succeeds (for_each l body s) = true.
Proof.
  induction l as [| a l IH]; intros H s; [reflexivity |].
  cbn [for_each]. specialize (H s a ltac:(left)) as Ha.
  destruct (body s a) as [s1 |]; [| discriminate].
  cbn [rbind]. apply IH. intros s' a' Hin. apply H. right. exact Hin.
Qed.

Lemma first_subswath mode : 1%nat ∈ subswathRange mode.
Proof. destruct mode; left. Qed.

(** The version key is the decimal of the binary64 value: 2.45 and 2.85,
    which binary64 holds a little above, give the keys of 2.5 and 2.9;
    2.55, held a little below, gives the key of 2.5; 2.25, held exactly,
    goes to the even neighbour. *)
Example format_1f_of_binary64 :
  map format_1f [245 # 100; 285 # 100; 255 # 100; 225 # 100; 272 # 100; 31 # 10]%Q
  = ["2.5"; "2.9"; "2.5"; "2.2"; "2.7"; "3.1"].
Proof. vm_compute. reflexivity. Qed.

(** The sensing date of a product name, of a name whose time has one digit
    for the seconds, of a name without date and of a name whose fifth
    field is no date. *)
Example strptime_of_names :
  map (fun name =>
         match split_on 95 "" (last_component "" name) !! 4%nat with
         | Some field => strptime_compact field
         | None => Raise (IndexError "list index out of range")
         end)
    [product_name IW; "S1B_IW_GRDH_1SDV_20170116T13423_x"; "S1A_IW_GRDH_1SDV";
     "S1A_IW_GRDH_1SDV_20180230T000000_x"]
  = [Ok 20180101000000%Z; Ok 20170116134203%Z;
     Raise (IndexError "list index out of range");
     Raise (ValueError "day is out of range for month")].
Proof. vm_compute. reflexivity. Qed.

(** C8.  For every object, polarization and processor version whose
    coefficient store holds no scaling and no balancing entry for the
    version and no extra-scaling curve for the subswaths,
    [import_denoisingCoefficients] returns (unless the file name carries no
    sensing date, when it raises the error of reading it), for every
    subswath, the scaling factor 1.0, the balancing offset 0.0 and the
    constant curve of ones; the default SNR axis is stored under ['SNNR']
    while ['SNR'], the key [adaptiveNoiseScaling] reads, still holds the
    empty list it was initialised with.  With these coefficients the
    modified noise map is returned without local compensation, and with
    it, for a cross-polarization, the construction of the spline in
    [adaptiveNoiseScaling] raises [ValueError], whatever the kernels
    compute. *)
Theorem missing_coefficients_break_adaptive_scaling K self pol dp :
  denoParams self pol = Ok dp ->
  no_entry_for (dp_noiseScalingParameters dp) (format_1f (coefficientVersion self)) ->
  no_entry_for (dp_powerBalancingParameters dp) (format_1f (coefficientVersion self)) ->
  no_curve_for (dp_extraScalingParameters dp) (obsMode self) ->
  (exists c,
     import_denoisingCoefficients self pol
     = match sensingDate self with
       | Ok _ => Ok c
       | Raise e => Raise e
       end
     /\ (forall iSW, iSW ∈ subswathRange (obsMode self) ->
           noiseScalingParameters c !! subswathID (obsMode self) iSW = Some (Fin 1)
           /\ powerBalancingParameters c !! subswathID (obsMode self) iSW = Some (Fin 0)
           /\ extraScalingParameters c !! subswathID (obsMode self) iSW = Some ones_601)
     /\ extraScalingParameters c !! "SNNR" = Some linspace_30_30_601
     /\ extraScalingParameters c !! "SNR" = Some [])
  /\ (succeeds (self_rawNoiseEquivalentSigma0Map self pol true) = true ->
      (scallopingApplies self = true -> succeeds (self_scallopingGainMap self pol) = true) ->
      succeeds (self_subswathIndexMap self pol) = true ->
      (succeeds (sensingDate self) = true ->
       succeeds (modifiedNoiseEquivalentSigma0Map K self pol false) = true)
      /\ (succeeds (self_rawSigma0Map self pol) = true ->
          is_cross_pol pol = true ->
          modifiedNoiseEquivalentSigma0Map K self pol true
          = match sensingDate self with
            | Ok _ => Raise (ValueError "x and y should have a same length")
            | Raise e => Raise e
            end)).
Proof.
  intros Hdp Hk Hb He.
  destruct (coefficients_loop_missing dp (obsMode self) _ (subswathRange (obsMode self))
              Hk Hb He (fun _ H => H) coefficients_init coefficients_init
              eq_refl eq_refl eq_refl) as [E1 [E2 E3]].
  fold (default_coefficients (obsMode self)) in E1, E2, E3.
  assert (Himport : import_denoisingCoefficients self pol
                    = match sensingDate self with
                      | Ok _ =>
                          Ok (foldl (coefficients_step dp (obsMode self)
                                       (format_1f (coefficientVersion self)))
                                coefficients_init (subswathRange (obsMode self)))
                      | Raise e => Raise e
                      end).
  { unfold import_denoisingCoefficients. rewrite Hdp. reflexivity. }
  set (c := foldl _ _ _) in *.
  assert (Hlook : forall iSW, iSW ∈ subswathRange (obsMode self) ->
             noiseScalingParameters c !! subswathID (obsMode self) iSW = Some (Fin 1)
             /\ powerBalancingParameters c !! subswathID (obsMode self) iSW = Some (Fin 0)
             /\ extraScalingParameters c !! subswathID (obsMode self) iSW = Some ones_601).
  { intros iSW Hin. rewrite E1, E2, E3. apply default_coefficients_lookup. exact Hin. }
  assert (Haxis : extraScalingParameters c !! "SNNR" = Some linspace_30_30_601
                  /\ extraScalingParameters c !! "SNR" = Some []).
  { rewrite E3. apply default_coefficients_axis. }
  split.
  - exists c. auto.
  - intros Hnesz Hgain Hswi.
    unfold modifiedNoiseEquivalentSigma0Map.
    destruct (self_rawNoiseEquivalentSigma0Map self pol true) as [nesz |]; [| discriminate].
    cbn [rbind].
    assert (Hscal : exists nesz',
               (if scallopingApplies self
                then rbind (self_scallopingGainMap self pol)
                       (fun gain => Ok (fun i j => fmul (nesz i j) (gain i j)))
                else Ok nesz) = Ok nesz').
    { destruct (scallopingApplies self); [| eauto].
      specialize (Hgain eq_refl).
      destruct (self_scallopingGainMap self pol); [eauto | discriminate]. }
    destruct Hscal as [nesz' ->]. cbn [rbind].
    destruct (self_subswathIndexMap self pol) as [swi |]; [| discriminate].
    cbn [rbind]. rewrite Himport.
    destruct (sensingDate self) as [date | e].
    2:{ cbn [rbind]. split; [intros H; discriminate H | intros _ _; reflexivity]. }
    cbn [rbind].
    match goal with
    | |- context [for_each ?l ?body ?s] =>
        pose proof (for_each_returns body l) as Hloop;
        destruct (for_each l body s) as [scaled |] eqn:Escaled
    end.
    2:{ exfalso. specialize (Hloop ltac:(
          intros s a Hin; destruct (Hlook a Hin) as [H1 [H2 _]];
          unfold py_getitem; rewrite H1, H2; reflexivity) nesz').
        rewrite Escaled in Hloop. discriminate. }
    cbn [rbind]. split; [intros _; reflexivity |].
    intros Hraw Hcross. rewrite Hcross. cbn [andb].
    destruct (self_rawSigma0Map self pol) as [raw |]; [| discriminate].
    cbn [rbind].
    apply (adaptiveNoiseScaling_empty_axis K self raw scaled swi _ 5 (Fin 1)
             (replicate 600 (Fin 1))).
    + apply Haxis.
    + apply (Hlook 1%nat). apply first_subswath.
Qed.

(** On an S1A IW product of IPF 3.1 whose coefficient store is empty, in HV
    polarization: the coefficients are the defaults, and the modified noise
    map with local noise power compensation raises. *)
Lemma missing_coefficients_break_adaptive_scaling_witness :
  (exists c,
     import_denoisingCoefficients c8_image HV = Ok c
     /\ noiseScalingParameters c !! "IW1" = Some (Fin 1)
     /\ powerBalancingParameters c !! "IW1" = Some (Fin 0)
     /\ extraScalingParameters c !! "IW1" = Some ones_601
     /\ extraScalingParameters c !! "SNNR" = Some linspace_30_30_601
     /\ extraScalingParameters c !! "SNR" = Some [])
  /\ succeeds (modifiedNoiseEquivalentSigma0Map trial_kernels c8_image HV false) = true
  /\ modifiedNoiseEquivalentSigma0Map trial_kernels c8_image HV true
     = Raise (ValueError "x and y should have a same length").
Proof.
  destruct (missing_coefficients_break_adaptive_scaling trial_kernels c8_image HV
              no_coefficients eq_refl
              ltac:(intros d ID byVersion H; discriminate H)
              ltac:(intros d ID byVersion H; discriminate H)
              ltac:(intros d iSW H; discriminate H))
    as [[c [Hc [Hlook [Hsnnr Hsnr]]]] Hrun].
  destruct (Hlook 1%nat ltac:(left)) as [Hk [Hb Hcurve]].
  destruct (Hrun eq_refl ltac:(intros H; vm_compute in H; discriminate H) eq_refl)
    as [Hplain Hraise].
  split; [| split; [exact (Hplain eq_refl) | exact (Hraise eq_refl eq_refl)]].
  exists c. exact (conj Hc (conj Hk (conj Hb (conj Hcurve (conj Hsnnr Hsnr))))).
Defined.

(** ** Power balancing (C9) *)

Lemma list_getitem_nat {A : Type} (xs : list A) (i : nat) (x : A) :
  list_getitem xs (Z.of_nat i) = Ok x -> xs !! i = Some x.
Proof.
  unfold list_getitem, np_index.
  destruct ((0 <=? Z.of_nat i)%Z && (Z.of_nat i <? Z.of_nat (length xs))%Z) eqn:E.
  - cbn [rbind]. rewrite Nat2Z.id. destruct (xs !! i); [congruence | discriminate].
  - assert (Hneg : (Z.of_nat i <? 0)%Z = false) by (apply Z.ltb_ge; lia).
    rewrite Hneg, andb_false_r. discriminate.
Qed.

Lemma set_step_inv (bp : list float64) (i : nat) (v : float64) (bp' : list float64) :
  set_step bp i v = Ok bp' -> (S i < length bp)%nat /\ bp' = <[S i := v]> bp.
Proof.
  unfold set_step. destruct (S i <? length bp)%nat eqn:E; [| discriminate].
  intros [= <-]. apply Nat.ltb_lt in E. auto.
Qed.

(** A loop that assigns [bp[i+1]] for [i = a, ..., a + count - 1]: the
    entries up to [a] are left alone and entry [i+1] holds the value
    assigned in pass [i]. *)
Lemma steps_loop (body : list float64 -> nat -> result (list float64))
    (P : nat -> float64 -> Prop) :
  (forall bp i bp', body bp i = Ok bp' -> exists v, P i v /\ set_step bp i v = Ok bp') ->
  forall count a bp0 bp,
    for_each (seq a count) body bp0 = Ok bp ->
    length bp = length bp0
    /\ (forall k, (k <= a)%nat -> bp !! k = bp0 !! k)
    /\ (forall i, (a <= i < a + count)%nat -> exists v, P i v /\ bp !! (S i) = Some v).
Proof.
  intros Hbody. induction count as [| count IH]; intros a bp0 bp Hrun.
  - simpl in Hrun. injection Hrun as <-.
    split; [reflexivity | split; [reflexivity | intros i Hi; lia]].
  - cbn [seq for_each] in Hrun.
    destruct (body bp0 a) as [bp1 | e] eqn:E1; [| discriminate Hrun].
    cbn [rbind] in Hrun.
    destruct (Hbody _ _ _ E1) as [v [Hv Hset]].
    apply set_step_inv in Hset as [Hlt ->].
    destruct (IH (S a) _ _ Hrun) as [Hlen [Hlow Hhigh]].
    rewrite length_insert in Hlen.
    split; [exact Hlen | split].
    + intros k Hk. rewrite (Hlow k) by lia.
      apply list_lookup_insert_ne. lia.
    + intros i Hi. destruct (decide (i = a)) as [-> | Hne].
      * exists v. split; [exact Hv |].
        rewrite (Hlow (S a)) by lia. apply list_lookup_insert_eq. exact Hlt.
      * apply Hhigh. lia.
Qed.

Lemma np_cumsum_head (steps : list float64) : np_cumsum steps !! 0%nat = steps !! 0%nat.
Proof. destruct steps; reflexivity. Qed.

Lemma image_power_steps fitCoefficients interswathBounds steps :
  Image.power_steps fitCoefficients interswathBounds = Ok steps ->
  steps !! 0%nat = Some (Fin 0)
  /\ forall li, (li < 4)%nat ->
       exists v, image_step fitCoefficients interswathBounds li v
                 /\ steps !! S li = Some v.
Proof.
  intros Hrun. unfold Image.power_steps in Hrun.
  eapply (steps_loop _ (image_step fitCoefficients interswathBounds)) in Hrun.
  - destruct Hrun as [_ [Hlow Hhigh]]. split.
    + rewrite (Hlow 0%nat) by lia. reflexivity.
    + intros li Hli. apply Hhigh. lia.
  - intros bp i bp' Hbody.
    destruct (interswathBounds i) as [boundary |] eqn:Eb; [| discriminate].
    cbn [rbind] in Hbody.
    destruct (list_getitem fitCoefficients (Z.of_nat i)) as [left |] eqn:El;
      [| discriminate].
    cbn [rbind] in Hbody.
    destruct (list_getitem fitCoefficients (Z.of_nat i + 1)) as [right |] eqn:Er;
      [| discriminate].
    cbn [rbind] in Hbody.
    exists (power_step left right boundary). split; [| exact Hbody].
    exists left, right, boundary.
    replace (Z.of_nat i + 1)%Z with (Z.of_nat (S i)) in Er by lia.
    apply list_getitem_nat in El, Er. auto.
Qed.

Lemma calval_power_steps mode num_swaths fitCoefficients lrs steps :
  CalVal.power_steps mode num_swaths fitCoefficients lrs = Ok steps ->
  (0 < num_swaths)%nat ->
  steps !! 0%nat = Some (Fin 0)
  /\ forall i, (i < num_swaths - 1)%nat ->
       exists v, calval_step mode fitCoefficients lrs i v /\ steps !! S i = Some v.
Proof.
  intros Hrun Hpos. unfold CalVal.power_steps in Hrun.
  eapply (steps_loop _ (calval_step mode fitCoefficients lrs)) in Hrun.
  - destruct Hrun as [_ [Hlow Hhigh]]. split.
    + rewrite (Hlow 0%nat) by lia.
      destruct num_swaths; [lia | reflexivity].
    + intros i Hi. apply Hhigh. lia.
  - intros bp i bp' Hbody.
    destruct (list_getitem fitCoefficients (Z.of_nat i)) as [left |] eqn:El;
      [| discriminate].
    cbn [rbind] in Hbody. unfold py_getitem in Hbody.
    destruct (lrs !! subswathID mode (S i)) as [boundary |] eqn:Eb; [| discriminate].
    cbn [rbind] in Hbody.
    destruct (list_getitem fitCoefficients (Z.of_nat i + 1)) as [right |] eqn:Er;
      [| discriminate].
    cbn [rbind] in Hbody.
    exists (power_step left right (of_Z boundary)). split; [| exact Hbody].
    exists left, right, boundary.
    replace (Z.of_nat i + 1)%Z with (Z.of_nat (S i)) in Er by lia.
    apply list_getitem_nat in El, Er. auto.
Qed.

(** C9, as amended.  In both power-balancing fits, whenever the block (or
    line) is processed to its end: the array of steps holds 0 for the first
    subswath and, for each interswath boundary, the difference of the two
    adjacent fitted lines evaluated at the boundary pixel; the balancing
    coefficients are the cumulative sum of the steps plus a global bias,
    the NaN-ignoring mean of raw noise minus balanced noise over the pixels
    of the subswaths of index 2 and more; and the resulting offset of the
    first subswath is that bias (it is zero before the bias is added). *)
Theorem balancingPower_cumulative_plus_bias :
  (forall self fitCoefficients interswathBounds blockShape blockSWI blockN0 blockRN0 bp,
     Image.balancingPower_of_block self fitCoefficients interswathBounds
       blockShape blockSWI blockN0 blockRN0 = Ok bp ->
     exists steps balanced,
       Image.power_steps fitCoefficients interswathBounds = Ok steps
       /\ steps !! 0%nat = Some (Fin 0)
       /\ (forall li, (li < 4)%nat ->
             exists v, image_step fitCoefficients interswathBounds li v
                       /\ steps !! S li = Some v)
       /\ Image.balanced_noise self (np_cumsum steps) blockSWI blockN0 = Ok balanced
       /\ bp = map (fun b => fadd b (Image.powerBias blockShape blockSWI blockRN0 balanced))
                 (np_cumsum steps)
       /\ bp !! 0%nat
          = Some (fadd (Fin 0) (Image.powerBias blockShape blockSWI blockRN0 balanced)))
  /\
  (forall mode swath_ids fitCoefficients frs lrs crop pixels blockN0 blockRN0 bp,
     CalVal.balancingPower_of_line mode swath_ids fitCoefficients frs lrs crop pixels
       blockN0 blockRN0 = Ok bp ->
     swath_ids <> [] ->
     exists steps balanced bias,
       CalVal.power_steps mode (length swath_ids) fitCoefficients lrs = Ok steps
       /\ steps !! 0%nat = Some (Fin 0)
       /\ (forall i, (i < length swath_ids - 1)%nat ->
             exists v, calval_step mode fitCoefficients lrs i v /\ steps !! S i = Some v)
       /\ CalVal.balanced_noise mode swath_ids (np_cumsum steps) frs lrs crop pixels blockN0
          = Ok balanced
       /\ CalVal.powerBias mode frs crop pixels blockRN0 balanced = Ok bias
       /\ bp = map (fun b => fadd b bias) (np_cumsum steps)
       /\ bp !! 0%nat = Some (fadd (Fin 0) bias)).
Proof.
  split.
  - intros self fitCoefficients interswathBounds blockShape blockSWI blockN0 blockRN0 bp Hrun.
    unfold Image.balancingPower_of_block in Hrun.
    destruct (Image.power_steps fitCoefficients interswathBounds) as [steps |] eqn:Es;
      [| discriminate].
    cbn [rbind] in Hrun.
    destruct (Image.balanced_noise self (np_cumsum steps) blockSWI blockN0)
      as [balanced |] eqn:Eb; [| discriminate].
    cbn [rbind] in Hrun. injection Hrun as <-.
    destruct (image_power_steps _ _ _ Es) as [H0 Hsteps].
    exists steps, balanced. repeat (split; [first [reflexivity | assumption] |]).
    rewrite list_lookup_fmap, np_cumsum_head, H0. reflexivity.
  - intros mode swath_ids fitCoefficients frs lrs crop pixels blockN0 blockRN0 bp Hrun Hne.
    unfold CalVal.balancingPower_of_line in Hrun.
    destruct (CalVal.power_steps mode (length swath_ids) fitCoefficients lrs)
      as [steps |] eqn:Es; [| discriminate].
    cbn [rbind] in Hrun.
    destruct (CalVal.balanced_noise mode swath_ids (np_cumsum steps) frs lrs crop pixels
                blockN0) as [balanced |] eqn:Eb; [| discriminate].
    cbn [rbind] in Hrun.
    destruct (CalVal.powerBias mode frs crop pixels blockRN0 balanced) as [bias |] eqn:Ebias;
      [| discriminate].
    cbn [rbind] in Hrun. injection Hrun as <-.
    assert (Hpos : (0 < length swath_ids)%nat)
      by (destruct swath_ids; [congruence | simpl; lia]).
    destruct (calval_power_steps _ _ _ _ _ Es Hpos) as [H0 Hsteps].
    exists steps, balanced, bias. repeat (split; [first [reflexivity | assumption] |]).
    rewrite list_lookup_fmap, np_cumsum_head, H0. reflexivity.
Qed.

Lemma balancingPower_cumulative_plus_bias_witness :
  exists bp steps bias,
    c9_line = Ok bp
    /\ CalVal.power_steps IW 3 c9_fit c9_lrs = Ok steps
    /\ steps !! 0%nat = Some (Fin 0)
    /\ bp = map (fun b => fadd b bias) (np_cumsum steps)
    /\ bp !! 0%nat = Some (fadd (Fin 0) bias).
Proof.
  destruct c9_line as [bp | e] eqn:E; [| vm_compute in E; discriminate E].
  destruct (proj2 balancingPower_cumulative_plus_bias IW [1; 2; 3]%nat c9_fit c9_frs c9_lrs
              0%Z c9_pixels (replicate 6 (Fin 1)) (replicate 6 (Fin 2)) bp E
              ltac:(discriminate))
    as [steps [balanced [bias [Hs [H0 [_ [_ [_ [Hbp Hfirst]]]]]]]]].
  exists bp, steps, bias. auto.
Defined.

(** C9 fails as stated.  On the line of three subswaths the steps are 0, 1
    and 2, their cumulative sum is 0, 1, 3, the bias over the subswaths 2
    and 3 is -1, and the returned offset of the first subswath is -1, not
    zero.  On the block of five subswaths the cumulative sum is 0, 1, 3, 6,
    10, the bias is -4 and the returned offset of the first subswath is
    -4. *)
Lemma first_subswath_offset_not_zero :
  sameb (first_offset c9_line) (Fin (- (1))) = true
  /\ sameb (first_offset c9_block) (Fin (- (4))) = true.
Proof. split; vm_compute; reflexivity. Qed.

(** ** Records and subswaths without usable samples (C7) *)

Section ReconstructionProperties.

Variable K : kernels.

Lemma interpolated_row_skips usable (r : sparseRecord) (xBins : list Z) valid :
  usable r = Ok valid ->
  count_true valid = 0%nat ->
  interpolated_row K usable r xBins = Ok (nan_row (length xBins)).
Proof.
  intros Hu Hc. unfold interpolated_row. rewrite Hu. cbn [rbind].
  rewrite Hc. reflexivity.
Qed.

Lemma shifted_row_skips shp swi iSW elevation pattern loss (r : sparseRecord)
    (xBins : list Z) valid :
  usable_noise_samples shp swi iSW r = Ok valid ->
  count_true valid = 0%nat ->
  shifted_row K shp swi iSW elevation pattern loss r xBins = Ok (nan_row (length xBins)).
Proof.
  intros Hu Hc. unfold shifted_row. rewrite Hu. cbn [rbind].
  rewrite Hc. reflexivity.
Qed.

Lemma np_sum_nan_row (n : nat) : np_sum (nan_row (S n)) = NaN.
Proof. reflexivity. Qed.

(** A row that reaches the bilinear interpolation has a finite sum; on a
    pixel axis that is not empty it is not the row of a skipped record. *)
Lemma finite_rows_sum records zi (r : sparseRecord) (row : list float64) :
  (r, row) ∈ finite_rows records zi ->
  (r, row) ∈ combine records zi /\ isfinite (np_sum row) = true.
Proof.
  unfold finite_rows. rewrite list_elem_of_filter. simpl. tauto.
Qed.

Lemma finite_rows_drop_skipped records zi (r : sparseRecord) (n : nat) :
  (r, nan_row (S n)) ∉ finite_rows records zi.
Proof.
  intros H. apply finite_rows_sum in H as [_ H].
  rewrite np_sum_nan_row in H. discriminate.
Qed.

Section Loop.

Variable swi : indexmap.
Variable swathBounds : nat -> list swathBound.
Variable table : list sparseRecord.
Variable row : nat -> sparseRecord -> list Z -> result (list float64).

(** A pixel that belongs to none of the subswaths of the loop keeps its
    value. *)
Lemma rasterize_loop_outside (subswaths : list nat) : forall (m0 m : raster),
  for_each subswaths (rasterize_subswath K swi swathBounds table row) m0 = Ok m ->
  forall i j,
    (forall iSW, iSW ∈ subswaths -> swi i j <> N.of_nat iSW) ->
    m i j = m0 i j.
Proof.
  induction subswaths as [| a l IH]; intros m0 m Hrun i j Hout.
  - injection Hrun as <-. reflexivity.
  - cbn [for_each] in Hrun. unfold rasterize_subswath in Hrun at 1.
    destruct (subswath_interpolant K swathBounds table row a) as [f |] eqn:Ef;
      [| discriminate].
    cbn [rbind] in Hrun.
    rewrite (IH _ _ Hrun i j) by (intros iSW Hin; apply Hout; right; exact Hin).
    destruct (N.eqb_spec (swi i j) (N.of_nat a)) as [Heq | _]; [| reflexivity].
    exfalso. apply (Hout a); [left | exact Heq].
Qed.

(** A pixel of a subswath of the loop holds the value of the interpolation
    built for that subswath. *)
Lemma rasterize_loop_inside (subswaths : list nat) : forall (m0 m : raster),
  NoDup subswaths ->
  for_each subswaths (rasterize_subswath K swi swathBounds table row) m0 = Ok m ->
  forall iSW, iSW ∈ subswaths ->
    exists interpFunc,
      subswath_interpolant K swathBounds table row iSW = Ok interpFunc
      /\ forall i j, swi i j = N.of_nat iSW -> m i j = interpFunc (of_nat j) (of_nat i).
Proof.
  induction subswaths as [| a l IH]; intros m0 m Hnd Hrun iSW Hin.
  - inversion Hin.
  - apply NoDup_cons in Hnd as [Ha Hnd].
    cbn [for_each] in Hrun. unfold rasterize_subswath in Hrun at 1.
    destruct (subswath_interpolant K swathBounds table row a) as [f |] eqn:Ef;
      [| discriminate].
    cbn [rbind] in Hrun.
    apply elem_of_cons in Hin as [-> | Hin].
    + exists f. split; [exact Ef |]. intros i j Hij.
      rewrite (rasterize_loop_outside l _ _ Hrun i j).
      * rewrite Hij, N.eqb_refl. reflexivity.
      * intros iSW Hl Heq. rewrite Hij in Heq. apply Nat2N.inj in Heq.
        subst iSW. contradiction.
    + exact (IH _ _ Hnd Hrun iSW Hin).
Qed.

End Loop.

Lemma azimuth_block_keeps_nan shp (m m' : raster) (b : noiseAzimuthBlock) (i j : nat) :
  azimuth_block K shp m b = Ok m' -> m i j = NaN -> m' i j = NaN.
Proof.
  intros Hrun Hnan. unfold azimuth_block in Hrun.
  destruct (map_result _ _) as [rows |]; [| discriminate].
  cbn [rbind] in Hrun.
  destruct (az_lut b) as [line z | lines zs].
  - injection Hrun as <-. rewrite Hnan.
    destruct (last_selecting _ _ i); [| reflexivity].
    destruct (in_slice _ _ _ j); reflexivity.
  - destruct (InterpolatedUnivariateSpline K _ zs 1) as [f |]; [| discriminate].
    cbn [rbind] in Hrun.
    destruct (_ <? 0)%Z; [discriminate |].
    destruct (negb _); [discriminate |].
    injection Hrun as <-. rewrite Hnan.
    destruct (last_selecting _ _ i); [| reflexivity].
    destruct (in_slice _ _ _ j); reflexivity.
Qed.

Lemma azimuth_blocks_keep_nan shp (blocks : list noiseAzimuthBlock) (i j : nat) :
  forall (m m' : raster),
    for_each blocks (azimuth_block K shp) m = Ok m' -> m i j = NaN -> m' i j = NaN.
Proof.
  induction blocks as [| b l IH]; intros m m' Hrun Hnan.
  - injection Hrun as <-. exact Hnan.
  - cbn [for_each] in Hrun.
    destruct (azimuth_block K shp m b) as [m1 |] eqn:E1; [| discriminate].
    cbn [rbind] in Hrun. apply (IH _ _ Hrun).
    exact (azimuth_block_keeps_nan _ _ _ _ _ _ E1 Hnan).
Qed.

Lemma azimuth_loops_keep_nan shp (blocksOf : nat -> list noiseAzimuthBlock)
    (subswaths : list nat) (i j : nat) :
  forall (m m' : raster),
    for_each subswaths (fun m iSW => for_each (blocksOf iSW) (azimuth_block K shp) m) m
    = Ok m' ->
    m i j = NaN -> m' i j = NaN.
Proof.
  induction subswaths as [| a l IH]; intros m m' Hrun Hnan.
  - injection Hrun as <-. exact Hnan.
  - cbn [for_each] in Hrun.
    destruct (for_each (blocksOf a) (azimuth_block K shp) m) as [m1 |] eqn:E1;
      [| discriminate].
    cbn [rbind] in Hrun. apply (IH _ _ Hrun).
    exact (azimuth_blocks_keep_nan _ _ _ _ _ _ E1 Hnan).
Qed.

End ReconstructionProperties.

(** A loop does not return when one of its passes cannot. *)
Lemma for_each_fails {A S : Type} (body : S -> A -> result S) (a : A) (l : list A) :
  (forall s, succeeds (body s a) = false) ->
  a ∈ l ->
  forall s, succeeds (for_each l body s) = false.
Proof.
  intros Hfail. induction l as [| x l IH]; intros Hin s; [inversion Hin |].
  cbn [for_each]. apply elem_of_cons in Hin as [<- | Hin].
  - specialize (Hfail s). destruct (body s a); [discriminate | reflexivity].
  - destruct (body s x) as [s1 |]; [| reflexivity]. cbn [rbind]. apply IH. exact Hin.
Qed.

Lemma map_result_rows {A B : Type} (f : A -> result B) (g : A -> B) (xs : list A) :
  (forall x, x ∈ xs -> f x = Ok (g x)) -> map_result f xs = Ok (map g xs).
Proof.
  induction xs as [| x xs IH]; intros H; [reflexivity |].
  cbn [map_result map]. rewrite (H x) by left. cbn [rbind].
  rewrite IH by (intros y Hy; apply H; right; exact Hy). reflexivity.
Qed.

(** A bilinear spline is built on two nodes at least along each axis. *)
Lemma RectBivariateSpline_needs_two K (x y : list float64) (z : list (list float64))
    (f : float64 -> float64 -> float64) :
  RectBivariateSpline K x y z 1 1 = Ok f -> (1 < length x)%nat /\ (1 < length y)%nat.
Proof.
  unfold RectBivariateSpline.
  destruct (strictly_increasing x); cbn [negb]; [| intros H; discriminate H].
  destruct (strictly_increasing y); cbn [negb]; [| intros H; discriminate H].
  destruct (forallb _ z); cbn [negb]; [| intros H; discriminate H].
  destruct (length z =? length y)%nat; cbn [negb]; [| intros H; discriminate H].
  destruct (1 <? length x)%nat eqn:Ex; cbn [negb]; [| intros H; discriminate H].
  destruct (1 <? length y)%nat eqn:Ey; cbn [negb]; [| intros H; discriminate H].
  intros _. split; apply Nat.ltb_lt; assumption.
Qed.

(** When every record of the table leaves its row of [zi] as initialised,
    no row is finite and the bilinear interpolation of the subswath is not
    built. *)
Lemma subswath_interpolant_without_samples K (bounds : nat -> list swathBound)
    (table : list sparseRecord) row (iSW : nat) :
  (forall r xBins, r ∈ table -> row iSW r xBins = Ok (nan_row (length xBins))) ->
  succeeds (subswath_interpolant K bounds table row iSW) = false.
Proof.
  intros Hrow. unfold subswath_interpolant.
  destruct (records_of_subswath (bounds iSW) table) as [records |] eqn:Er;
    [| reflexivity].
  cbn [rbind].
  destruct (subswath_xBins (bounds iSW)) as [xBins |]; [| reflexivity].
  cbn [rbind].
  assert (Hsub : forall r, r ∈ records -> r ∈ table).
  { unfold records_of_subswath in Er.
    destruct (py_min _); [| discriminate Er]. cbn [rbind] in Er.
    destruct (py_max _); [| discriminate Er]. cbn [rbind] in Er.
    injection Er as <-. intros r Hr. apply list_elem_of_filter in Hr. tauto. }
  rewrite (map_result_rows _ (fun _ => nan_row (length xBins)) records)
    by (intros r Hr; apply Hrow, Hsub, Hr).
  cbn [rbind].
  match goal with
  | |- succeeds ?spline = false => destruct spline as [f |] eqn:Ef; [| reflexivity]
  end.
  exfalso. apply RectBivariateSpline_needs_two in Ef as [Hx Hy].
  rewrite length_map in Hx. rewrite length_map in Hy.
  destruct (finite_rows records (map (fun _ => nan_row (length xBins)) records))
    as [| [r rowp] kept] eqn:Ek; [simpl in Hy; lia |].
  assert (Hp : (r, rowp) ∈ finite_rows records
                               (map (fun _ => nan_row (length xBins)) records))
    by (rewrite Ek; left).
  apply finite_rows_sum in Hp as [Hc Hfin].
  apply list_elem_of_In, in_combine_r, in_map_iff in Hc as [r' [<- _]].
  destruct (length xBins) as [| n]; [lia |].
  rewrite np_sum_nan_row in Hfin. discriminate Hfin.
Qed.

(** C7.  When, for one subswath of the mode, no record of the table has a
    usable sample (every record takes the [continue] of the loop and its
    row of [zi] stays NaN), neither [calibrationVectorMap] nor
    [noiseVectorMap], with or without LUT shift, returns a map: the span of
    the subswath is not left as NaN, the bilinear interpolation is built on
    no row and raises. *)
Theorem reconstruction_raises_without_samples K self pol swi (iSW : nat) :
  self_subswathIndexMap self pol = Ok swi ->
  iSW ∈ subswathRange (obsMode self) ->
  (forall table,
     import_calibrationVector self pol = Ok table ->
     (forall r, r ∈ table ->
        exists valid, usable_samples (shape self) swi iSW r = Ok valid
                      /\ count_true valid = 0%nat) ->
     succeeds (calibrationVectorMap K self pol) = false)
  /\ (forall table blocks lutShift,
        import_noiseVector self pol = Ok (table, blocks) ->
        (forall r, r ∈ table ->
           exists valid, usable_noise_samples (shape self) swi iSW r = Ok valid
                         /\ count_true valid = 0%nat) ->
        succeeds (noiseVectorMap K self pol lutShift) = false).
Proof.
  intros Hswi Hin. split.
  - intros table Htable Hvoid. unfold calibrationVectorMap. rewrite Htable. cbn [rbind].
    destruct (import_swathBounds self pol) as [bounds |]; [| reflexivity].
    cbn [rbind]. rewrite Hswi. cbn [rbind].
    apply (for_each_fails _ iSW); [| exact Hin].
    intros m. unfold rasterize_subswath.
    match goal with
    | |- succeeds (rbind ?interp _) = false =>
        assert (Hi : succeeds interp = false);
        [| destruct interp; [discriminate Hi | reflexivity]]
    end.
    apply subswath_interpolant_without_samples. intros r xBins Hr.
    destruct (Hvoid r Hr) as [valid [Hu Hc]].
    exact (interpolated_row_skips K _ r xBins valid Hu Hc).
  - intros table blocks lutShift Htable Hvoid. unfold noiseVectorMap.
    rewrite Htable. cbn [rbind fst snd].
    destruct (import_swathBounds self pol) as [bounds |]; [| reflexivity].
    cbn [rbind]. rewrite Hswi. cbn [rbind].
    match goal with
    | |- succeeds (rbind ?ranged _) = false =>
        assert (Hr : succeeds ranged = false);
        [| destruct ranged; [discriminate Hr | reflexivity]]
    end.
    destruct lutShift.
    + destruct (self_geolocationGridPointInterpolator self pol "elevationAngle");
        [| reflexivity].
      cbn [rbind].
      destruct (self_elevationAntennaPatternInterpolator self pol); [| reflexivity].
      cbn [rbind].
      destruct (self_rangeSpreadingLossInterpolator self pol); [| reflexivity].
      cbn [rbind]. apply (for_each_fails _ iSW); [| exact Hin].
      intros m. unfold rasterize_subswath.
      match goal with
      | |- succeeds (rbind ?interp _) = false =>
          assert (Hi : succeeds interp = false);
          [| destruct interp; [discriminate Hi | reflexivity]]
      end.
      apply subswath_interpolant_without_samples. intros r xBins Hr.
      destruct (Hvoid r Hr) as [valid [Hu Hc]].
      exact (shifted_row_skips K _ _ _ _ _ _ r xBins valid Hu Hc).
    + apply (for_each_fails _ iSW); [| exact Hin].
      intros m. unfold rasterize_subswath.
      match goal with
      | |- succeeds (rbind ?interp _) = false =>
          assert (Hi : succeeds interp = false);
          [| destruct interp; [discriminate Hi | reflexivity]]
      end.
      apply subswath_interpolant_without_samples. intros r xBins Hr.
      destruct (Hvoid r Hr) as [valid [Hu Hc]].
      exact (interpolated_row_skips K _ r xBins valid Hu Hc).
Qed.

Example c7_index_map_row :
  map (c7_swi 1%nat) (seq 0 12) = [1; 1; 1; 1; 2; 2; 2; 2; 3; 3; 3; 3]%N.
Proof. vm_compute. reflexivity. Qed.

(** In the image [c7_void] the three records hold zeros over the first
    subswath: none has a usable sample there, and neither map is
    returned. *)
Lemma reconstruction_raises_without_samples_witness :
  succeeds (calibrationVectorMap trial_kernels c7_void HV) = false
  /\ succeeds (noiseVectorMap trial_kernels c7_void HV false) = false
  /\ succeeds (subswathIndexMap c7_void HV) = true.
Proof.
  destruct (reconstruction_raises_without_samples trial_kernels c7_void HV c7_swi 1%nat
              eq_refl ltac:(left)) as [Hcal Hnoise].
  split; [| split; [| reflexivity]].
  - apply (Hcal _ eq_refl). intros r Hr.
    rewrite !elem_of_cons in Hr.
    destruct Hr as [-> | [-> | [-> | Hr]]]; [| | | inversion Hr];
      (eexists; split; [vm_compute; reflexivity | reflexivity]).
  - apply (Hnoise _ _ false eq_refl). intros r Hr.
    rewrite !elem_of_cons in Hr.
    destruct Hr as [-> | [-> | [-> | Hr]]]; [| | | inversion Hr];
      (eexists; split; [vm_compute; reflexivity | reflexivity]).
Defined.

(** On that image the exception is the one of FITPACK, whatever the
    kernels compute. *)
Example reconstruction_raises_without_rows K :
  calibrationVectorMap K c7_void HV = Raise (FitpackError "(my>ky) failed for hidden my")
  /\ noiseVectorMap K c7_void HV false
     = Raise (FitpackError "(my>ky) failed for hidden my").
Proof. split; vm_compute; reflexivity. Qed.

(** * Properties of the further methods *)

(** ** The subswath index map *)

Lemma paint_rectangles shp (iSW : nat) (bounds : list swathBound) (i j : nat) :
  forall m : indexmap,
    foldl (fun (m : indexmap) b => fun i j =>
             if in_slice (fst shp) (firstAzimuthLine b) (lastAzimuthLine b + 1) i
                && in_slice (snd shp) (firstRangeSample b) (lastRangeSample b + 1) j
             then N.of_nat iSW else m i j) m bounds i j
    = if subswath_covers shp bounds i j then N.of_nat iSW else m i j.
Proof.
  induction bounds as [| b l IH]; intros m; [reflexivity |].
  cbn [foldl]. rewrite IH. unfold subswath_covers. cbn [existsb].
  fold (rectangle_covers shp b i j).
  destruct (existsb _ l); [rewrite orb_true_r; reflexivity |].
  rewrite orb_false_r. reflexivity.
Qed.

Lemma paint_subswaths shp (bounds : nat -> list swathBound) (i j : nat) (n : nat) :
  let m := foldl
             (fun m iSW =>
                foldl (fun (m : indexmap) b => fun i j =>
                         if in_slice (fst shp) (firstAzimuthLine b) (lastAzimuthLine b + 1) i
                            && in_slice (snd shp) (firstRangeSample b) (lastRangeSample b + 1) j
                         then N.of_nat iSW else m i j) m (bounds iSW))
             (fun _ _ => 0%N) (seq 1 n) in
  ((forall iSW, (1 <= iSW <= n)%nat -> subswath_covers shp (bounds iSW) i j = false) ->
   m i j = 0%N)
  /\ (forall iSW, (1 <= iSW <= n)%nat ->
        subswath_covers shp (bounds iSW) i j = true ->
        (forall k, (iSW < k <= n)%nat -> subswath_covers shp (bounds k) i j = false) ->
        m i j = N.of_nat iSW).
Proof.
  induction n as [| n [IH0 IH1]]; cbv zeta.
  - split; [reflexivity | intros iSW H; lia].
  - rewrite seq_S, foldl_app. cbn [foldl]. rewrite paint_rectangles.
    change (1 + n)%nat with (S n). split.
    + intros Hnone. rewrite (Hnone (S n)) by lia. apply IH0.
      intros iSW H. apply Hnone. lia.
    + intros iSW Hr Hc Hlater.
      destruct (decide (iSW = S n)) as [-> | Hne].
      * rewrite Hc. reflexivity.
      * rewrite (Hlater (S n)) by lia. apply (IH1 iSW); [lia | exact Hc |].
        intros k Hk. apply Hlater. lia.
Qed.

(** X1.  [subswathIndexMap] returns whenever the swath bounds are imported.
    A pixel that no rectangle of a subswath selects holds 0; a pixel
    selected by a rectangle of subswath [iSW] and by no rectangle of a
    subswath of higher index holds [iSW]: where subswaths overlap the
    higher index wins.  So every pixel holds 0 or a subswath index of the
    mode. *)
Theorem subswathIndexMap_highest_cover self pol bounds :
  import_swathBounds self pol = Ok bounds ->
  exists swi,
    subswathIndexMap self pol = Ok swi
    /\ forall i j,
         ((forall iSW, iSW ∈ subswathRange (obsMode self) ->
                       subswath_covers (shape self) (bounds iSW) i j = false) ->
          swi i j = 0%N)
         /\ (forall iSW, iSW ∈ subswathRange (obsMode self) ->
               subswath_covers (shape self) (bounds iSW) i j = true ->
               (forall k, k ∈ subswathRange (obsMode self) -> (iSW < k)%nat ->
                          subswath_covers (shape self) (bounds k) i j = false) ->
               swi i j = N.of_nat iSW)
         /\ (swi i j = 0%N
             \/ exists iSW, iSW ∈ subswathRange (obsMode self) /\ swi i j = N.of_nat iSW).
Proof.
  intros Himport. unfold subswathIndexMap. rewrite Himport. cbn [rbind].
  eexists. split; [reflexivity |]. intros i j.
  destruct (paint_subswaths (shape self) bounds i j (numberOfSubswaths (obsMode self)))
    as [H0 H1].
  unfold subswathRange.
  split; [| split].
  { intros Hnone. apply H0. intros iSW Hr. apply Hnone. apply elem_of_seq. lia. }
  { intros iSW Hin Hc Hlater. apply elem_of_seq in Hin.
    apply (H1 iSW); [lia | exact Hc |].
    intros k Hk. apply Hlater; [apply elem_of_seq |]; lia. }
  set (n := numberOfSubswaths (obsMode self)) in *.
  assert (Hsearch : forall m, (m <= n)%nat ->
            (forall k, (m < k <= n)%nat -> subswath_covers (shape self) (bounds k) i j = false) ->
            (forall iSW, (1 <= iSW <= n)%nat ->
                         subswath_covers (shape self) (bounds iSW) i j = false)
            \/ exists iSW, (1 <= iSW <= n)%nat
                 /\ subswath_covers (shape self) (bounds iSW) i j = true
                 /\ forall k, (iSW < k <= n)%nat ->
                      subswath_covers (shape self) (bounds k) i j = false).
  { induction m as [| m IHm]; intros Hm Hlater.
    - left. intros iSW Hr. apply Hlater. lia.
    - destruct (subswath_covers (shape self) (bounds (S m)) i j) eqn:E.
      + right. exists (S m). split; [lia | split; [exact E | exact Hlater]].
      + apply IHm; [lia |]. intros k Hk.
        destruct (decide (k = S m)) as [-> | Hne]; [exact E | apply Hlater; lia]. }
  destruct (Hsearch n (Nat.le_refl n) ltac:(intros k Hk; lia)) as [Hnone | [iSW [Hr [Hc Hl]]]].
  - left. apply H0. exact Hnone.
  - right. exists iSW. split; [apply elem_of_seq; lia |].
    apply (H1 iSW Hr Hc Hl).
Qed.

Lemma subswathIndexMap_highest_cover_witness :
  exists swi,
    subswathIndexMap c7_image HV = Ok swi
    /\ swi 1%nat 5%nat = 2%N
    /\ (swi 1%nat 5%nat = 0%N
        \/ exists iSW, iSW ∈ subswathRange IW /\ swi 1%nat 5%nat = N.of_nat iSW).
Proof.
  destruct (subswathIndexMap_highest_cover c7_image HV c7_bounds eq_refl)
    as [swi [Hrun Hpix]].
  exists swi. split; [exact Hrun |].
  destruct (Hpix 1%nat 5%nat) as [_ [Hhigh Hrange]].
  split; [| exact Hrange].
  apply (Hhigh 2%nat).
  - apply elem_of_seq. simpl. lia.
  - reflexivity.
  - intros k Hk Hlt. apply elem_of_seq in Hk. simpl in Hk.
    assert (k = 3%nat) as -> by lia. reflexivity.
Defined.

(** ** The shift estimate *)

Lemma length_arange (a b : Z) : Z.of_nat (length (arange a b)) = Z.max 0 (b - a).
Proof. unfold arange. rewrite length_map, length_seq. lia. Qed.

Lemma strictly_increasing_arange (a : Z) (n : nat) :
  strictly_increasing (map of_Z (map (fun k => (a + Z.of_nat k)%Z) (seq 0 n))) = true.
Proof.
  assert (H : forall s, strictly_increasing
                          (map of_Z (map (fun k => (a + Z.of_nat k)%Z) (seq s n))) = true).
  { induction n as [| n IH]; intros s; [reflexivity |].
    cbn [seq map]. destruct n as [| n]; [reflexivity |].
    specialize (IH (S s)). cbn [seq map] in IH |- *.
    cbn [strictly_increasing] in IH |- *. rewrite IH, andb_true_r.
    unfold of_Z, fltb. apply Qlt_bool_iff. rewrite <- Zlt_Qlt. lia. }
  apply H.
Qed.

Lemma argmax_from_bound (xs : list float64) : forall best bestv k,
  (best < k)%nat -> (argmax_from best bestv k xs < k + length xs)%nat.
Proof.
  induction xs as [| x xs IH]; intros best bestv k Hb; cbn [argmax_from length].
  - lia.
  - destruct (isnan bestv); [lia |].
    destruct (isnan x || fltb bestv x).
    + specialize (IH k x (S k) ltac:(lia)). lia.
    + specialize (IH best bestv (S k) ltac:(lia)). lia.
Qed.

Lemma np_argmax_bound (xs : list float64) (k : nat) :
  np_argmax xs = Ok k -> (k < length xs)%nat.
Proof.
  destruct xs as [| x xs]; [discriminate |].
  intros [= <-]. pose proof (argmax_from_bound xs 0 x 1 ltac:(lia)). simpl. lia.
Qed.

(** X2.  [est_shift] needs at least four lags: when [test] is not at least
    three samples longer than [reference] it raises (the grid of the
    oversampling has a negative size, or the cubic spline has too few
    nodes), whatever the correlations are. *)
Theorem est_shift_needs_four_lags K (reference test : list float64) :
  (lag_count reference test < 4)%Z ->
  succeeds (est_shift K reference test 10) = false.
Proof.
  unfold lag_count. intros Hn. unfold est_shift.
  set (lref := Z.of_nat (length reference)) in *.
  set (lags := arange 0 (Z.of_nat (length test) - lref + 1)).
  assert (Hlen : Z.of_nat (length lags) = Z.max 0 (Z.of_nat (length test) - lref + 1)).
  { unfold lags. rewrite length_arange. f_equal. lia. }
  rewrite length_map.
  set (n := Z.of_nat (length lags)) in *.
  unfold linspace0.
  destruct ((n - 1) * 10 + 1 <? 0)%Z eqn:Eneg; [reflexivity |].
  apply Z.ltb_ge in Eneg.
  assert (H1 : (1 <= n < 4)%Z) by lia.
  assert (Hspline : forall cc : list float64,
             length cc = length lags ->
             succeeds (InterpolatedUnivariateSpline K (map of_Z (arange 0 n)) cc 3) = false).
  { intros cc Hcc. unfold InterpolatedUnivariateSpline.
    unfold arange. rewrite strictly_increasing_arange. cbn [negb].
    rewrite !length_map, length_seq.
    replace (Z.to_nat (n - 0)) with (length lags) by (unfold n; lia).
    rewrite Hcc, Nat.eqb_refl. cbn [negb].
    assert (E : (3 <? length lags)%nat = false) by (apply Nat.ltb_ge; unfold n in H1; lia).
    rewrite E. reflexivity. }
  specialize (Hspline (map (fun lag => np_corrcoef K reference (py_slice test lag (lag + lref)))
                         lags) ltac:(apply length_map)).
  destruct ((n - 1) * 10 + 1 =? 1)%Z; cbn [rbind];
    destruct (InterpolatedUnivariateSpline K _ _ 3); [discriminate | reflexivity
                                                     | discriminate | reflexivity].
Qed.

Lemma est_shift_needs_four_lags_witness :
  succeeds (est_shift trial_kernels [Fin 1; Fin 2] [Fin 1; Fin 2; Fin 3] 10) = false.
Proof.
  apply (est_shift_needs_four_lags trial_kernels [Fin 1; Fin 2] [Fin 1; Fin 2; Fin 3]).
  reflexivity.
Defined.

Lemma linspace0_lookup (stop : Q) (num : Z) (xi : list float64) (k : nat) :
  (1 < num)%Z ->
  linspace0 (Fin stop) num = Ok xi ->
  (k < length xi)%nat ->
  length xi = Z.to_nat num
  /\ xi !! k = Some (Fin (inject_Z (Z.of_nat k) * (stop / inject_Z (num - 1)))).
Proof.
  intros Hnum Hrun Hk. unfold linspace0 in Hrun.
  assert (E1 : (num <? 0)%Z = false) by (apply Z.ltb_ge; lia).
  assert (E2 : (num =? 1)%Z = false) by (apply Z.eqb_neq; lia).
  rewrite E1, E2 in Hrun. injection Hrun as <-.
  rewrite length_map, length_seq in Hk |- *. split; [reflexivity |].
  rewrite list_lookup_fmap, lookup_seq_lt by exact Hk. cbn [fmap option_fmap option_map].
  unfold of_nat, of_Z, fdiv, fmul.
  assert (E3 : Qeq_bool (inject_Z (num - 1)) 0 = false).
  { apply not_true_is_false. intros H. apply Qeq_bool_iff in H.
    unfold Qeq, inject_Z in H. simpl in H. lia. }
  rewrite E3. reflexivity.
Qed.

(** An estimate that [est_shift] returns is a point of the oversampled
    grid over [0, n], less [n // 2]; the spline it went through had at
    least four nodes. *)
Lemma est_shift_on_grid K (reference test : list float64) (d : float64) :
  est_shift K reference test 10 = Ok d ->
  let n := lag_count reference test in
  (4 <= n)%Z
  /\ exists k : nat,
       (Z.of_nat k <= 10 * (n - 1))%Z
       /\ d = Fin (inject_Z (Z.of_nat k) * (inject_Z n / inject_Z (10 * (n - 1)))
                   + - inject_Z (n / 2)).
Proof.
  intros Hrun n. unfold est_shift in Hrun. rewrite length_map in Hrun.
  assert (Hlen : Z.of_nat (length (arange 0 (Z.of_nat (length test)
                                             - Z.of_nat (length reference) + 1))) = n).
  { rewrite length_arange. unfold n, lag_count. f_equal. lia. }
  rewrite Hlen in Hrun.
  destruct (linspace0 (of_Z n) ((n - 1) * 10 + 1)) as [xi |] eqn:Exi; [| discriminate].
  cbn [rbind] in Hrun.
  destruct (InterpolatedUnivariateSpline K _ _ 3) as [f |] eqn:Ef; [| discriminate].
  assert (Hn : (4 <= n)%Z).
  { unfold InterpolatedUnivariateSpline in Ef.
    destruct (negb (strictly_increasing _)); [discriminate |].
    destruct (negb (_ =? _)%nat); [discriminate |].
    destruct (Nat.ltb_spec 3 (length (map of_Z (arange 0 n)))) as [Hlt | _];
      [| discriminate].
    rewrite length_map in Hlt. pose proof (length_arange 0 n). lia. }
  cbn [rbind] in Hrun.
  destruct (np_argmax (map f xi)) as [k |] eqn:Ek; [| discriminate].
  cbn [rbind] in Hrun. injection Hrun as <-.
  apply np_argmax_bound in Ek. rewrite length_map in Ek.
  destruct (linspace0_lookup (inject_Z n) ((n - 1) * 10 + 1) xi k ltac:(lia) Exi Ek)
    as [Hxi Hk].
  split; [exact Hn |]. exists k. split; [lia |].
  rewrite Hk. cbn [default]. unfold of_Z, fsub, fopp, fadd.
  replace ((n - 1) * 10 + 1 - 1)%Z with (10 * (n - 1))%Z by lia. reflexivity.
Qed.

(** A point [k] of a grid of [m] steps over [0, s]. *)
Lemma grid_point_range (k m s : Z) :
  (0 <= k <= m)%Z -> (0 < m)%Z -> (0 <= s)%Z ->
  (0 <= inject_Z k * (inject_Z s / inject_Z m))%Q
  /\ (inject_Z k * (inject_Z s / inject_Z m) <= inject_Z s)%Q.
Proof.
  intros Hk Hm Hs.
  assert (Hk0 : (0 <= inject_Z k)%Q) by (rewrite <- (Zle_Qle 0); lia).
  assert (Hk1 : (inject_Z k <= inject_Z m)%Q) by (rewrite <- Zle_Qle; lia).
  assert (Hpos : (0 < inject_Z m)%Q) by (rewrite <- (Zlt_Qlt 0); lia).
  assert (Hs0 : (0 <= inject_Z s)%Q) by (rewrite <- (Zle_Qle 0); lia).
  set (a := inject_Z k) in *. set (b := inject_Z m) in *. set (c := inject_Z s) in *.
  assert (Heq : (a * (c / b) == (a * c) / b)%Q) by (field; lra).
  rewrite Heq. split.
  - apply Qle_shift_div_l; [exact Hpos |]. rewrite Qmult_0_l.
    apply Qmult_le_0_compat; assumption.
  - apply Qle_shift_div_r; [exact Hpos |].
    rewrite (Qmult_comm c b). apply Qmult_le_compat_r; assumption.
Qed.

(** X3.  When [est_shift] returns, there were at least four lags and the
    estimate is a finite number between [-(n // 2)] and [n - n // 2], for
    [n] the number of lags: the maximum is searched on a grid over [0, n]
    and [n // 2] is subtracted. *)
Theorem est_shift_bounded K (reference test : list float64) (d : float64) :
  est_shift K reference test 10 = Ok d ->
  let n := lag_count reference test in
  (4 <= n)%Z
  /\ exists q, d = Fin q
       /\ (inject_Z (- (n / 2)) <= q)%Q /\ (q <= inject_Z (n - n / 2))%Q.
Proof.
  intros Hrun n. destruct (est_shift_on_grid K reference test d Hrun) as [Hn [k [Hk ->]]].
  fold n in Hn, Hk |- *. split; [exact Hn |].
  eexists. split; [reflexivity |].
  destruct (grid_point_range (Z.of_nat k) (10 * (n - 1)) n) as [H0 H1]; [lia | lia | lia |].
  set (g := (inject_Z (Z.of_nat k) * (inject_Z n / inject_Z (10 * (n - 1))))%Q) in *.
  rewrite inject_Z_opp. unfold Z.sub. rewrite inject_Z_plus, inject_Z_opp.
  split; lra.
Qed.

Lemma est_shift_bounded_witness :
  exists q,
    est_shift trial_kernels [Fin 1] [Fin 1; Fin 2; Fin 3; Fin 4] 10 = Ok (Fin q)
    /\ (inject_Z (- (4 / 2)) <= q)%Q /\ (q <= inject_Z (4 - 4 / 2))%Q.
Proof.
  destruct (est_shift trial_kernels [Fin 1] [Fin 1; Fin 2; Fin 3; Fin 4] 10) as [d |] eqn:E;
    [| vm_compute in E; discriminate E].
  destruct (est_shift_bounded trial_kernels [Fin 1] [Fin 1; Fin 2; Fin 3; Fin 4] d E)
    as [_ [q [-> Hq]]].
  exists q. split; [reflexivity | exact Hq].
Defined.

(** ** The accumulated shift of the noise vectors *)

(** After [m] passes from the initial state the accumulated shift is the sum
    of [m] estimates, each within [lo, hi]. *)
Lemma shift_steps_range (estimate : float64 -> result float64) (lo hi : Z) :
  (forall s d, estimate s = Ok d ->
     exists q, d = Fin q /\ (inject_Z lo <= q)%Q /\ (q <= inject_Z hi)%Q) ->
  forall m st,
    shift_steps estimate shift_init m = Ok st ->
    exists q, xShiftPixel st = Fin q
      /\ (inject_Z (Z.of_nat m * lo) <= q)%Q /\ (q <= inject_Z (Z.of_nat m * hi))%Q.
Proof.
  intros Hest. induction m as [| m IH]; intros st Hrun.
  - injection Hrun as <-. exists 0%Q. split; [reflexivity |].
    simpl. split; apply Qle_refl.
  - destruct (shift_steps_last estimate shift_init m st Hrun)
      as [prev [d [Hprev [Hd [_ Hx]]]]].
    destruct (IH prev Hprev) as [q [Hq [Hlo Hhi]]].
    destruct (Hest _ _ Hd) as [qd [-> [Hdlo Hdhi]]].
    rewrite Hx, Hq. exists (q + qd)%Q. split; [reflexivity |].
    replace (Z.of_nat (S m) * lo)%Z with (Z.of_nat m * lo + lo)%Z by lia.
    replace (Z.of_nat (S m) * hi)%Z with (Z.of_nat m * hi + hi)%Z by lia.
    rewrite !inject_Z_plus. split; lra.
Qed.

(** X4.  The shift that the search of [noiseVectorMap] accumulates is
    bounded by ten estimates: when the search ends normally the shift is a
    finite number between [-10 * (n // 2)] and [10 * (n - n // 2)], for [n]
    the number of lags of [est_shift]; with a reference pattern 300 samples
    shorter than [xBins] (the two buffers of 150) this is between -1500 and
    1510 pixels, whatever the noise vector and the antenna pattern are. *)
Theorem lutShift_within_ten_estimates K (referencePattern : list float64)
    (zInterpolator : float64 -> float64) (xBins : list Z) (st : shiftState) :
  finished
    (lutShiftSearch 10
       (fun shift =>
          est_shift K referencePattern
            (map (fun p => zInterpolator (fadd (of_Z p) shift)) xBins) 10)) = Ok st ->
  let n := Z.max 0 (Z.of_nat (length xBins) - Z.of_nat (length referencePattern) + 1) in
  exists q, xShiftPixel st = Fin q
    /\ (inject_Z (- (10 * (n / 2))) <= q)%Q /\ (q <= inject_Z (10 * (n - n / 2)))%Q
    /\ ((length referencePattern + 300 = length xBins)%nat ->
        (inject_Z (- 1500) <= q)%Q /\ (q <= inject_Z 1510)%Q).
Proof.
  intros Hrun n.
  set (estimate := fun shift =>
         est_shift K referencePattern
           (map (fun p => zInterpolator (fadd (of_Z p) shift)) xBins) 10) in *.
  destruct (py_while_shift estimate 10 shift_init 10 eq_refl ltac:(lia))
    as [m [Hm [Hwhile _]]].
  unfold lutShiftSearch in Hrun. rewrite Hwhile in Hrun. cbn [finished] in Hrun.
  assert (Hest : forall s d, estimate s = Ok d ->
            exists q, d = Fin q /\ (inject_Z (- (n / 2)) <= q)%Q
                      /\ (q <= inject_Z (n - n / 2))%Q).
  { intros s d Hd. unfold estimate in Hd.
    destruct (est_shift_on_grid K _ _ d Hd) as [H4 [k [Hk ->]]].
    unfold lag_count in H4, Hk |- *. rewrite length_map in H4, Hk |- *.
    fold n in H4, Hk |- *. eexists. split; [reflexivity |].
    destruct (grid_point_range (Z.of_nat k) (10 * (n - 1)) n) as [H0 H1];
      [lia | lia | lia |].
    set (g := (inject_Z (Z.of_nat k) * (inject_Z n / inject_Z (10 * (n - 1))))%Q) in *.
    rewrite inject_Z_opp. unfold Z.sub. rewrite inject_Z_plus, inject_Z_opp.
    split; lra. }
  destruct (shift_steps_range estimate (- (n / 2)) (n - n / 2) Hest m st Hrun)
    as [q [Hq [Hlo Hhi]]].
  assert (Hn : (0 <= n)%Z) by (unfold n; lia).
  assert (Hhalf : (0 <= n / 2 <= n)%Z).
  { split; [apply Z.div_pos; lia |]. apply Z.div_le_upper_bound; lia. }
  assert (Hlo' : (inject_Z (- (10 * (n / 2))) <= q)%Q).
  { eapply Qle_trans; [| exact Hlo]. rewrite <- Zle_Qle. nia. }
  assert (Hhi' : (q <= inject_Z (10 * (n - n / 2)))%Q).
  { eapply Qle_trans; [exact Hhi |]. rewrite <- Zle_Qle. nia. }
  exists q. split; [exact Hq | split; [exact Hlo' | split; [exact Hhi' |]]].
  intros Hlen.
  assert (En : n = 301%Z) by (unfold n; lia).
  rewrite En in Hlo', Hhi'. split; [exact Hlo' | exact Hhi'].
Qed.

(** With constant correlations the first estimate is [-(4 // 2)] and ends
    the search. *)
Lemma lutShift_within_ten_estimates_witness :
  exists st q,
    finished
      (lutShiftSearch 10
         (fun shift =>
            est_shift trial_kernels [Fin 1]
              (map (fun p => fadd (of_Z p) shift) [0; 1; 2; 3]%Z) 10)) = Ok st
    /\ xShiftPixel st = Fin q
    /\ (inject_Z (- (10 * (4 / 2))) <= q)%Q /\ (q <= inject_Z (10 * (4 - 4 / 2)))%Q.
Proof.
  destruct (finished
              (lutShiftSearch 10
                 (fun shift =>
                    est_shift trial_kernels [Fin 1]
                      (map (fun p => fadd (of_Z p) shift) [0; 1; 2; 3]%Z) 10)))
    as [st |] eqn:E; [| vm_compute in E; discriminate E].
  destruct (lutShift_within_ten_estimates trial_kernels [Fin 1] (fun a => a)
              [0; 1; 2; 3]%Z st E) as [q [Hq [Hlo [Hhi _]]]].
  exists st, q. split; [reflexivity | split; [exact Hq | split; [exact Hlo | exact Hhi]]].
Defined.

(** ** Subswaths without swath bounds *)

Lemma rasterize_subswath_without_bounds K swi bounds table row (m : raster) (iSW : nat) :
  bounds iSW = [] ->
  succeeds (rasterize_subswath K swi bounds table row m iSW) = false.
Proof.
  intros Hb. unfold rasterize_subswath, subswath_interpolant, records_of_subswath.
  rewrite Hb. reflexivity.
Qed.

(** X5.  [calibrationVectorMap] and [noiseVectorMap] need a swath-bounds
    rectangle for every subswath of the mode: when the imported bounds of
    one subswath are empty, neither method returns a map (the [min()] over
    the first azimuth lines has nothing to work on), although
    [subswathIndexMap] returns on the same bounds. *)
Theorem reconstruction_needs_bounds K self pol bounds (iSW : nat) :
  import_swathBounds self pol = Ok bounds ->
  iSW ∈ subswathRange (obsMode self) ->
  bounds iSW = [] ->
  succeeds (subswathIndexMap self pol) = true
  /\ succeeds (calibrationVectorMap K self pol) = false
  /\ forall lutShift, succeeds (noiseVectorMap K self pol lutShift) = false.
Proof.
  intros Himport Hin Hempty. split; [| split].
  - unfold subswathIndexMap. rewrite Himport. reflexivity.
  - unfold calibrationVectorMap. rewrite Himport.
    destruct (import_calibrationVector self pol) as [table |]; [| reflexivity].
    cbn [rbind].
    destruct (self_subswathIndexMap self pol) as [swi |]; [| reflexivity].
    cbn [rbind]. apply (for_each_fails _ iSW); [| exact Hin].
    intros m. apply rasterize_subswath_without_bounds. exact Hempty.
  - intros lutShift. unfold noiseVectorMap. rewrite Himport.
    destruct (import_noiseVector self pol) as [[noiseRange noiseAzimuth] |];
      [| reflexivity].
    cbn [rbind fst snd].
    destruct (self_subswathIndexMap self pol) as [swi |]; [| reflexivity].
    cbn [rbind].
    match goal with
    | |- succeeds (rbind ?ranged _) = false =>
        assert (Hr : succeeds ranged = false);
        [| destruct ranged; [discriminate Hr | reflexivity]]
    end.
    destruct lutShift.
    + destruct (self_geolocationGridPointInterpolator self pol "elevationAngle");
        [| reflexivity].
      cbn [rbind].
      destruct (self_elevationAntennaPatternInterpolator self pol); [| reflexivity].
      cbn [rbind].
      destruct (self_rangeSpreadingLossInterpolator self pol); [| reflexivity].
      cbn [rbind]. apply (for_each_fails _ iSW); [| exact Hin].
      intros m. apply rasterize_subswath_without_bounds. exact Hempty.
    + apply (for_each_fails _ iSW); [| exact Hin].
      intros m. apply rasterize_subswath_without_bounds. exact Hempty.
Qed.

Lemma reconstruction_needs_bounds_witness :
  succeeds (subswathIndexMap image_without_third_bounds HV) = true
  /\ succeeds (calibrationVectorMap trial_kernels image_without_third_bounds HV) = false
  /\ succeeds (noiseVectorMap trial_kernels image_without_third_bounds HV false) = false.
Proof.
  destruct (reconstruction_needs_bounds trial_kernels image_without_third_bounds HV
              (fun iSW => if (iSW =? 3)%nat then [] else c7_bounds iSW) 3%nat
              eq_refl ltac:(apply elem_of_seq; simpl; lia) eq_refl) as [H1 [H2 H3]].
  split; [exact H1 | split; [exact H2 | apply H3]].
Defined.

(** ** The hard-coded sizes of the block-wise power balancing *)

Lemma list_getitem_beyond {A : Type} (xs : list A) (i : nat) :
  (length xs <= i)%nat -> succeeds (list_getitem xs (Z.of_nat i)) = false.
Proof.
  intros H. unfold list_getitem, np_index.
  assert (E1 : (Z.of_nat i <? Z.of_nat (length xs))%Z = false) by (apply Z.ltb_ge; lia).
  assert (E2 : (Z.of_nat i <? 0)%Z = false) by (apply Z.ltb_ge; lia).
  rewrite E1, E2, !andb_false_r. reflexivity.
Qed.

(** A pass of the loop over the boundaries raises when the fitted line to
    its right is missing. *)
Lemma image_power_pass_beyond (fitCoefficients : list (float64 * float64))
    (interswathBounds : nat -> result float64) (bp : list float64) (li : nat) :
  (length fitCoefficients <= S li)%nat ->
  succeeds
    (rbind (interswathBounds li) (fun boundary =>
     rbind (list_getitem fitCoefficients (Z.of_nat li)) (fun left =>
     rbind (list_getitem fitCoefficients (Z.of_nat li + 1)) (fun right =>
     set_step bp li (power_step left right boundary))))) = false.
Proof.
  intros H. destruct (interswathBounds li); [| reflexivity]. cbn [rbind].
  destruct (list_getitem fitCoefficients (Z.of_nat li)); [| reflexivity]. cbn [rbind].
  replace (Z.of_nat li + 1)%Z with (Z.of_nat (S li)) by lia.
  pose proof (list_getitem_beyond fitCoefficients (S li) H) as E.
  destruct (list_getitem fitCoefficients (Z.of_nat (S li))); [discriminate | reflexivity].
Qed.

(** X6.  One block of [Sentinel1Image.experiment_powerBalancing] is processed
    to its end only with five fitted lines: the loop runs over four
    boundaries whatever the mode, so with fewer than five fitted lines the
    block raises. *)
Theorem image_balancing_needs_five_lines self
    (fitCoefficients : list (float64 * float64)) (interswathBounds : nat -> result float64)
    (blockShape : nat * nat) (blockSWI : indexmap) (blockN0 blockRN0 : raster) :
  (length fitCoefficients < 5)%nat ->
  succeeds (Image.balancingPower_of_block self fitCoefficients interswathBounds
              blockShape blockSWI blockN0 blockRN0) = false.
Proof.
  intros Hlen. unfold Image.balancingPower_of_block.
  assert (H : succeeds (Image.power_steps fitCoefficients interswathBounds) = false).
  { unfold Image.power_steps.
    apply (for_each_fails _ (Nat.pred (length fitCoefficients) `min` 3)%nat).
    - intros bp. apply image_power_pass_beyond. lia.
    - apply elem_of_seq. lia. }
  destruct (Image.power_steps fitCoefficients interswathBounds); [discriminate | reflexivity].
Qed.

Lemma image_balancing_needs_five_lines_witness :
  succeeds (Image.balancingPower_of_block
              (image_of_rasters IW (1, 3)%nat (fun _ j => N.of_nat (S j)) (fun _ _ => NaN)
                 (fun _ _ => NaN) (fun _ _ => NaN))
              [(Fin 0, Fin 0); (Fin 0, Fin 1); (Fin 0, Fin 3)]
              (fun li => Ok (of_nat li)) (1, 3)%nat (fun _ j => N.of_nat (S j))
              (fun _ _ => Fin 1) (fun _ _ => Fin 2)) = false.
Proof.
  apply image_balancing_needs_five_lines. simpl. lia.
Defined.

(** ** Stored correction coefficients *)

Lemma subswathRange_cases mode (a : nat) :
  a ∈ subswathRange mode ->
  a = 1%nat \/ a = 2%nat \/ a = 3%nat \/ a = 4%nat \/ a = 5%nat.
Proof. intros Ha. apply elem_of_seq in Ha. destruct mode; simpl in Ha; lia. Qed.

Lemma subswathID_inj mode (a b : nat) :
  a ∈ subswathRange mode -> b ∈ subswathRange mode ->
  subswathID mode a = subswathID mode b -> a = b.
Proof.
  intros Ha Hb.
  destruct (subswathRange_cases mode a Ha) as [-> | [-> | [-> | [-> | ->]]]];
    destruct (subswathRange_cases mode b Hb) as [-> | [-> | [-> | [-> | ->]]]];
    destruct mode; vm_compute; intros H; first [reflexivity | discriminate H].
Qed.

Lemma subswathID_not_axis mode (a : nat) :
  subswathID mode a <> "SNR" /\ subswathID mode a <> "SNNR".
Proof.
  unfold subswathID. destruct mode; split; intros H;
    apply (f_equal (fun s => String.get 0 s)) in H; vm_compute in H; discriminate H.
Qed.

(** The scaling, balancing and variance dictionaries after the loop over
    [l]: the entry of a subswath of [l] is the one its pass stored. *)
Lemma coefficients_loop_lookup dp mode key (l : list nat) (iSW : nat) :
  (forall a, a ∈ l -> a ∈ subswathRange mode) ->
  iSW ∈ l ->
  forall c0,
    let c := foldl (coefficients_step dp mode key) c0 l in
    let ID := subswathID mode iSW in
    noiseScalingParameters c !! ID
    = Some (versioned_or (dp_noiseScalingParameters dp) ID key (Fin 1))
    /\ powerBalancingParameters c !! ID
       = Some (versioned_or (dp_powerBalancingParameters dp) ID key (Fin 0))
    /\ noiseVarianceParameters c !! ID
       = Some (variance_or (dp_noiseVarianceParameters dp) ID).
Proof.
  intros Hl Hin. induction l as [| a l IH] using rev_ind; [inversion Hin |].
  intros c0. cbv zeta. rewrite foldl_app. cbn [foldl].
  set (c := foldl _ c0 l).
  destruct (decide (iSW = a)) as [-> | Hne].
  - cbn. rewrite !lookup_insert_eq. auto.
  - assert (Hin' : iSW ∈ l).
    { apply elem_of_app in Hin as [H | H]; [exact H |].
      apply list_elem_of_singleton in H. contradiction. }
    assert (Hid : subswathID mode a <> subswathID mode iSW).
    { intros E. apply Hne. symmetry.
      apply (subswathID_inj mode a iSW);
        [apply Hl; apply elem_of_app; right; left | apply Hl; apply elem_of_app; left; exact Hin'
         | exact E]. }
    cbn. rewrite !lookup_insert_ne by exact Hid.
    apply IH; [| exact Hin'].
    intros x Hx. apply Hl. apply elem_of_app. left. exact Hx.
Qed.

(** The extra-scaling dictionary after the loop over [l], when the store
    holds the SNR axis and a curve for every subswath of [l]. *)
Lemma extraScaling_loop_lookup dp mode key (d : gmap string (list float64))
    (axis : list float64) (l : list nat) :
  dp_extraScalingParameters dp = Some d ->
  d !! "SNNR" = Some axis ->
  (forall a, a ∈ l -> a ∈ subswathRange mode /\ is_Some (d !! subswathID mode a)) ->
  forall c0,
    let c := foldl (coefficients_step dp mode key) c0 l in
    (l <> [] -> extraScalingParameters c !! "SNR" = Some axis)
    /\ forall iSW, iSW ∈ l ->
         extraScalingParameters c !! subswathID mode iSW = d !! subswathID mode iSW.
Proof.
  intros Hd Haxis. induction l as [| a l IH] using rev_ind; intros Hl c0; cbv zeta.
  - split; [congruence | intros iSW Hin; inversion Hin].
  - rewrite foldl_app. cbn [foldl]. set (c := foldl _ c0 l).
    destruct (Hl a ltac:(apply elem_of_app; right; left)) as [Ha [curve Hcurve]].
    assert (Hstep : extraScalingParameters (coefficients_step dp mode key c a)
                    = <["SNR" := axis]> (<[subswathID mode a := curve]>
                                           (extraScalingParameters c))).
    { cbn. unfold extraScaling_step. rewrite Hd, Hcurve, Haxis. reflexivity. }
    rewrite Hstep. split.
    + intros _. apply lookup_insert_eq.
    + intros iSW Hin.
      destruct (subswathID_not_axis mode iSW) as [Hsnr _].
      rewrite lookup_insert_ne by (intros E; apply Hsnr; symmetry; exact E).
      destruct (decide (subswathID mode iSW = subswathID mode a)) as [E | Hne].
      * rewrite E, lookup_insert_eq. symmetry. exact Hcurve.
      * rewrite lookup_insert_ne by (intros E; apply Hne; symmetry; exact E).
        apply elem_of_app in Hin as [Hin | Hin].
        -- apply (IH ltac:(intros x Hx; apply Hl; apply elem_of_app; left; exact Hx) c0).
           exact Hin.
        -- apply list_elem_of_singleton in Hin. subst iSW. contradiction.
Qed.

(** Every failure of [strptime] is a [ValueError]. *)
Lemma strptime_compact_raises (text : string) (e : exn) :
  strptime_compact text = Raise e -> exists msg, e = ValueError msg.
Proof.
  unfold strptime_compact.
  destruct (match_groups compact_time_pattern text) as [[groups rest] |];
    [| intros [= <-]; eexists; reflexivity].
  do 7 (destruct groups as [| ? groups]; [intros [= <-]; eexists; reflexivity |]).
  destruct groups; [| intros [= <-]; eexists; reflexivity].
  repeat match goal with
         | |- context [if ?c then _ else _] => destruct c
         end;
    intros H; try discriminate H; injection H as <-; eexists; reflexivity.
Qed.

(** Reading the sensing date off the file name fails with [IndexError] on
    a name of fewer than five fields and with [ValueError] on a fifth
    field that is no date. *)
Lemma sensingDate_raises self (e : exn) :
  sensingDate self = Raise e ->
  (length (split_on 95 "" (last_component "" (filename self))) < 5)%nat
  /\ e = IndexError "list index out of range"
  \/ exists field msg,
       split_on 95 "" (last_component "" (filename self)) !! 4%nat = Some field
       /\ strptime_compact field = Raise e
       /\ e = ValueError msg.
Proof.
  unfold sensingDate.
  destruct (split_on 95 "" (last_component "" (filename self)) !! 4%nat)
    as [field |] eqn:E.
  - intros H. right. destruct (strptime_compact_raises field e H) as [msg ->].
    exists field, msg. auto.
  - intros [= <-]. left. split; [| reflexivity].
    apply lookup_ge_None in E. lia.
Qed.

(** X7.  Once the store is loaded, [import_denoisingCoefficients] raises
    what reading the sensing date off the file name raises ([IndexError]
    on a name of fewer than five fields, [ValueError] on a fifth field that
    is no date), and otherwise
    hands back what the coefficient store holds: for every subswath of the
    mode, the noise scaling and power balancing values stored for the
    subswath under the version key (['%.1f'] of the IPF version, 2.8
    standing in for S1B products of IPF 2.72 sensed from
    2017-01-16T13:42:34 on) and the stored noise variance; and, when the
    store holds the extra-scaling curve of every subswath and the SNR axis
    ['SNNR'], the curves and, under the key ['SNR'], that axis. *)
Theorem import_denoisingCoefficients_stored self pol dp :
  denoParams self pol = Ok dp ->
  exists c,
    import_denoisingCoefficients self pol
    = match sensingDate self with
      | Ok _ => Ok c
      | Raise e => Raise e
      end
    /\ (forall e, sensingDate self = Raise e ->
          (length (split_on 95 "" (last_component "" (filename self))) < 5)%nat
          /\ e = IndexError "list index out of range"
          \/ exists msg, e = ValueError msg)
    /\ forall iSW, iSW ∈ subswathRange (obsMode self) ->
         let ID := subswathID (obsMode self) iSW in
         let key := format_1f (coefficientVersion self) in
         (forall d byVersion v,
            dp_noiseScalingParameters dp = Some d -> d !! ID = Some byVersion ->
            byVersion !! key = Some v ->
            noiseScalingParameters c !! ID = Some v)
         /\ (forall d byVersion v,
               dp_powerBalancingParameters dp = Some d -> d !! ID = Some byVersion ->
               byVersion !! key = Some v ->
               powerBalancingParameters c !! ID = Some v)
         /\ (forall d v,
               dp_noiseVarianceParameters dp = Some d -> d !! ID = Some v ->
               noiseVarianceParameters c !! ID = Some v)
         /\ (forall d axis,
               dp_extraScalingParameters dp = Some d -> d !! "SNNR" = Some axis ->
               (forall k, k ∈ subswathRange (obsMode self) ->
                          is_Some (d !! subswathID (obsMode self) k)) ->
               extraScalingParameters c !! "SNR" = Some axis
               /\ extraScalingParameters c !! ID = d !! ID).
Proof.
  intros Hdp. unfold import_denoisingCoefficients. rewrite Hdp. cbn [rbind].
  eexists. split; [reflexivity |]. split.
  { intros e He. destruct (sensingDate_raises self e He) as [H | [field [msg [_ [_ H]]]]];
      [left; exact H | right; exists msg; exact H]. }
  intros iSW Hin. cbv zeta.
  set (ID := subswathID (obsMode self) iSW).
  set (key := format_1f (coefficientVersion self)).
  destruct (coefficients_loop_lookup dp (obsMode self) key (subswathRange (obsMode self)) iSW
              (fun _ H => H) Hin coefficients_init) as [Hk [Hb Hv]].
  fold ID in Hk, Hb, Hv.
  split; [| split; [| split]].
  - intros d byVersion v Hd HID Hkey. rewrite Hk. unfold versioned_or.
    rewrite Hd, HID, Hkey. reflexivity.
  - intros d byVersion v Hd HID Hkey. rewrite Hb. unfold versioned_or.
    rewrite Hd, HID, Hkey. reflexivity.
  - intros d v Hd HID. rewrite Hv. unfold variance_or. rewrite Hd, HID. reflexivity.
  - intros d axis Hd Haxis Hall.
    destruct (extraScaling_loop_lookup dp (obsMode self) key d axis
                (subswathRange (obsMode self)) Hd Haxis
                (fun a Ha => conj Ha (Hall a Ha)) coefficients_init) as [Hsnr Hcurve].
    split; [apply Hsnr | apply Hcurve; exact Hin].
    destruct (obsMode self); discriminate.
Qed.

Lemma import_denoisingCoefficients_stored_witness :
  exists c,
    import_denoisingCoefficients image_with_store HV = Ok c
    /\ noiseScalingParameters c !! "IW2" = Some (Fin 2)
    /\ powerBalancingParameters c !! "IW2" = Some (Fin (1 # 10))
    /\ extraScalingParameters c !! "SNR" = Some stored_axis
    /\ extraScalingParameters c !! "IW2" = Some [Fin 2; Fin 2; Fin 2; Fin 2].
Proof.
  destruct (import_denoisingCoefficients_stored image_with_store HV stored_coefficients
              eq_refl) as [c [Hc [_ Hall]]].
  exists c. split; [exact Hc |].
  destruct (Hall 2%nat ltac:(apply elem_of_seq; simpl; lia)) as [Hk [Hb [_ He]]].
  split; [| split].
  - eapply Hk; [reflexivity | |]; vm_compute; reflexivity.
  - eapply Hb; [reflexivity | |]; vm_compute; reflexivity.
  - destruct (He _ stored_axis eq_refl ltac:(vm_compute; reflexivity)) as [Hs Hcurve].
    + intros k Hk'. apply elem_of_seq in Hk'. simpl in Hk'.
      assert (k = 1 \/ k = 2 \/ k = 3)%nat as [-> | [-> | ->]] by lia;
        vm_compute; eauto.
    + split; [exact Hs |].
      etransitivity; [exact Hcurve | vm_compute; reflexivity].
Defined.

(** ** Loops that update the pixels subswath by subswath *)

Lemma for_each_ext {A S : Type} (f g : S -> A -> result S) (l : list A) :
  (forall s a, a ∈ l -> f s a = g s a) ->
  forall s, for_each l f s = for_each l g s.
Proof.
  induction l as [| a l IH]; intros H s; [reflexivity |].
  cbn [for_each]. rewrite (H s a) by left.
  destruct (g s a) as [s1 |]; [| reflexivity]. cbn [rbind].
  apply IH. intros s' a' Hin. apply H. right. exact Hin.
Qed.

(** A loop whose pass [a] computes a parameter and updates the pixels it
    selects, the selections of different passes being disjoint: the loop
    returns when every parameter is computed, a pixel that no pass selects
    keeps its value and a pixel that pass [a] selects is updated once, with
    the parameter of [a]. *)
Lemma exclusive_loop {X : Type} (param : nat -> result X) (sel : nat -> nat -> nat -> bool)
    (upd : X -> nat -> nat -> float64 -> float64) (l : list nat) :
  NoDup l ->
  (forall a b i j, a ∈ l -> b ∈ l -> sel a i j = true -> sel b i j = true -> a = b) ->
  (forall a, a ∈ l -> succeeds (param a) = true) ->
  forall n0 : raster, exists n : raster,
    for_each l
      (fun (n : raster) a =>
         rbind (param a) (fun x =>
         Ok (fun i j => if sel a i j then upd x i j (n i j) else n i j))) n0 = Ok n
    /\ (forall i j, (forall a, a ∈ l -> sel a i j = false) -> n i j = n0 i j)
    /\ (forall i j a x, a ∈ l -> param a = Ok x -> sel a i j = true ->
                        n i j = upd x i j (n0 i j)).
Proof.
  induction l as [| a l IH]; intros Hnd Hex Hok n0.
  - exists n0. split; [reflexivity | split; [reflexivity |]].
    intros i j a x Hin. inversion Hin.
  - apply NoDup_cons in Hnd as [Ha Hnd].
    pose proof (Hok a ltac:(left)) as Hpa.
    destruct (param a) as [xa |] eqn:Epa; [| discriminate].
    set (n1 := (fun i j => if sel a i j then upd xa i j (n0 i j) else n0 i j) : raster).
    destruct (IH Hnd
                (fun p q i j Hp Hq => Hex p q i j ltac:(right; exact Hp) ltac:(right; exact Hq))
                (fun p Hp => Hok p ltac:(right; exact Hp)) n1)
      as [n [Hrun [Hout Hin]]].
    exists n. split; [| split].
    + cbn [for_each]. rewrite Epa. cbn [rbind]. exact Hrun.
    + intros i j Hnone. rewrite Hout by (intros p Hp; apply Hnone; right; exact Hp).
      unfold n1. rewrite (Hnone a) by left. reflexivity.
    + intros i j p x Hp Hx Hsel.
      apply elem_of_cons in Hp as [-> | Hp].
      * rewrite Hout.
        -- unfold n1. rewrite Hsel. congruence.
        -- intros q Hq. destruct (sel q i j) eqn:Eq; [| reflexivity].
           exfalso. apply Ha.
           rewrite (Hex a q i j ltac:(left) ltac:(right; exact Hq) Hsel Eq). exact Hq.
      * rewrite (Hin i j p x Hp Hx Hsel). unfold n1.
        destruct (sel a i j) eqn:Ea; [| reflexivity].
        exfalso. apply Ha.
        rewrite (Hex a p i j ltac:(left) ltac:(right; exact Hp) Ea Hsel). exact Hp.
Qed.

Lemma index_selects_one (swi : indexmap) (a b i j : nat) :
  N.eqb (swi i j) (N.of_nat a) = true -> N.eqb (swi i j) (N.of_nat b) = true -> a = b.
Proof.
  rewrite !N.eqb_eq. intros Ha Hb. rewrite Ha in Hb. apply Nat2N.inj. exact Hb.
Qed.

(** ** The modified noise map *)

(** The scaling and balancing loop of [modifiedNoiseEquivalentSigma0Map]
    on the coefficients imported from the store [dp]. *)
Lemma scaling_loop_returns self pol dp swi (base : raster) (c : coefficients) :
  denoParams self pol = Ok dp ->
  import_denoisingCoefficients self pol = Ok c ->
  exists out,
    for_each (subswathRange (obsMode self))
      (fun (n : raster) iSW =>
         rbind (py_getitem (noiseScalingParameters c) (subswathID (obsMode self) iSW))
           (fun k =>
         rbind (py_getitem (powerBalancingParameters c) (subswathID (obsMode self) iSW))
           (fun b =>
         Ok (fun i j =>
               if N.eqb (swi i j) (N.of_nat iSW) then fadd (fmul (n i j) k) b else n i j))))
      base = Ok out
    /\ scaled_and_balanced self dp swi base out.
Proof.
  intros Hdp Himport.
  unfold import_denoisingCoefficients in Himport. rewrite Hdp in Himport.
  cbn [rbind] in Himport.
  destruct (sensingDate self) as [date |]; [| discriminate Himport].
  injection Himport as <-.
  set (key := format_1f (coefficientVersion self)).
  set (c := foldl _ _ _).
  assert (Hlook : forall iSW, iSW ∈ subswathRange (obsMode self) ->
             noiseScalingParameters c !! subswathID (obsMode self) iSW
             = Some (versioned_or (dp_noiseScalingParameters dp)
                       (subswathID (obsMode self) iSW) key (Fin 1))
             /\ powerBalancingParameters c !! subswathID (obsMode self) iSW
                = Some (versioned_or (dp_powerBalancingParameters dp)
                          (subswathID (obsMode self) iSW) key (Fin 0))).
  { intros iSW Hin.
    destruct (coefficients_loop_lookup dp (obsMode self) key (subswathRange (obsMode self))
                iSW (fun _ H => H) Hin coefficients_init) as [Hk [Hb _]].
    split; assumption. }
  set (param := fun iSW =>
         rbind (py_getitem (noiseScalingParameters c) (subswathID (obsMode self) iSW))
           (fun k =>
         rbind (py_getitem (powerBalancingParameters c) (subswathID (obsMode self) iSW))
           (fun b => Ok (k, b)))).
  assert (Hparam : forall iSW, iSW ∈ subswathRange (obsMode self) ->
             param iSW
             = Ok (versioned_or (dp_noiseScalingParameters dp)
                     (subswathID (obsMode self) iSW) key (Fin 1),
                   versioned_or (dp_powerBalancingParameters dp)
                     (subswathID (obsMode self) iSW) key (Fin 0))).
  { intros iSW Hin. destruct (Hlook iSW Hin) as [Hk Hb].
    unfold param, py_getitem. rewrite Hk, Hb. reflexivity. }
  assert (Hsucc : forall a, a ∈ subswathRange (obsMode self) -> succeeds (param a) = true).
  { intros a Ha. rewrite (Hparam a Ha). reflexivity. }
  destruct (exclusive_loop param (fun a i j => N.eqb (swi i j) (N.of_nat a))
              (fun (x : float64 * float64) _ _ v => fadd (fmul v (fst x)) (snd x))
              (subswathRange (obsMode self)) (NoDup_seq 1 _)
              (fun a b i j _ _ => index_selects_one swi a b i j) Hsucc
              base) as [out [Hrun [Hout Hin]]].
  exists out. split.
  - rewrite <- Hrun. apply for_each_ext. intros n a Ha.
    destruct (Hlook a Ha) as [Hk Hb]. unfold param, py_getitem. rewrite Hk, Hb. reflexivity.
  - intros i j. split.
    + intros Hnone. apply Hout. intros a Ha. apply N.eqb_neq. apply Hnone. exact Ha.
    + intros iSW Hr Hij. cbv zeta.
      rewrite (Hin i j iSW _ Hr (Hparam iSW Hr)) by (rewrite Hij; apply N.eqb_refl).
      reflexivity.
Qed.

(** X8.  Without local noise power compensation, or on a co-polarization
    channel whatever the flag, [modifiedNoiseEquivalentSigma0Map] returns
    the raw noise-equivalent sigma nought of the LUT-shifted noise vectors,
    multiplied by the scalloping gain exactly when 2.5 <= IPF < 2.9, then
    scaled and balanced subswath by subswath with the imported
    coefficients; neither [rawSigma0Map] nor the adaptive scaling takes
    part, and no key of the coefficient dictionaries is ever missing.  The
    file name is one that carries the sensing date, which the import of
    the coefficients reads. *)
Theorem modifiedNoiseEquivalentSigma0Map_scaled K self pol (lnpc : bool) dp date nesz swi :
  self_rawNoiseEquivalentSigma0Map self pol true = Ok nesz ->
  self_subswathIndexMap self pol = Ok swi ->
  denoParams self pol = Ok dp ->
  sensingDate self = Ok date ->
  lnpc && is_cross_pol pol = false ->
  (scallopingApplies self = false ->
   exists out,
     modifiedNoiseEquivalentSigma0Map K self pol lnpc = Ok out
     /\ scaled_and_balanced self dp swi nesz out)
  /\ (forall gain,
        scallopingApplies self = true ->
        self_scallopingGainMap self pol = Ok gain ->
        exists out,
          modifiedNoiseEquivalentSigma0Map K self pol lnpc = Ok out
          /\ scaled_and_balanced self dp swi (fun i j => fmul (nesz i j) (gain i j)) out).
Proof.
  intros Hnesz Hswi Hdp Hdate Hflag.
  assert (Himport : exists c, import_denoisingCoefficients self pol = Ok c).
  { unfold import_denoisingCoefficients. rewrite Hdp, Hdate. eexists. reflexivity. }
  destruct Himport as [c Hc].
  split.
  - intros Hs. unfold modifiedNoiseEquivalentSigma0Map.
    rewrite Hnesz. cbn [rbind]. rewrite Hs. cbn [rbind]. rewrite Hswi. cbn [rbind].
    rewrite Hc. cbn [rbind].
    destruct (scaling_loop_returns self pol dp swi nesz c Hdp Hc) as [out [Hrun Hout]].
    rewrite Hrun. cbn [rbind]. rewrite Hflag. exists out. split; [reflexivity | exact Hout].
  - intros gain Hs Hgain. unfold modifiedNoiseEquivalentSigma0Map.
    rewrite Hnesz. cbn [rbind]. rewrite Hs, Hgain. cbn [rbind]. rewrite Hswi. cbn [rbind].
    rewrite Hc. cbn [rbind].
    destruct (scaling_loop_returns self pol dp swi (fun i j => fmul (nesz i j) (gain i j))
                c Hdp Hc) as [out [Hrun Hout]].
    rewrite Hrun. cbn [rbind]. rewrite Hflag. exists out. split; [reflexivity | exact Hout].
Qed.

(** On the IPF 2.9 product with a complete store the middle pixel, of
    subswath 2, holds [2 * 2 + 0.1]. *)
Lemma modifiedNoiseEquivalentSigma0Map_scaled_witness :
  exists out,
    modifiedNoiseEquivalentSigma0Map trial_kernels image_with_store HV false = Ok out
    /\ sameb (out 0%nat 1%nat) (Fin (41 # 10)) = true.
Proof.
  destruct (modifiedNoiseEquivalentSigma0Map_scaled trial_kernels image_with_store HV false
              stored_coefficients 20180101000000 (raster_of [[Fin 1; Fin 2; Fin 3]])
              (fun _ j => N.of_nat (S j)) eq_refl eq_refl eq_refl eq_refl eq_refl)
    as [Hplain _].
  destruct (Hplain ltac:(vm_compute; reflexivity)) as [out [Hrun Hout]].
  exists out. split; [exact Hrun |].
  destruct (Hout 0%nat 1%nat) as [_ Hin].
  rewrite (Hin 2%nat ltac:(apply elem_of_seq; vm_compute; lia) eq_refl).
  vm_compute. reflexivity.
Defined.

(** ** The adaptive scaling *)

(** X9.  With a strictly increasing ['SNR'] axis of more than three nodes and
    one curve of the same length per subswath, [adaptiveNoiseScaling]
    returns, and changes only pixels whose windowed SNR is finite and whose
    windowed subswath index is a subswath of the mode: such a pixel is
    multiplied once, by the cubic spline of the curve of that subswath
    evaluated at its SNR; every other pixel keeps its noise value. *)
Theorem adaptiveNoiseScaling_per_subswath K self (sigma0 nesz : raster) (swi : indexmap)
    (extraScaling : gmap string (list float64)) (windowSize : nat) (axis : list float64) :
  extraScaling !! "SNR" = Some axis ->
  strictly_increasing axis = true ->
  (3 < length axis)%nat ->
  (forall iSW, iSW ∈ subswathRange (obsMode self) ->
     exists curve, extraScaling !! subswathID (obsMode self) iSW = Some curve
                   /\ length curve = length axis) ->
  exists out,
    adaptiveNoiseScaling K self sigma0 nesz swi extraScaling windowSize = Ok out
    /\ forall i j,
         let SNR := windowed_SNR K self windowSize sigma0 nesz i j in
         let meanSWindex := box_mean_u8 K windowSize (shape self) swi i j in
         (isfinite SNR = false -> out i j = nesz i j)
         /\ ((forall iSW, iSW ∈ subswathRange (obsMode self) -> meanSWindex <> N.of_nat iSW) ->
             out i j = nesz i j)
         /\ forall iSW curve,
              iSW ∈ subswathRange (obsMode self) ->
              extraScaling !! subswathID (obsMode self) iSW = Some curve ->
              isfinite SNR = true -> meanSWindex = N.of_nat iSW ->
              out i j = fmul (nesz i j) (spline_eval K 3 axis curve SNR).
Proof.
  intros Haxis Hinc Hlen Hcurves.
  set (SNR := windowed_SNR K self windowSize sigma0 nesz).
  set (meanSWindex := box_mean_u8 K windowSize (shape self) swi).
  set (param := fun iSW =>
         rbind (py_getitem extraScaling "SNR") (fun axis =>
         rbind (py_getitem extraScaling (subswathID (obsMode self) iSW)) (fun curve =>
         InterpolatedUnivariateSpline K axis curve 3))).
  assert (Hparam : forall iSW curve, iSW ∈ subswathRange (obsMode self) ->
             extraScaling !! subswathID (obsMode self) iSW = Some curve ->
             param iSW = Ok (spline_eval K 3 axis curve)).
  { intros iSW curve Hin Hc. destruct (Hcurves iSW Hin) as [curve' [Hc' Hl]].
    rewrite Hc in Hc'. injection Hc' as <-.
    unfold param, py_getitem. rewrite Haxis, Hc. cbn [rbind].
    unfold InterpolatedUnivariateSpline. rewrite Hinc. cbn [negb].
    rewrite <- Hl, Nat.eqb_refl. cbn [negb].
    destruct (Nat.ltb_spec 3 (length curve)) as [_ | Hle]; [reflexivity | lia]. }
  assert (Hsucc : forall a, a ∈ subswathRange (obsMode self) -> succeeds (param a) = true).
  { intros a Ha. destruct (Hcurves a Ha) as [curve [Hc _]].
    rewrite (Hparam a curve Ha Hc). reflexivity. }
  destruct (exclusive_loop param
              (fun a i j => isfinite (SNR i j) && N.eqb (meanSWindex i j) (N.of_nat a))
              (fun (f : float64 -> float64) i j v => fmul v (f (SNR i j)))
              (subswathRange (obsMode self)) (NoDup_seq 1 _)) with (n0 := nesz)
    as [out [Hrun [Hout Hin]]].
  - intros a b i j _ _ Ha Hb.
    apply andb_true_iff in Ha as [_ Ha]. apply andb_true_iff in Hb as [_ Hb].
    exact (index_selects_one meanSWindex a b i j Ha Hb).
  - exact Hsucc.
  - exists out. split.
    + rewrite <- Hrun. unfold adaptiveNoiseScaling. apply for_each_ext.
      intros n a Ha. unfold param.
      destruct (py_getitem extraScaling "SNR") as [ax |]; [| reflexivity]. cbn [rbind].
      destruct (py_getitem extraScaling (subswathID (obsMode self) a)) as [cu |];
        [| reflexivity].
      cbn [rbind]. reflexivity.
    + intros i j. cbv zeta. fold (SNR i j). fold (meanSWindex i j).
      split; [| split].
      * intros Hnf. apply Hout. intros a _. rewrite Hnf. reflexivity.
      * intros Hnone. apply Hout. intros a Ha.
        apply andb_false_iff. right. apply N.eqb_neq. apply Hnone. exact Ha.
      * intros iSW curve Hr Hc Hf Hm.
        apply (Hin i j iSW _ Hr (Hparam iSW curve Hr Hc)).
        rewrite Hf, Hm, N.eqb_refl. reflexivity.
Qed.

(** On one line of three pixels, one per subswath, whose signal is twice the
    noise (SNR 0 dB), the middle pixel is multiplied by the curve of the
    second subswath, which is 2 everywhere. *)
Lemma adaptiveNoiseScaling_per_subswath_witness :
  exists out,
    adaptiveNoiseScaling trial_kernels image_with_store
      (raster_of [[Fin 2; Fin 4; Fin 6]]) (raster_of [[Fin 1; Fin 2; Fin 3]])
      (fun _ j => N.of_nat (S j)) stored_curves 5 = Ok out
    /\ sameb (out 0%nat 1%nat) (Fin 4) = true.
Proof.
  destruct (adaptiveNoiseScaling_per_subswath trial_kernels image_with_store
              (raster_of [[Fin 2; Fin 4; Fin 6]]) (raster_of [[Fin 1; Fin 2; Fin 3]])
              (fun _ j => N.of_nat (S j)) stored_curves 5 stored_axis
              eq_refl eq_refl ltac:(vm_compute; lia)) as [out [Hrun Hout]].
  - intros iSW Hin. apply elem_of_seq in Hin.
    assert (Hcases : iSW = 1%nat \/ iSW = 2%nat \/ iSW = 3%nat)
      by (change (numberOfSubswaths (obsMode image_with_store)) with 3%nat in Hin; lia).
    destruct Hcases as [-> | [-> | ->]];
      (eexists; split; [vm_compute; reflexivity | reflexivity]).
  - exists out. split; [exact Hrun |].
    destruct (Hout 0%nat 1%nat) as [_ [_ Hin]].
    rewrite (Hin 2%nat [Fin 2; Fin 2; Fin 2; Fin 2]
               ltac:(apply elem_of_seq; vm_compute; lia) eq_refl eq_refl eq_refl).
    vm_compute. reflexivity.
Defined.

(** ** Raw sigma nought *)

Lemma uint32_square_exact (dn : N) : (dn < 2 ^ 16)%N -> uint32_square dn = (dn * dn)%N.
Proof.
  intros H. unfold uint32_square.
  rewrite (N.mod_small dn) by (change (2 ^ 32)%N with (2 ^ 16 * 2 ^ 16)%N; nia).
  apply N.mod_small. change (2 ^ 32)%N with (2 ^ 16 * 2 ^ 16)%N. nia.
Qed.

(** X10.  [rawSigma0Map] squares the digital numbers in [uint32]: a digital
    number below 65536 is squared exactly and the pixel is [DN^2 / cal^2],
    whereas 65536 wraps around to zero and the pixel is [0 / cal^2]. *)
Theorem rawSigma0Map_squares_sixteen_bits self pol dn cal :
  DN self pol = Ok dn ->
  self_calibrationVectorMap self pol = Ok cal ->
  exists raw,
    rawSigma0Map self pol = Ok raw
    /\ forall i j,
         ((dn i j < 65536)%N ->
          raw i j = fdiv (of_Z (Z.of_N (dn i j) * Z.of_N (dn i j))) (fmul (cal i j) (cal i j)))
         /\ (dn i j = 65536%N -> raw i j = fdiv (Fin 0) (fmul (cal i j) (cal i j))).
Proof.
  intros Hdn Hcal. unfold rawSigma0Map. rewrite Hdn, Hcal. cbn [rbind].
  eexists. split; [reflexivity |]. intros i j. split.
  - intros Hlt. rewrite uint32_square_exact by exact Hlt. rewrite N2Z.inj_mul. reflexivity.
  - intros ->. reflexivity.
Qed.

Lemma rawSigma0Map_squares_sixteen_bits_witness :
  exists raw,
    rawSigma0Map image_of_numbers HV = Ok raw
    /\ raw 0%nat 1%nat = fdiv (of_Z (300 * 300)) (fmul (Fin 2) (Fin 2))
    /\ raw 0%nat 2%nat = fdiv (Fin 0) (fmul (Fin 2) (Fin 2)).
Proof.
  destruct (rawSigma0Map_squares_sixteen_bits image_of_numbers HV
              (fun _ j => match j with 0%nat => 0 | 1%nat => 300 | _ => 65536 end)%N
              (fun _ _ => Fin 2) eq_refl eq_refl) as [raw [Hrun Hraw]].
  exists raw. split; [exact Hrun |]. split.
  - apply (proj1 (Hraw 0%nat 1%nat)). reflexivity.
  - apply (proj2 (Hraw 0%nat 2%nat)). reflexivity.
Defined.

Lemma zero_over_square (c : float64) :
  fdiv (Fin 0) (fmul c c) = NaN \/ feqb (fdiv (Fin 0) (fmul c c)) (Fin 0) = true.
Proof.
  destruct c as [| | q |]; cbn; auto.
  destruct (Qeq_bool (q * q) 0); cbn; [left; reflexivity |].
  right. apply Qeq_bool_iff. unfold Qdiv. apply Qmult_0_l.
Qed.

(** X11.  With the class's own [rawSigma0Map], the ['NERSC'] variant never
    returns a value for a pixel whose digital number is 0: whatever the
    calibration, the noise and [preserveTotalPower], the denoised pixel is
    NaN. *)
Theorem thermalNoiseRemoval_NERSC_blanks_zero_DN
    self pol lnpc (preserveTotalPower : bool) returnNESZ log dn d :
  self_rawSigma0Map self pol = rawSigma0Map self pol ->
  DN self pol = Ok dn ->
  snd (thermalNoiseRemoval self pol (PyStr "NERSC") lnpc (PyBool preserveTotalPower)
         returnNESZ log) = Ok d ->
  forall i j, dn i j = 0%N -> sigma0_of d i j = NaN.
Proof.
  intros Hbound Hdn Hrun i j Hzero.
  unfold thermalNoiseRemoval, mbind, invoke, mreturn, mraise in Hrun. simpl in Hrun.
  destruct (self_subswathIndexMap self pol) as [swi |]; [| discriminate]. simpl in Hrun.
  rewrite Hbound in Hrun. unfold rawSigma0Map in Hrun. rewrite Hdn in Hrun.
  cbn [rbind] in Hrun.
  destruct (self_calibrationVectorMap self pol) as [cal |]; [| discriminate].
  simpl in Hrun.
  destruct (self_modifiedNoiseEquivalentSigma0Map self pol lnpc) as [noise |];
    [| discriminate].
  simpl in Hrun.
  assert (Hd : sigma0_of d
               = postFilter (PyStr "NERSC")
                   (fun i j => fdiv (of_Z (Z.of_N (uint32_square (dn i j))))
                                 (fmul (cal i j) (cal i j)))
                   (noiseSubtraction (shape self) preserveTotalPower
                      (fun i j => fdiv (of_Z (Z.of_N (uint32_square (dn i j))))
                                    (fmul (cal i j) (cal i j))) noise)).
  { destruct returnNESZ; injection Hrun as <-; reflexivity. }
  rewrite Hd. unfold postFilter.
  change (py_eq_str (PyStr "NERSC") "ESA") with false.
  change (py_eq_str (PyStr "NERSC") "NERSC") with true. cbv iota beta.
  unfold noiseSubtraction. rewrite Hzero.
  change (of_Z (Z.of_N (uint32_square 0))) with (Fin 0).
  destruct (zero_over_square (cal i j)) as [E | E]; rewrite E.
  - destruct preserveTotalPower; rewrite Hzero;
      change (of_Z (Z.of_N (uint32_square 0))) with (Fin 0); rewrite E; reflexivity.
  - reflexivity.
Qed.

Lemma thermalNoiseRemoval_NERSC_blanks_zero_DN_witness :
  returned_pixel
    (thermalNoiseRemoval image_of_numbers HV (PyStr "NERSC") false (PyBool false) false [])
    0%nat 0%nat = NaN.
Proof.
  destruct (snd (thermalNoiseRemoval image_of_numbers HV (PyStr "NERSC") false
                   (PyBool false) false [])) as [d |] eqn:E;
    [| vm_compute in E; discriminate E].
  unfold returned_pixel. rewrite E.
  apply (thermalNoiseRemoval_NERSC_blanks_zero_DN image_of_numbers HV false false false []
           (fun _ j => match j with 0%nat => 0 | 1%nat => 300 | _ => 65536 end)%N d
           eq_refl eq_refl E 0%nat 0%nat eq_refl).
Defined.

(** ** The land mask *)

Lemma py_max_elem (xs : list Z) (m : Z) : py_max xs = Ok m -> m ∈ xs.
Proof.
  destruct xs as [| x rest]; [discriminate |]. intros [= <-].
  induction rest as [| y rest IH] in x |- *; cbn [foldr].
  - left.
  - destruct (Z.max_spec y (foldr Z.max x rest)) as [[_ E] | [_ E]]; rewrite E.
    + specialize (IH x). apply elem_of_cons in IH as [-> | IH].
      * left.
      * right. right. exact IH.
    + right. left.
Qed.

Lemma map_result_returns {A B : Type} (f : A -> result B) (xs : list A) :
  (forall x, x ∈ xs -> succeeds (f x) = true) ->
  exists ys, map_result f xs = Ok ys.
Proof.
  induction xs as [| x xs IH]; intros H; [exists []; reflexivity |].
  cbn [map_result]. specialize (H x ltac:(left)) as Hx.
  destruct (f x) as [y |]; [| discriminate]. cbn [rbind].
  destruct IH as [ys ->]; [intros x' Hin; apply H; right; exact Hin |].
  eexists. reflexivity.
Qed.

Lemma map_result_elem {A B : Type} (f : A -> result B) (xs : list A) (ys : list B) :
  map_result f xs = Ok ys ->
  (forall x y, x ∈ xs -> f x = Ok y -> y ∈ ys)
  /\ (forall y, y ∈ ys -> exists x, x ∈ xs /\ f x = Ok y).
Proof.
  revert ys. induction xs as [| x xs IH]; intros ys H.
  - injection H as <-. split.
    + intros x y Hin. inversion Hin.
    + intros y Hin. inversion Hin.
  - cbn [map_result] in H. destruct (f x) as [y0 |] eqn:E0; [| discriminate].
    cbn [rbind] in H. destruct (map_result f xs) as [ys0 |]; [| discriminate].
    cbn [rbind] in H. injection H as <-.
    destruct (IH ys0 eq_refl) as [IH1 IH2]. split.
    + intros x' y Hin Hy. apply elem_of_cons in Hin as [-> | Hin].
      * rewrite E0 in Hy. injection Hy as <-. left.
      * right. exact (IH1 x' y Hin Hy).
    + intros y Hin. apply elem_of_cons in Hin as [-> | Hin].
      * exists x. split; [left | exact E0].
      * destruct (IH2 y Hin) as [x' [Hx' Hy]]. exists x'. split; [right; exact Hx' | exact Hy].
Qed.

Lemma list_getitem_below {A : Type} (xs : list A) (i : nat) :
  (i < length xs)%nat -> exists x, list_getitem xs (Z.of_nat i) = Ok x /\ xs !! i = Some x.
Proof.
  intros Hi. destruct (lookup_lt_is_Some_2 xs i Hi) as [x Hx].
  exists x. split; [| exact Hx].
  unfold list_getitem, np_index.
  assert (E : (0 <=? Z.of_nat i)%Z && (Z.of_nat i <? Z.of_nat (length xs))%Z = true).
  { apply andb_true_iff. split; [apply Z.leb_le | apply Z.ltb_lt]; lia. }
  rewrite E. cbn [rbind]. rewrite Nat2Z.id, Hx. reflexivity.
Qed.

Lemma elem_of_every (step n k : nat) :
  k ∈ every step n <-> (k < n)%nat /\ (k mod step = 0)%nat.
Proof.
  unfold every. rewrite list_elem_of_filter, elem_of_seq, Nat.eqb_eq. split.
  - intros [Hm Hk]. split; [lia | exact Hm].
  - intros [Hk Hm]. split; [exact Hm | lia].
Qed.

Lemma elem_of_sampledIndices (n skipRow skip i : nat) :
  i ∈ sampledIndices n skipRow skip
  <-> exists r c, i = (21 * r + c)%nat
        /\ (r < n / 21)%nat /\ (r mod skipRow = 0)%nat
        /\ (c < 21)%nat /\ (c mod skip = 0)%nat.
Proof.
  unfold sampledIndices. rewrite list_elem_of_In, in_flat_map. split.
  - intros [r [Hr Hi]]. apply list_elem_of_In, elem_of_every in Hr.
    apply list_elem_of_In, list_elem_of_fmap in Hi as [c [-> Hc]].
    apply elem_of_every in Hc. exists r, c. tauto.
  - intros [r [c [-> [Hr1 [Hr2 [Hc1 Hc2]]]]]]. exists r. split.
    + apply list_elem_of_In, elem_of_every. tauto.
    + apply list_elem_of_In, list_elem_of_fmap. exists c. split; [reflexivity |].
      apply elem_of_every. tauto.
Qed.

(** The row step: it exists as soon as there are two rows, lies between 1
    and [skipGCP] and divides the number of rows less one. *)
Lemma skipRowGCP_spec (n : nat) (skipGCP : Z) :
  (1 <= skipGCP)%Z ->
  (succeeds (skipRowGCP n skipGCP) = true <-> (42 <= n)%nat)
  /\ forall s, skipRowGCP n skipGCP = Ok s ->
       (1 <= s <= skipGCP)%Z /\ (s < Z.of_nat (n / 21))%Z
       /\ ((Z.of_nat (n / 21) - 1) mod s = 0)%Z.
Proof.
  intros Hskip. unfold skipRowGCP.
  assert (Erows : (Z.of_nat n / 21)%Z = Z.of_nat (n / 21)).
  { rewrite (Nat2Z.inj_div n 21). reflexivity. }
  rewrite Erows. set (rows := Z.of_nat (n / 21)).
  set (l := filter _ _).
  assert (Hl : forall y, y ∈ l <->
             (1 <= y < rows)%Z /\ ((rows - 1) mod y = 0)%Z /\ (y <= skipGCP)%Z).
  { intros y. unfold l. rewrite list_elem_of_filter, andb_true_iff, Z.eqb_eq, Z.leb_le.
    unfold arange. rewrite list_elem_of_fmap. split.
    - intros [[Hm Hle] [k [-> Hk]]]. apply elem_of_seq in Hk. split; [lia | tauto].
    - intros [Hy [Hm Hle]]. split; [tauto |]. exists (Z.to_nat (y - 1)).
      split; [lia |]. apply elem_of_seq. lia. }
  split.
  - split.
    + intros Hs. destruct l as [| y l']; [discriminate |].
      assert (Hy : y ∈ y :: l') by left. apply Hl in Hy.
      assert (2 <= n / 21)%nat by (unfold rows in Hy; lia).
      pose proof (Nat.Div0.mul_div_le n 21). lia.
    + intros Hn. assert (H1 : 1%Z ∈ l).
      { apply Hl. assert (2 <= n / 21)%nat by (apply Nat.div_le_lower_bound; lia).
        split; [unfold rows; lia |]. split; [apply Z.mod_1_r | lia]. }
      destruct l; [inversion H1 | reflexivity].
  - intros s Hs. apply py_max_elem in Hs. apply Hl in Hs. lia.
Qed.

Lemma skipGCP_values (skipGCP : Z) :
  existsb (Z.eqb skipGCP) [1; 2; 4; 5]%Z = true
  <-> skipGCP = 1%Z \/ skipGCP = 2%Z \/ skipGCP = 4%Z \/ skipGCP = 5%Z.
Proof.
  cbn [existsb]. rewrite !orb_true_iff, !Z.eqb_eq. intuition discriminate.
Qed.

(** X12.  The sampling of the ground control points in [landmask] goes
    through exactly when [skipGCP] is 1, 2, 4 or 5 and the points form at
    least two complete rows of 21: a single row of 21 points makes
    [landmask] raise (the maximum of an empty list), whatever [skipGCP]. *)
Theorem landmask_needs_two_rows {GCP : Type} (originalGCPs : list GCP) (skipGCP : Z) :
  succeeds (sampledGCPs originalGCPs skipGCP) = true
  <-> (skipGCP = 1 \/ skipGCP = 2 \/ skipGCP = 4 \/ skipGCP = 5)%Z
      /\ (length originalGCPs mod 21 = 0)%nat
      /\ (42 <= length originalGCPs)%nat.
Proof.
  unfold sampledGCPs. set (n := length originalGCPs).
  destruct (existsb (Z.eqb skipGCP) [1; 2; 4; 5]%Z) eqn:Eskip; cbn [negb].
  2:{ split; [discriminate |]. intros [H _]. apply skipGCP_values in H. congruence. }
  apply skipGCP_values in Eskip as Hskip.
  destruct (Nat.eqb_spec (n / 21 * 21) n) as [Egrid | Egrid]; cbn [negb].
  2:{ split; [discriminate |]. intros [_ [Hm _]]. exfalso. apply Egrid.
      pose proof (Nat.div_mod_eq n 21). lia. }
  destruct (skipRowGCP_spec n skipGCP ltac:(lia)) as [Hsucc Hval].
  destruct (skipRowGCP n skipGCP) as [s |] eqn:Es; cbn [rbind].
  - specialize (Hval s eq_refl).
    assert (Hn : (42 <= n)%nat) by (apply Hsucc; reflexivity).
    split.
    + intros _. split; [exact Hskip |]. split; [| exact Hn].
      pose proof (Nat.div_mod_eq n 21). lia.
    + intros _.
      destruct (map_result_returns (fun i => list_getitem originalGCPs (Z.of_nat i))
                  (sampledIndices n (Z.to_nat s) (Z.to_nat skipGCP))) as [ys ->];
        [| reflexivity].
      intros i Hi. apply elem_of_sampledIndices in Hi as [r [c [-> [Hr [_ [Hc _]]]]]].
      destruct (list_getitem_below originalGCPs (21 * r + c)) as [x [-> _]];
        [fold n; lia | reflexivity].
  - split; [discriminate |]. intros [_ [_ Hn]]. apply Hsucc in Hn. discriminate.
Qed.

(** A grid of three rows is accepted with [skipGCP=4], a single row is
    not. *)
Lemma landmask_needs_two_rows_witness :
  succeeds (sampledGCPs (numbered_GCPs 3) 4) = true
  /\ succeeds (sampledGCPs (numbered_GCPs 1) 4) = false.
Proof.
  split.
  - apply (proj2 (landmask_needs_two_rows (numbered_GCPs 3) 4)).
    split; [right; right; left; reflexivity | split; [reflexivity | vm_compute; lia]].
  - destruct (succeeds (sampledGCPs (numbered_GCPs 1) 4)) eqn:E; [| reflexivity].
    apply (proj1 (landmask_needs_two_rows (numbered_GCPs 1) 4)) in E.
    destruct E as [_ [_ E]]. vm_compute in E. lia.
Defined.

Lemma every_one (n : nat) : every 1 n = seq 0 n.
Proof.
  unfold every. induction (seq 0 n) as [| k l IH]; [reflexivity |].
  rewrite filter_cons_True by (rewrite Nat.mod_1_r; reflexivity).
  rewrite IH. reflexivity.
Qed.

Lemma map_add_seq (a s n : nat) :
  map (fun c => (a + c)%nat) (seq s n) = seq (a + s) n.
Proof.
  revert s. induction n as [| n IH]; intros s; [reflexivity |].
  cbn [seq map]. rewrite IH. f_equal. f_equal. lia.
Qed.

Lemma rows_of_21 (rows : nat) :
  flat_map (fun r => map (fun c => (21 * r + c)%nat) (seq 0 21)) (seq 0 rows)
  = seq 0 (21 * rows).
Proof.
  induction rows as [| rows IH]; [reflexivity |].
  rewrite (seq_S rows 0), flat_map_app, IH. cbn [flat_map]. rewrite app_nil_r.
  replace (21 * S rows)%nat with (21 * rows + 21)%nat by lia.
  rewrite seq_app. f_equal. rewrite map_add_seq. f_equal. lia.
Qed.

Lemma getitem_all {A : Type} (pre xs : list A) :
  map_result (fun i => list_getitem (pre ++ xs) (Z.of_nat i)) (seq (length pre) (length xs))
  = Ok xs.
Proof.
  revert pre. induction xs as [| x xs IH]; intros pre; [reflexivity |].
  cbn [length seq map_result].
  destruct (list_getitem_below (pre ++ x :: xs) (length pre)) as [y [-> Hy]].
  { rewrite length_app. simpl. lia. }
  rewrite list_lookup_middle in Hy by reflexivity. injection Hy as <-.
  cbn [rbind].
  specialize (IH (pre ++ [x])). rewrite length_app in IH. simpl in IH.
  rewrite <- app_assoc in IH. simpl in IH.
  replace (length pre + 1)%nat with (S (length pre)) in IH by lia.
  rewrite IH. reflexivity.
Qed.

(** X13.  When the sampling of [landmask] goes through, the sampled ground
    control points are points of the dataset and include the four corners
    of the grid (the first and the last point of the first and of the last
    row), and with [skipGCP=1] they are all the points, in order. *)
Theorem landmask_keeps_corner_GCPs {GCP : Type} (originalGCPs sampled : list GCP)
    (skipGCP : Z) :
  sampledGCPs originalGCPs skipGCP = Ok sampled ->
  let n := length originalGCPs in
  (forall g, g ∈ sampled -> g ∈ originalGCPs)
  /\ (forall k g, k ∈ [0; 20; n - 21; n - 1]%nat -> originalGCPs !! k = Some g -> g ∈ sampled)
  /\ (skipGCP = 1%Z -> sampled = originalGCPs).
Proof.
  intros Hrun n.
  unfold sampledGCPs in Hrun. fold n in Hrun.
  destruct (existsb (Z.eqb skipGCP) [1; 2; 4; 5]%Z) eqn:Eskip; [| discriminate].
  apply skipGCP_values in Eskip as Hskip. cbn [negb] in Hrun.
  destruct (Nat.eqb_spec (n / 21 * 21) n) as [En | _]; [| discriminate].
  cbn [negb] in Hrun.
  destruct (skipRowGCP_spec n skipGCP ltac:(lia)) as [_ Hval].
  destruct (skipRowGCP n skipGCP) as [s |]; [| discriminate]. cbn [rbind] in Hrun.
  specialize (Hval s eq_refl). destruct Hval as [Hs [Hrows Hdiv]].
  destruct (map_result_elem _ _ _ Hrun) as [Hin Hout].
  assert (Hrows2 : (2 <= n / 21)%nat) by lia.
  split; [| split].
  - intros g Hg. destruct (Hout g Hg) as [i [_ Hi]].
    apply list_getitem_nat in Hi. exact (list_elem_of_lookup_2 _ _ _ Hi).
  - intros k g Hk Hg.
    apply (Hin k g); [| destruct (list_getitem_below originalGCPs k) as [x [Hx Hx']];
                        [apply lookup_lt_Some in Hg; exact Hg | congruence]].
    apply elem_of_sampledIndices.
    assert (Hlast : ((n / 21 - 1) mod Z.to_nat s = 0)%nat).
    { apply Nat2Z.inj. rewrite Nat2Z.inj_mod, Z2Nat.id by lia.
      rewrite Nat2Z.inj_sub by lia. exact Hdiv. }
    assert (Hzero : (0 mod Z.to_nat s = 0)%nat) by (apply Nat.Div0.mod_0_l).
    assert (Hc0 : (0 mod Z.to_nat skipGCP = 0)%nat) by (apply Nat.Div0.mod_0_l).
    assert (Hc20 : (20 mod Z.to_nat skipGCP = 0)%nat)
      by (destruct Hskip as [-> | [-> | [-> | ->]]]; reflexivity).
    rewrite !elem_of_cons in Hk. destruct Hk as [-> | [-> | [-> | [-> | Hk]]]].
    + exists 0%nat, 0%nat. repeat split; try assumption; lia.
    + exists 0%nat, 20%nat. repeat split; try assumption; lia.
    + exists (n / 21 - 1)%nat, 0%nat. repeat split; try assumption; lia.
    + exists (n / 21 - 1)%nat, 20%nat. repeat split; try assumption; lia.
    + inversion Hk.
  - intros ->. assert (s = 1%Z) as -> by lia.
    change (Z.to_nat 1) with 1%nat in Hrun. unfold sampledIndices in Hrun.
    rewrite !every_one, rows_of_21 in Hrun.
    replace (21 * (n / 21))%nat with n in Hrun by lia.
    pose proof (getitem_all [] originalGCPs) as Hall. simpl in Hall. fold n in Hall.
    rewrite Hall in Hrun. injection Hrun as <-. reflexivity.
Qed.

(** Of three rows of 21 points numbered from 0, [skipGCP=4] keeps the last
    point, number 62. *)
Lemma landmask_keeps_corner_GCPs_witness :
  exists sampled,
    sampledGCPs (numbered_GCPs 3) 4 = Ok sampled /\ 62%nat ∈ sampled.
Proof.
  destruct (sampledGCPs (numbered_GCPs 3) 4) as [sampled |] eqn:E;
    [| vm_compute in E; discriminate E].
  exists sampled. split; [reflexivity |].
  destruct (landmask_keeps_corner_GCPs (numbered_GCPs 3) sampled 4 E) as [_ [Hcorner _]].
  apply (Hcorner 62%nat 62%nat); [| reflexivity].
  right. right. right. left.
Defined.

Lemma map_result_length {A B : Type} (f : A -> result B) (xs : list A) (ys : list B) :
  map_result f xs = Ok ys -> length ys = length xs.
Proof.
  revert ys. induction xs as [| x xs IH]; intros ys H.
  - injection H as <-. reflexivity.
  - cbn [map_result] in H. destruct (f x); [| discriminate]. cbn [rbind] in H.
    destruct (map_result f xs) as [ys0 |]; [| discriminate]. cbn [rbind] in H.
    injection H as <-. simpl. rewrite (IH ys0 eq_refl). reflexivity.
Qed.

Lemma length_every (step n : nat) : (length (every step n) <= n)%nat.
Proof.
  unfold every. etransitivity; [apply length_filter |]. rewrite length_seq. lia.
Qed.

Lemma length_sampledIndices (n skipRow skip : nat) :
  length (sampledIndices n skipRow skip)
  = (length (every skipRow (n / 21)) * length (every skip 21))%nat.
Proof.
  unfold sampledIndices. induction (every skipRow (n / 21)) as [| r l IH]; [reflexivity |].
  cbn [flat_map]. rewrite length_app, length_map, IH. simpl. lia.
Qed.

(** X14.  [landmask] puts the original ground control points back only when
    it returns: when the sampling raises the dataset is untouched, but when
    [watermask] raises the dataset is left with the sampled points, which
    for [skipGCP] other than 1 are strictly fewer than the original ones. *)
Theorem landmask_restores_only_on_success {GCP : Type}
    (watermask : list GCP -> result (nat -> nat -> Z)) (dataset : list GCP) (skipGCP : Z) :
  let out := landmask watermask dataset skipGCP in
  (succeeds (snd out) = true -> fst out = dataset)
  /\ (forall e, sampledGCPs dataset skipGCP = Raise e -> out = (dataset, Raise e))
  /\ (forall sampled e,
        sampledGCPs dataset skipGCP = Ok sampled -> watermask sampled = Raise e ->
        out = (sampled, Raise e)
        /\ (skipGCP <> 1%Z -> (length sampled < length dataset)%nat)).
Proof.
  intros out. unfold out, landmask. split; [| split].
  - destruct (sampledGCPs dataset skipGCP) as [sampled |]; [| discriminate].
    destruct (watermask sampled); [reflexivity | discriminate].
  - intros e ->. reflexivity.
  - intros sampled e Hs Hw. rewrite Hs, Hw. split; [reflexivity |].
    intros Hne. unfold sampledGCPs in Hs. set (n := length dataset) in *.
    destruct (existsb (Z.eqb skipGCP) [1; 2; 4; 5]%Z) eqn:Eskip; [| discriminate].
    apply skipGCP_values in Eskip as Hskip. cbn [negb] in Hs.
    destruct (Nat.eqb_spec (n / 21 * 21) n) as [En | _]; [| discriminate].
    cbn [negb] in Hs.
    destruct (skipRowGCP_spec n skipGCP ltac:(lia)) as [_ Hval].
    destruct (skipRowGCP n skipGCP) as [s |]; [| discriminate]. cbn [rbind] in Hs.
    specialize (Hval s eq_refl). destruct Hval as [Hs1 [Hrows _]].
    apply map_result_length in Hs. rewrite Hs, length_sampledIndices.
    pose proof (length_every (Z.to_nat s) (n / 21)) as Hr.
    assert (Hc : (length (every (Z.to_nat skipGCP) 21) <= 11)%nat).
    { destruct Hskip as [-> | [-> | [-> | ->]]]; [congruence | | |]; vm_compute; lia. }
    assert (Hpos : (2 <= n / 21)%nat) by lia.
    apply Nat.le_lt_trans with (n / 21 * 11)%nat; [apply Nat.mul_le_mono; assumption | lia].
Qed.

(** With a [watermask] that raises, three rows of 21 points are left as the
    twelve points sampled with [skipGCP=4]. *)
Lemma landmask_restores_only_on_success_witness :
  fst (landmask (fun _ => not_provided) (numbered_GCPs 3) 4) = [0; 4; 8; 12; 16; 20;
                                                                  42; 46; 50; 54; 58; 62]%nat.
Proof.
  destruct (landmask_restores_only_on_success (fun _ => not_provided) (numbered_GCPs 3) 4)
    as [_ [_ Hraise]].
  destruct (Hraise [0; 4; 8; 12; 16; 20; 42; 46; 50; 54; 58; 62]%nat
              (KeyError "not provided") ltac:(vm_compute; reflexivity) eq_refl) as [-> _].
  reflexivity.
Defined.

(** ** The centre sample of the subswaths *)

Lemma round_half_even_between (a b : Z) (q : Q) :
  (inject_Z a <= q)%Q -> (q <= inject_Z b)%Q ->
  (a <= round_half_even q <= b)%Z.
Proof.
  intros Ha Hb. unfold round_half_even.
  pose proof (Qfloor_le q) as Hfl. pose proof (Qlt_floor q) as Hlt.
  assert (Hafl : (a <= Qfloor q)%Z).
  { rewrite <- (Qfloor_Z a). apply Qfloor_resp_le. exact Ha. }
  assert (Hflb : (Qfloor q <= b)%Z).
  { rewrite <- (Qfloor_Z b). apply Qfloor_resp_le. exact Hb. }
  assert (Hup : (inject_Z (Qfloor q) < q)%Q -> (Qfloor q + 1 <= b)%Z).
  { intros Hgt. assert (H : (inject_Z (Qfloor q) < inject_Z b)%Q) by lra.
    rewrite <- Zlt_Qlt in H. lia. }
  destruct (q - inject_Z (Qfloor q) ?= 1 # 2)%Q eqn:E.
  - apply Qeq_alt in E. destruct (Z.even (Qfloor q)); [lia |].
    split; [lia |]. apply Hup. lra.
  - lia.
  - apply Qgt_alt in E. split; [lia |]. apply Hup. lra.
Qed.

(** The weighted centre of rectangles that all have at least one line is a
    finite number between any two bounds of their range samples. *)
Lemma weightedCenter_between (bounds : list swathBound) :
  bounds <> [] ->
  (forall b, b ∈ bounds -> (firstAzimuthLine b <= lastAzimuthLine b)%Z) ->
  exists q, weightedCenter bounds = Fin q
    /\ forall lo hi,
         (forall b, b ∈ bounds ->
            (lo <= firstRangeSample b)%Z /\ (lo <= lastRangeSample b)%Z
            /\ (firstRangeSample b <= hi)%Z /\ (lastRangeSample b <= hi)%Z) ->
         (inject_Z lo <= q)%Q /\ (q <= inject_Z hi)%Q.
Proof.
  intros Hne Hall. unfold weightedCenter.
  set (lines := map (fun b => (lastAzimuthLine b - firstAzimuthLine b + 1)%Z) bounds).
  set (mids := map (fun b => fdiv (of_Z (firstRangeSample b + lastRangeSample b)) (Fin 2))
                 bounds).
  assert (Hsum : exists N,
             np_sum (zip_with (fun m n => fmul m (of_Z n)) mids lines) = Fin N
             /\ (Z.of_nat (length bounds) <= foldr Z.add 0%Z lines)%Z
             /\ forall lo hi,
                  (forall b, b ∈ bounds ->
                     (lo <= firstRangeSample b)%Z /\ (lo <= lastRangeSample b)%Z
                     /\ (firstRangeSample b <= hi)%Z /\ (lastRangeSample b <= hi)%Z) ->
                  (inject_Z lo * inject_Z (foldr Z.add 0%Z lines) <= N)%Q
                  /\ (N <= inject_Z hi * inject_Z (foldr Z.add 0%Z lines))%Q).
  { unfold lines, mids. clear Hne lines mids.
    induction bounds as [| b bounds IH].
    - exists 0%Q. split; [reflexivity |]. cbn [map foldr length].
      change (inject_Z 0) with 0%Q. split; [lia |]. intros lo hi _. split; lra.
    - destruct IH as [N [HN [Hlen Hrange]]];
        [intros b' Hb'; apply Hall; right; exact Hb' |].
      pose proof (Hall b ltac:(left)) as Hw.
      cbn [map zip_with np_sum foldr length]. unfold np_sum in HN. rewrite HN.
      unfold of_Z. cbn [fdiv]. change (Qeq_bool 2 0) with false. cbv iota.
      cbn [fmul fadd].
      eexists. split; [reflexivity |].
      set (w := (lastAzimuthLine b - firstAzimuthLine b + 1)%Z) in *.
      set (W := foldr Z.add 0%Z _) in *.
      split; [lia |]. intros lo hi Hb.
      destruct (Hb b ltac:(left)) as [H1 [H2 [H3 H4]]].
      destruct (Hrange lo hi (fun b' Hb' => Hb b' ltac:(right; exact Hb'))) as [Hlo Hhi].
      assert (Hw1 : (1 <= inject_Z w)%Q) by (rewrite <- (Zle_Qle 1); unfold w; lia).
      rewrite !inject_Z_plus.
      assert (Hm1 : (inject_Z lo <= (inject_Z (firstRangeSample b)
                                      + inject_Z (lastRangeSample b)) / 2)%Q).
      { rewrite Zle_Qle in H1, H2. apply Qle_shift_div_l; [reflexivity | lra]. }
      assert (Hm2 : ((inject_Z (firstRangeSample b) + inject_Z (lastRangeSample b)) / 2
                     <= inject_Z hi)%Q).
      { rewrite Zle_Qle in H3, H4. apply Qle_shift_div_r; [reflexivity | lra]. }
      set (m := ((inject_Z (firstRangeSample b) + inject_Z (lastRangeSample b)) / 2)%Q) in *.
      split; nra. }
  destruct Hsum as [N [HN [Hlen Hrange]]]. rewrite HN.
  set (W := foldr Z.add 0%Z lines) in *.
  assert (HW : (1 <= W)%Z).
  { destruct bounds; [congruence |]. simpl in Hlen. lia. }
  unfold of_Z. cbn [fdiv].
  assert (E : Qeq_bool (inject_Z W) 0 = false).
  { apply not_true_is_false. intros H. apply Qeq_bool_iff in H.
    unfold Qeq, inject_Z in H. simpl in H. lia. }
  rewrite E. eexists. split; [reflexivity |].
  intros lo hi Hb. destruct (Hrange lo hi Hb) as [Hlo Hhi].
  assert (HWpos : (0 < inject_Z W)%Q) by (rewrite <- (Zlt_Qlt 0); lia).
  split.
  - apply Qle_shift_div_l; [exact HWpos | exact Hlo].
  - apply Qle_shift_div_r; [exact HWpos | exact Hhi].
Qed.

(** A loop that stores one value per subswath under the name of the
    subswath. *)
Lemma each_stores {V : Type} mode (f : nat -> outcome V) (l : list nat) :
  NoDup l ->
  (forall a, a ∈ l -> a ∈ subswathRange mode) ->
  (forall a, a ∈ l -> returns (f a) = true) ->
  forall d0, exists d,
    each l (fun (d : gmap string V) iSW =>
              obind (f iSW) (fun c => Done (<[subswathID mode iSW := c]> d))) d0 = Done d
    /\ (forall a c, a ∈ l -> f a = Done c -> d !! subswathID mode a = Some c)
    /\ (forall key, (forall a, a ∈ l -> subswathID mode a <> key) -> d !! key = d0 !! key).
Proof.
  induction l as [| a l IH]; intros Hnd Hsub Hret d0.
  - exists d0. split; [reflexivity |]. split; [| reflexivity].
    intros a c Hin. inversion Hin.
  - apply NoDup_cons in Hnd as [Ha Hnd].
    pose proof (Hret a ltac:(left)) as Hfa.
    destruct (f a) as [ca |] eqn:Efa; [| discriminate].
    destruct (IH Hnd (fun x Hx => Hsub x ltac:(right; exact Hx))
                (fun x Hx => Hret x ltac:(right; exact Hx))
                (<[subswathID mode a := ca]> d0)) as [d [Hrun [Hin Hout]]].
    exists d. split; [| split].
    + cbn [each]. rewrite Efa. cbn [obind]. exact Hrun.
    + intros x c Hx Hc. apply elem_of_cons in Hx as [-> | Hx].
      * rewrite Hout.
        -- rewrite lookup_insert_eq. congruence.
        -- intros y Hy E. apply subswathID_inj in E;
             [subst y; contradiction | apply Hsub; right; exact Hy | apply Hsub; left].
      * exact (Hin x c Hx Hc).
    + intros key Hkey. rewrite Hout by (intros y Hy; apply Hkey; right; exact Hy).
      apply lookup_insert_ne. apply Hkey. left.
Qed.

(** X15.  When every subswath has at least one rectangle and every rectangle
    at least one line, [subswathCenterSampleIndex] returns a centre for each
    subswath, and the centre lies between any two bounds of the range
    samples of the rectangles of that subswath. *)
Theorem subswathCenterSampleIndex_within_bounds self pol bounds :
  import_swathBounds self pol = Ok bounds ->
  (forall iSW, iSW ∈ subswathRange (obsMode self) ->
     bounds iSW <> []
     /\ forall b, b ∈ bounds iSW -> (firstAzimuthLine b <= lastAzimuthLine b)%Z) ->
  exists d,
    subswathCenterSampleIndex self pol = Done d
    /\ forall iSW lo hi,
         iSW ∈ subswathRange (obsMode self) ->
         (forall b, b ∈ bounds iSW ->
            (lo <= firstRangeSample b)%Z /\ (lo <= lastRangeSample b)%Z
            /\ (firstRangeSample b <= hi)%Z /\ (lastRangeSample b <= hi)%Z) ->
         exists c, d !! subswathID (obsMode self) iSW = Some c /\ (lo <= c <= hi)%Z.
Proof.
  intros Himport Hshape. unfold subswathCenterSampleIndex. rewrite Himport.
  cbn [lift obind].
  assert (Hcentre : forall iSW,
             iSW ∈ subswathRange (obsMode self) ->
             exists c, int_round (weightedCenter (bounds iSW)) = Done c
               /\ forall lo hi,
                    (forall b, b ∈ bounds iSW ->
                       (lo <= firstRangeSample b)%Z /\ (lo <= lastRangeSample b)%Z
                       /\ (firstRangeSample b <= hi)%Z /\ (lastRangeSample b <= hi)%Z) ->
                    (lo <= c <= hi)%Z).
  { intros iSW Hin. destruct (Hshape iSW Hin) as [Hne Hlines].
    destruct (weightedCenter_between (bounds iSW) Hne Hlines) as [q [-> Hq]].
    eexists. split; [reflexivity |]. intros lo hi Hb.
    destruct (Hq lo hi Hb). apply round_half_even_between; assumption. }
  destruct (each_stores (obsMode self)
              (fun iSW => int_round (weightedCenter (bounds iSW)))
              (subswathRange (obsMode self)) (NoDup_seq 1 _) (fun a H => H))
    with (d0 := (∅ : gmap string Z)) as [d [Hrun [Hin _]]].
  - intros a Ha. destruct (Hcentre a Ha) as [c [-> _]]. reflexivity.
  - exists d. split; [exact Hrun |].
    intros iSW lo hi Hr Hrange. destruct (Hcentre iSW Hr) as [c [Hc Hb]].
    exists c. split; [exact (Hin iSW c Hr Hc) | exact (Hb lo hi Hrange)].
Qed.

(** On the image of 3 lines by 12 pixels the second subswath covers the
    samples 4 to 7 and its centre lies between them. *)
Lemma subswathCenterSampleIndex_within_bounds_witness :
  exists d c,
    subswathCenterSampleIndex c7_image HV = Done d
    /\ d !! "IW2" = Some c /\ (4 <= c <= 7)%Z.
Proof.
  destruct (subswathCenterSampleIndex_within_bounds c7_image HV c7_bounds eq_refl)
    as [d [Hrun Hd]].
  - intros iSW Hin. apply elem_of_seq in Hin.
    assert (Hcases : iSW = 1%nat \/ iSW = 2%nat \/ iSW = 3%nat)
      by (change (numberOfSubswaths (obsMode c7_image)) with 3%nat in Hin; lia).
    destruct Hcases as [-> | [-> | ->]]; (split; [discriminate |]);
      intros b Hb; apply list_elem_of_singleton in Hb; subst b; simpl; lia.
  - destruct (Hd 2%nat 4%Z 7%Z) as [c [Hc Hb]].
    + apply elem_of_seq. vm_compute. lia.
    + intros b Hb. apply list_elem_of_singleton in Hb. subst b. simpl. lia.
    + exists d, c. split; [exact Hrun | split; [exact Hc | exact Hb]].
Defined.

Lemma each_fails {A S : Type} (body : S -> A -> outcome S) (a : A) (l : list A) :
  a ∈ l -> (forall s, returns (body s a) = false) ->
  forall s, returns (each l body s) = false.
Proof.
  intros Hin Hbad. induction l as [| x l IH]; [inversion Hin |].
  intros s. cbn [each]. apply elem_of_cons in Hin as [<- | Hin].
  - specialize (Hbad s). destruct (body s a); [discriminate | reflexivity].
  - destruct (body s x) as [s1 |]; [| reflexivity]. cbn [obind]. apply IH. exact Hin.
Qed.

(** X16.  A subswath without any rectangle makes [subswathCenterSampleIndex]
    raise, whatever the other subswaths hold: its centre would be the
    integer of [0.0 / 0.0]. *)
Theorem subswathCenterSampleIndex_needs_rectangles self pol bounds (iSW : nat) :
  import_swathBounds self pol = Ok bounds ->
  iSW ∈ subswathRange (obsMode self) ->
  bounds iSW = [] ->
  returns (subswathCenterSampleIndex self pol) = false.
Proof.
  intros Himport Hin Hempty. unfold subswathCenterSampleIndex. rewrite Himport.
  cbn [lift obind]. apply (each_fails _ iSW); [exact Hin |].
  intros d. rewrite Hempty. reflexivity.
Qed.

Lemma subswathCenterSampleIndex_needs_rectangles_witness :
  returns (subswathCenterSampleIndex image_without_third_bounds HV) = false.
Proof.
  apply (subswathCenterSampleIndex_needs_rectangles image_without_third_bounds HV
           (fun iSW => if (iSW =? 3)%nat then [] else c7_bounds iSW) 3%nat eq_refl).
  - apply elem_of_seq. vm_compute. lia.
  - reflexivity.
Defined.

(** ** The length of the focused bursts *)

Lemma py_max_upper (xs : list Z) (m : Z) : py_max xs = Ok m -> forall x, x ∈ xs -> (x <= m)%Z.
Proof.
  destruct xs as [| x0 rest]; [discriminate |]. intros [= <-].
  assert (H : forall x, x = x0 \/ x ∈ rest -> (x <= foldr Z.max x0 rest)%Z).
  { induction rest as [| y rest IH]; cbn [foldr]; intros x [-> | Hin].
    - lia.
    - inversion Hin.
    - specialize (IH x0 (or_introl eq_refl)). lia.
    - apply elem_of_cons in Hin as [-> | Hin]; [lia |].
      specialize (IH x (or_intror Hin)). lia. }
  intros x Hx. apply H. apply elem_of_cons in Hx. exact Hx.
Qed.

(** The number of bursts is the largest divisor of the number of lines that
    leaves at least the nominal number of lines to a burst; there is none
    when the lines are fewer than the nominal number. *)
Lemma numberOfBursts_spec (nominal n : Z) :
  (0 < nominal)%Z ->
  ((n < nominal)%Z -> succeeds (numberOfBursts nominal n) = false)
  /\ ((nominal <= n)%Z ->
      exists nb, numberOfBursts nominal n = Ok nb
        /\ (1 <= nb)%Z /\ (n mod nb = 0)%Z /\ (nb * nominal <= n)%Z
        /\ forall d, (1 <= d)%Z -> (n mod d = 0)%Z -> (d * nominal <= n)%Z -> (d <= nb)%Z).
Proof.
  intros Hnom. unfold numberOfBursts. set (l := filter _ _).
  assert (Hl : forall p, p ∈ l <-> (1 <= p)%Z /\ (p * nominal <= n)%Z /\ (n mod p = 0)%Z).
  { intros p. unfold l. rewrite list_elem_of_filter, Z.eqb_eq.
    unfold arange. rewrite list_elem_of_fmap. split.
    - intros [Hm [k [-> Hk]]]. apply elem_of_seq in Hk.
      split; [lia |]. split; [| exact Hm].
      assert (Hle : (1 + Z.of_nat k <= n / nominal)%Z) by lia.
      pose proof (Z.mul_div_le n nominal Hnom). nia.
    - intros [Hp [Hle Hm]]. split; [exact Hm |].
      assert (Hq : (p <= n / nominal)%Z) by (apply Z.div_le_lower_bound; lia).
      exists (Z.to_nat (p - 1)). split; [lia |]. apply elem_of_seq. lia. }
  split.
  - intros Hlt. destruct l as [| p l'] ; [reflexivity |].
    assert (Hp : p ∈ p :: l') by left. apply Hl in Hp. nia.
  - intros Hge. assert (H1 : 1%Z ∈ l).
    { apply Hl. split; [lia |]. split; [lia | apply Z.mod_1_r]. }
    destruct (py_max l) as [nb |] eqn:E.
    + exists nb. split; [reflexivity |].
      pose proof (py_max_elem l nb E) as Hnb. apply Hl in Hnb.
      destruct Hnb as [Hnb1 [Hnb2 Hnb3]]. repeat split; try assumption.
      intros d Hd1 Hd2 Hd3. apply (py_max_upper l nb E). apply Hl. tauto.
    + destruct l; [inversion H1 | discriminate].
Qed.

(** The loop of [focusedBurstLengthInTime] over elements that each hold one
    swath name and one number of lines. *)
Lemma burst_loop (time : float64) (nominal : Z) (body : gmap string float64 -> node ->
                                                        outcome (gmap string float64))
    (swathOf : node -> string) (linesOf : node -> Z) (l : list node) :
  (0 < nominal)%Z ->
  (forall d iList, iList ∈ l ->
     body d iList
     = obind (lift (numberOfBursts nominal (linesOf iList))) (fun nb =>
       if (linesOf iList mod nb =? 0)%Z
       then Done (<[swathOf iList := fmul (fdiv (of_Z (linesOf iList)) (of_Z nb)) time]> d)
       else Fails (Exn (ValueError "number of bursts cannot be determined.")))) ->
  (forall iList, iList ∈ l -> (nominal <= linesOf iList)%Z) ->
  forall d0, exists d,
    each l body d0 = Done d
    /\ forall s v, d !! s = Some v ->
         d0 !! s = Some v
         \/ exists iList nb,
              iList ∈ l /\ swathOf iList = s
              /\ numberOfBursts nominal (linesOf iList) = Ok nb
              /\ v = fmul (fdiv (of_Z (linesOf iList)) (of_Z nb)) time.
Proof.
  intros Hnom. induction l as [| x l IH]; intros Hbody Hlines d0.
  - exists d0. split; [reflexivity |]. intros s v Hv. left. exact Hv.
  - destruct (numberOfBursts_spec nominal (linesOf x) Hnom) as [_ Hnb].
    destruct (Hnb (Hlines x ltac:(left))) as [nb [Enb [_ [Hdiv _]]]].
    destruct (IH (fun d i Hi => Hbody d i ltac:(right; exact Hi))
                (fun i Hi => Hlines i ltac:(right; exact Hi))
                (<[swathOf x := fmul (fdiv (of_Z (linesOf x)) (of_Z nb)) time]> d0))
      as [d [Hrun Hd]].
    exists d. split.
    + cbn [each]. rewrite (Hbody d0 x ltac:(left)), Enb. cbn [lift obind].
      apply Z.eqb_eq in Hdiv. rewrite Hdiv. exact Hrun.
    + intros s v Hv. destruct (Hd s v Hv) as [Hold | [i [nbi [Hi Hrest]]]].
      * destruct (decide (swathOf x = s)) as [Es | Es].
        -- right. exists x, nb. rewrite <- Es, lookup_insert_eq in Hold.
           injection Hold as <-. split; [left | auto].
        -- left. rewrite lookup_insert_ne in Hold by exact Es. exact Hold.
      * right. exists i, nbi. split; [right; exact Hi | exact Hrest].
Qed.

Lemma burst_loop_fails (nominal : Z) (body : gmap string float64 -> node ->
                                              outcome (gmap string float64))
    (linesOf : node -> Z) (l : list node) (iList : node) :
  (0 < nominal)%Z ->
  iList ∈ l ->
  (forall d, exists k, body d iList = obind (lift (numberOfBursts nominal (linesOf iList))) k) ->
  (linesOf iList < nominal)%Z ->
  forall d0, returns (each l body d0) = false.
Proof.
  intros Hnom Hin Hbody Hlt. apply (each_fails body iList l Hin).
  intros d. destruct (Hbody d) as [k ->].
  destruct (numberOfBursts_spec nominal (linesOf iList) Hnom) as [Hfail _].
  specialize (Hfail Hlt). destruct (numberOfBursts nominal (linesOf iList));
    [discriminate | reflexivity].
Qed.

(** X17.  On an annotation document that holds one non-zero azimuth frequency
    and, in every [inputDimensions] element, one swath name and one number
    of input lines: [focusedBurstLengthInTime] raises as soon as one swath
    has fewer lines than the nominal burst (1450 for IW, 1100 for EW), and
    otherwise returns a dictionary whose every entry is the length of
    [lines / bursts] lines of one swath of that name, where [bursts] is the
    largest divisor of [lines] that leaves at least the nominal number of
    lines to a burst.  The test of the source on that divisor never
    fails. *)
Theorem focusedBurstLengthInTime_whole_bursts float_of_str self (annotationXML : node)
    (frequency : Q) (swathOf : node -> string) (linesOf : node -> Z) :
  get_DOM_nodeValue float_of_str annotationXML ["azimuthFrequency"] "float"
  = Done (Scalar (PyFloat (Fin frequency))) ->
  Qeq_bool frequency 0 = false ->
  (forall iList, iList ∈ getElementsByTagName annotationXML "inputDimensions" ->
     get_DOM_nodeValue float_of_str iList ["swath"] "str"
     = Done (Scalar (PyStr (swathOf iList)))
     /\ get_DOM_nodeValue float_of_str iList ["numberOfInputLines"] "int"
        = Done (Scalar (PyInt (linesOf iList)))) ->
  let nominal := nominalLinesPerBurst (obsMode self) in
  ((exists iList, iList ∈ getElementsByTagName annotationXML "inputDimensions"
                  /\ (linesOf iList < nominal)%Z) ->
   returns (focusedBurstLengthInTime float_of_str self annotationXML) = false)
  /\ ((forall iList, iList ∈ getElementsByTagName annotationXML "inputDimensions" ->
         (nominal <= linesOf iList)%Z) ->
      exists d,
        focusedBurstLengthInTime float_of_str self annotationXML = Done d
        /\ forall s v, d !! s = Some v ->
             exists iList bursts,
               iList ∈ getElementsByTagName annotationXML "inputDimensions"
               /\ swathOf iList = s
               /\ (1 <= bursts)%Z /\ (linesOf iList mod bursts = 0)%Z
               /\ (bursts * nominal <= linesOf iList)%Z
               /\ (forall k, (1 <= k)%Z -> (linesOf iList mod k = 0)%Z ->
                             (k * nominal <= linesOf iList)%Z -> (k <= bursts)%Z)
               /\ v = fmul (fdiv (of_Z (linesOf iList)) (of_Z bursts))
                        (fdiv (Fin 1) (Fin frequency))).
Proof.
  intros Hfreq Hnz Hdims nominal.
  assert (Hnom : (0 < nominal)%Z) by (unfold nominal; destruct (obsMode self); reflexivity).
  unfold focusedBurstLengthInTime. rewrite Hfreq. cbn [obind feqb]. rewrite Hnz.
  cbn [obind]. fold nominal.
  match goal with |- context [each _ ?b _] => set (body := b) end.
  assert (Hbody : forall d iList,
             iList ∈ getElementsByTagName annotationXML "inputDimensions" ->
             body d iList
             = obind (lift (numberOfBursts nominal (linesOf iList))) (fun nb =>
               if (linesOf iList mod nb =? 0)%Z
               then Done (<[swathOf iList := fmul (fdiv (of_Z (linesOf iList)) (of_Z nb))
                                                (fdiv (Fin 1) (Fin frequency))]> d)
               else Fails (Exn (ValueError "number of bursts cannot be determined.")))).
  { intros d iList Hin. destruct (Hdims iList Hin) as [Hs Hn].
    unfold body. rewrite Hs, Hn. reflexivity. }
  split.
  - intros [iList [Hin Hlt]].
    apply (burst_loop_fails nominal body linesOf _ iList Hnom Hin); [| exact Hlt].
    intros d. eexists. apply Hbody. exact Hin.
  - intros Hlines.
    destruct (burst_loop (fdiv (Fin 1) (Fin frequency)) nominal body swathOf linesOf
                (getElementsByTagName annotationXML "inputDimensions") Hnom Hbody Hlines ∅)
      as [d [Hrun Hd]].
    exists d. split; [exact Hrun |].
    intros s v Hv. destruct (Hd s v Hv) as [Hold | [iList [nb [Hin [Hs [Enb ->]]]]]].
    + rewrite lookup_empty in Hold. discriminate.
    + destruct (numberOfBursts_spec nominal (linesOf iList) Hnom) as [_ Hspec].
      destruct (Hspec (Hlines iList Hin)) as [nb' [Enb' Hrest]].
      rewrite Enb in Enb'. injection Enb' as <-.
      exists iList, nb. split; [exact Hin | split; [exact Hs |]].
      destruct Hrest as [H1 [H2 [H3 H4]]]. repeat split; assumption.
Qed.

(** With 2900 and 4350 input lines an IW product has two and three bursts
    of 1450 lines; with 1449 lines in the first swath the method raises. *)
Lemma focusedBurstLengthInTime_whole_bursts_witness :
  returns (focusedBurstLengthInTime float_of_digits demo_image (annotation_of "1449" "4350"))
  = false
  /\ exists d,
       focusedBurstLengthInTime float_of_digits demo_image (annotation_of "2900" "4350")
       = Done d.
Proof.
  split.
  - destruct (focusedBurstLengthInTime_whole_bursts float_of_digits demo_image
                (annotation_of "1449" "4350") 2 swath_read lines_read) as [Hfail _].
    + vm_compute. reflexivity.
    + reflexivity.
    + intros iList Hin. apply list_elem_of_In in Hin. vm_compute in Hin.
      destruct Hin as [<- | [<- | []]]; split; vm_compute; reflexivity.
    + apply Hfail. eexists. split; [left |]. vm_compute. reflexivity.
  - destruct (focusedBurstLengthInTime_whole_bursts float_of_digits demo_image
                (annotation_of "2900" "4350") 2 swath_read lines_read) as [_ Hrun].
    + vm_compute. reflexivity.
    + reflexivity.
    + intros iList Hin. apply list_elem_of_In in Hin. vm_compute in Hin.
      destruct Hin as [<- | [<- | []]]; split; vm_compute; reflexivity.
    + destruct Hrun as [d [Hd _]].
      * intros iList Hin. apply list_elem_of_In in Hin. vm_compute in Hin.
        destruct Hin as [<- | [<- | []]]; vm_compute; discriminate.
      * exists d. exact Hd.
Defined.

(** The two bursts of 1450 lines at 2 Hz last 725 s, the three bursts of
    the second swath as well. *)
Example focusedBurstLengthInTime_two_swaths :
  sameb (entry_of (focusedBurstLengthInTime float_of_digits demo_image
                     (annotation_of "2900" "4350")) "IW1") (Fin 725) = true
  /\ sameb (entry_of (focusedBurstLengthInTime float_of_digits demo_image
                        (annotation_of "2900" "4350")) "IW2") (Fin 725) = true.
Proof. vm_compute. split; reflexivity. Qed.

(** ** Words of a text *)

Lemma append_nil_r (s : string) : s +:+ "" = s.
Proof. induction s as [| c s IH]; [reflexivity |]. change (String c (s +:+ "") = String c s).
  rewrite IH. reflexivity. Qed.

Lemma append_assoc (a b c : string) : (a +:+ b) +:+ c = a +:+ (b +:+ c).
Proof.
  induction a as [| x a IH]; [reflexivity |].
  change (String x ((a +:+ b) +:+ c) = String x (a +:+ (b +:+ c))). rewrite IH. reflexivity.
Qed.

Lemma split_word (w : string) : forall word rest,
  spaceless w = true -> split_from word (w +:+ rest) = split_from (word +:+ w) rest.
Proof.
  induction w as [| c w IH]; intros word rest Hw.
  - rewrite append_nil_r. reflexivity.
  - cbn [spaceless] in Hw. apply andb_true_iff in Hw as [Hc Hw].
    change (String c w +:+ rest) with (String c (w +:+ rest)). cbn [split_from].
    apply negb_true_iff in Hc. rewrite Hc. rewrite (IH _ _ Hw), append_assoc. reflexivity.
Qed.

Lemma split_blank (b : string) : forall rest,
  blank b = true -> split_from "" (b +:+ rest) = split_from "" rest.
Proof.
  induction b as [| c b IH]; intros rest Hb; [reflexivity |].
  cbn [blank] in Hb. apply andb_true_iff in Hb as [Hc Hb].
  change (String c b +:+ rest) with (String c (b +:+ rest)). cbn [split_from].
  rewrite Hc. change (String.eqb "" "") with true. cbv iota. exact (IH rest Hb).
Qed.

Lemma split_after_word (word b rest : string) :
  word <> "" -> blank b = true -> b <> "" ->
  split_from word (b +:+ rest) = word :: split_from "" rest.
Proof.
  intros Hword Hb Hne. destruct b as [| c b]; [congruence |].
  cbn [blank] in Hb. apply andb_true_iff in Hb as [Hc Hb].
  change (String c b +:+ rest) with (String c (b +:+ rest)). cbn [split_from].
  rewrite Hc. destruct (String.eqb_spec word "") as [E | _]; [congruence |].
  rewrite (split_blank b rest Hb). reflexivity.
Qed.

(** Words written with one blank between them, and any white space before
    and after, are the words that [split()] reads. *)
Lemma py_split_words (words : list string) (lead trail : string) :
  (forall w, w ∈ words -> is_word w) ->
  blank lead = true -> blank trail = true ->
  py_split (lead +:+ String.concat " " words +:+ trail) = words.
Proof.
  intros Hwords Hlead Htrail. unfold py_split. rewrite (split_blank lead _ Hlead).
  clear lead Hlead. induction words as [| w words IH].
  - cbn [String.concat]. change ("" +:+ trail) with trail.
    rewrite <- (append_nil_r trail). rewrite (split_blank trail "" Htrail). reflexivity.
  - destruct (Hwords w ltac:(left)) as [Hne Hw].
    assert (Hw' : forall rest, split_from "" (w +:+ rest) = split_from w rest)
      by (intros rest; exact (split_word w "" rest Hw)).
    destruct words as [| w' words].
    + cbn [String.concat]. rewrite Hw'.
      destruct trail as [| c trail].
      * cbn [split_from]. destruct (String.eqb_spec w "") as [E | _]; [congruence | reflexivity].
      * rewrite <- (append_nil_r (String c trail)).
        rewrite (split_after_word w (String c trail) "" Hne Htrail ltac:(discriminate)).
        reflexivity.
    + change (String.concat " " (w :: w' :: words))
        with (w +:+ " " +:+ String.concat " " (w' :: words)).
      rewrite !append_assoc, Hw'.
      rewrite (split_after_word w " " _ Hne eq_refl ltac:(discriminate)).
      rewrite IH; [reflexivity |]. intros x Hx. apply Hwords. right. exact Hx.
Qed.

Lemma collect_total {A B : Type} (f : A -> outcome B) (xs : list A) (ys : list B) :
  Forall2 (fun x y => f x = Done y) xs ys -> collect f xs = Done ys.
Proof.
  induction 1 as [| x y xs ys Hxy _ IH]; [reflexivity |].
  cbn [collect]. rewrite Hxy. cbn [obind]. rewrite IH. reflexivity.
Qed.

(** X18.  [get_DOM_nodeValue] reads back the words of the text under the
    element it reaches: written with one blank between them and any white
    space around, the words come back as they are for ['str'] and as the
    numbers [float] parses for ['float'], one word alone as a value and not
    as a list; and an [oType] other than ['str'], ['int'] and ['float']
    raises [ValueError] before the document is looked at. *)
Theorem get_DOM_nodeValue_reads_words float_of_str (element : node) (tags : list string)
    (oType : string) :
  (oType <> "str" -> oType <> "int" -> oType <> "float" ->
   get_DOM_nodeValue float_of_str element tags oType
   = Fails (Exn (ValueError "see error message.")))
  /\ forall sub others words lead trail,
       get_DOM_subElement element tags = Done sub ->
       childNodes_of sub
       = CharacterData (lead +:+ String.concat " " words +:+ trail) :: others ->
       (forall w, w ∈ words -> is_word w) -> blank lead = true -> blank trail = true ->
       get_DOM_nodeValue float_of_str element tags "str"
       = Done (handed_back (map PyStr words))
       /\ forall numbers,
            Forall2 (fun w x => float_of_str w = Some x) words numbers ->
            get_DOM_nodeValue float_of_str element tags "float"
            = Done (handed_back (map PyFloat numbers)).
Proof.
  split.
  - intros H1 H2 H3. unfold get_DOM_nodeValue. cbn [existsb].
    destruct (String.eqb_spec oType "str"); [congruence |].
    destruct (String.eqb_spec oType "int"); [congruence |].
    destruct (String.eqb_spec oType "float"); [congruence |]. reflexivity.
  - intros sub others words lead trail Hsub Hchildren Hwords Hlead Htrail.
    assert (Hfirst : list_getitem (childNodes_of sub) 0 = Ok (CharacterData
                       (lead +:+ String.concat " " words +:+ trail))).
    { rewrite Hchildren. reflexivity. }
    split.
    + unfold get_DOM_nodeValue. change (existsb _ _) with true. cbn [negb].
      rewrite Hsub. cbn [obind]. rewrite Hfirst. cbn [lift obind nodeValue].
      change (String.eqb "str" "str") with true. cbv iota. cbn [obind].
      rewrite (py_split_words words lead trail Hwords Hlead Htrail). reflexivity.
    + intros numbers Hnum.
      unfold get_DOM_nodeValue. change (existsb _ _) with true. cbn [negb].
      rewrite Hsub. cbn [obind]. rewrite Hfirst. cbn [lift obind nodeValue].
      change (String.eqb "float" "str") with false.
      change (String.eqb "float" "int") with false. cbv iota.
      rewrite (py_split_words words lead trail Hwords Hlead Htrail).
      rewrite (collect_total _ words (map PyFloat numbers)); [reflexivity |].
      clear -Hnum. induction Hnum as [| w x ws xs Hwx _ IH]; [constructor |].
      cbn [map]. constructor; [| exact IH].
      unfold py_float. rewrite Hwx. reflexivity.
Qed.

(** Two lines come back as a list, one line as a value. *)
Lemma get_DOM_nodeValue_reads_words_witness :
  get_DOM_nodeValue float_of_digits (element_with "line" " 0 2 ") ["line"] "float"
  = Done (Several [PyFloat (of_Z 0); PyFloat (of_Z 2)])
  /\ get_DOM_nodeValue float_of_digits (element_with "line" "7") ["line"] "str"
     = Done (Scalar (PyStr "7")).
Proof.
  split.
  - destruct (get_DOM_nodeValue_reads_words float_of_digits (element_with "line" " 0 2 ")
                ["line"] "float") as [_ Hread].
    destruct (Hread (Element "line" [CharacterData " 0 2 "]) [] ["0"; "2"] " " " "
                eq_refl eq_refl) as [_ Hfloat].
    + intros w Hw. rewrite !elem_of_cons in Hw.
      destruct Hw as [-> | [-> | Hw]]; [split; [discriminate | reflexivity] ..
                                      | inversion Hw].
    + reflexivity.
    + reflexivity.
    + apply (Hfloat [of_Z 0; of_Z 2]). repeat constructor.
  - destruct (get_DOM_nodeValue_reads_words float_of_digits (element_with "line" "7")
                ["line"] "str") as [_ Hread].
    destruct (Hread (Element "line" [CharacterData "7"]) [] ["7"] "" ""
                eq_refl eq_refl) as [Hstr _].
    + intros w Hw. apply list_elem_of_singleton in Hw. subst w.
      split; [discriminate | reflexivity].
    + reflexivity.
    + reflexivity.
    + exact Hstr.
Defined.

(** ** Noise vectors of the calibration and validation class *)

Lemma elem_of_np_where {A : Type} (P : A -> bool) (xs : list A) (k : nat) :
  k ∈ np_where P xs <-> exists x, xs !! k = Some x /\ P x = true.
Proof.
  unfold np_where. rewrite list_elem_of_filter, elem_of_seq. split.
  - intros [Hk _]. destruct (xs !! k) as [x |]; [| discriminate]. exists x. auto.
  - intros [x [Hx HP]]. rewrite Hx. split; [exact HP |].
    apply lookup_lt_Some in Hx. lia.
Qed.

Lemma NoDup_np_where {A : Type} (P : A -> bool) (xs : list A) : NoDup (np_where P xs).
Proof. unfold np_where. apply NoDup_filter, NoDup_seq. Qed.

Lemma assign_by_index (h : nat -> float64) (idx : list nat) : forall a,
  assign a idx (map h idx) = foldl (fun r i => <[i := h i]> r) a idx.
Proof.
  unfold assign. induction idx as [| i idx IH]; intros a; [reflexivity |].
  cbn [map combine foldl]. apply IH.
Qed.

Lemma insert_each_length (h : nat -> float64) (idx : list nat) : forall a,
  length (foldl (fun r i => <[i := h i]> r) a idx) = length a.
Proof.
  induction idx as [| i idx IH]; intros a; [reflexivity |].
  cbn [foldl]. rewrite IH. apply length_insert.
Qed.

Lemma insert_each_lookup (h : nat -> float64) (idx : list nat) (k : nat) (a : list float64) :
  foldl (fun r i => <[i := h i]> r) a idx !! k
  = if bool_decide (k ∈ idx) then (fun _ => h k) <$> a !! k else a !! k.
Proof.
  induction idx as [| i idx IH] using rev_ind.
  - rewrite bool_decide_eq_false_2 by (intros H; inversion H). reflexivity.
  - rewrite foldl_snoc, list_lookup_insert, insert_each_length, IH.
    destruct (decide (i = k /\ (i < length a)%nat)) as [[-> Hlt] | Hno].
    + rewrite (bool_decide_eq_true_2 (k ∈ idx ++ [k]))
        by (apply elem_of_app; right; left).
      destruct (lookup_lt_is_Some_2 a k Hlt) as [x ->]. reflexivity.
    + destruct (decide (k ∈ idx)) as [Hin | Hout].
      * rewrite !bool_decide_eq_true_2 by (try (apply elem_of_app; left); exact Hin).
        reflexivity.
      * rewrite (bool_decide_eq_false_2 (k ∈ idx)) by exact Hout.
        destruct (decide (i = k)) as [-> | Hne].
        -- rewrite bool_decide_eq_true_2 by (apply elem_of_app; right; left).
           assert (Hge : a !! k = None) by (apply lookup_ge_None; lia).
           rewrite Hge. reflexivity.
        -- rewrite bool_decide_eq_false_2; [reflexivity |].
           intros H. apply elem_of_app in H as [H | H]; [contradiction |].
           apply list_elem_of_singleton in H. congruence.
Qed.

Lemma at_indices_returns (a : list float64) (idx : list nat) :
  (forall i, i ∈ idx -> (i < length a)%nat) ->
  at_indices a idx = Ok (map (fun i => default NaN (a !! i)) idx).
Proof.
  intros Hidx. unfold at_indices. induction idx as [| i idx IH]; [reflexivity |].
  cbn [map_result map].
  destruct (list_getitem_below a i (Hidx i ltac:(left))) as [x [-> Hx]].
  cbn [rbind]. rewrite IH by (intros j Hj; apply Hidx; right; exact Hj).
  cbn [rbind]. rewrite Hx. reflexivity.
Qed.

(** The two statements of the innermost loop give every selected sample
    the corrected value of the input noise and leave the others. *)
Lemma corrected_row_returns (ns pb : gmap string float64) (add_pb : bool) mode (swid : nat)
    (valid2 : list nat) (nesz_row out_row : list float64) (k b : float64) :
  ns !! subswathID mode swid = Some k ->
  pb !! subswathID mode swid = Some b ->
  (forall i, i ∈ valid2 -> (i < length nesz_row)%nat /\ (i < length out_row)%nat) ->
  corrected_row ns pb add_pb (subswathID mode swid) valid2 nesz_row out_row
  = Ok (imap (fun i old =>
                if bool_decide (i ∈ valid2)
                then corrected_value ns pb add_pb mode swid (default NaN (nesz_row !! i))
                else old) out_row).
Proof.
  intros Hk Hb Hidx. unfold corrected_row, py_getitem.
  rewrite (at_indices_returns nesz_row valid2) by (intros i Hi; apply Hidx; exact Hi).
  cbn [rbind]. rewrite Hk. cbn [rbind]. rewrite map_map.
  rewrite (assign_by_index (fun i => fmul (default NaN (nesz_row !! i)) k)).
  set (out1 := foldl _ out_row valid2).
  assert (Hout1 : forall i, out1 !! i
            = if bool_decide (i ∈ valid2)
              then (fun _ => fmul (default NaN (nesz_row !! i)) k) <$> out_row !! i
              else out_row !! i).
  { intros i. unfold out1. apply insert_each_lookup. }
  assert (Hlen1 : length out1 = length out_row) by apply insert_each_length.
  unfold corrected_value. rewrite Hk. cbn [default].
  destruct add_pb.
  - rewrite (at_indices_returns out1 valid2)
      by (intros i Hi; rewrite Hlen1; apply Hidx; exact Hi).
    cbn [rbind]. rewrite Hb. cbn [rbind default]. rewrite map_map.
    rewrite (assign_by_index (fun i => fadd (default NaN (out1 !! i)) b)).
    f_equal. apply list_eq. intros i.
    rewrite insert_each_lookup, list_lookup_imap, !Hout1.
    destruct (bool_decide (i ∈ valid2)) eqn:E; destruct (out_row !! i); reflexivity.
  - f_equal. apply list_eq. intros i.
    rewrite Hout1, list_lookup_imap.
    destruct (bool_decide (i ∈ valid2)); destruct (out_row !! i); reflexivity.
Qed.

(** A loop over distinct row numbers whose pass rewrites its own row. *)
Lemma rows_loop {A : Type} (I : nat -> A -> Prop) (G : nat -> A -> A)
    (body : list A -> nat -> result (list A)) (idx : list nat) :
  (forall v row, I v row -> I v (G v row)) ->
  (forall acc v row,
     v ∈ idx -> (forall u r, acc !! u = Some r -> I u r) -> acc !! v = Some row ->
     body acc v = Ok (<[v := G v row]> acc)) ->
  NoDup idx ->
  forall acc,
    (forall u r, acc !! u = Some r -> I u r) ->
    (forall v, v ∈ idx -> (v < length acc)%nat) ->
    for_each idx body acc
    = Ok (imap (fun v row => if bool_decide (v ∈ idx) then G v row else row) acc).
Proof.
  intros HG. induction idx as [| v idx IH]; intros Hbody Hnd acc Hinv Hlen.
  - cbn [for_each]. f_equal. apply list_eq. intros u. rewrite list_lookup_imap.
    destruct (acc !! u); [| reflexivity]. cbn.
    rewrite bool_decide_eq_false_2 by (intros H; inversion H). reflexivity.
  - apply NoDup_cons in Hnd as [Hv Hnd].
    destruct (lookup_lt_is_Some_2 acc v (Hlen v ltac:(left))) as [row Hrow].
    cbn [for_each]. rewrite (Hbody acc v row ltac:(left) Hinv Hrow). cbn [rbind].
    rewrite IH.
    + f_equal. apply list_eq. intros u. rewrite !list_lookup_imap.
      destruct (decide (u = v)) as [-> | Hne].
      * rewrite list_lookup_insert_eq by (apply Hlen; left). rewrite Hrow. cbn.
        rewrite bool_decide_eq_false_2 by exact Hv.
        rewrite bool_decide_eq_true_2 by left. reflexivity.
      * rewrite list_lookup_insert_ne by congruence.
        destruct (acc !! u); [| reflexivity]. cbn.
        destruct (decide (u ∈ idx)) as [Hin | Hout].
        -- rewrite !bool_decide_eq_true_2 by (try right; exact Hin). reflexivity.
        -- rewrite !bool_decide_eq_false_2; [reflexivity | | exact Hout].
           intros H. apply elem_of_cons in H as [H | H]; [congruence | contradiction].
    + intros acc' u r Hu Hinv' Hr. apply Hbody; [right; exact Hu | exact Hinv' | exact Hr].
    + exact Hnd.
    + intros u r Hu. destruct (decide (u = v)) as [-> | Hne].
      * rewrite list_lookup_insert_eq in Hu by (apply Hlen; left).
        injection Hu as <-. apply HG, (Hinv v row Hrow).
      * rewrite list_lookup_insert_ne in Hu by congruence. exact (Hinv u r Hu).
    + intros u Hu. rewrite length_insert. apply Hlen. right. exact Hu.
Qed.

(** A loop whose every pass returns a value computed from the state. *)
Lemma for_each_pure {A S : Type} (Inv : S -> Prop) (f : S -> A -> S)
    (body : S -> A -> result S) (l : list A) :
  (forall s a, a ∈ l -> Inv s -> body s a = Ok (f s a)) ->
  (forall s a, a ∈ l -> Inv s -> Inv (f s a)) ->
  forall s, Inv s -> for_each l body s = Ok (foldl f s l).
Proof.
  induction l as [| a l IH]; intros Hbody Hinv s Hs; [reflexivity |].
  cbn [for_each foldl]. rewrite (Hbody s a ltac:(left) Hs). cbn [rbind].
  apply IH.
  - intros s' a' Ha'. apply Hbody. right. exact Ha'.
  - intros s' a' Ha'. apply Hinv. right. exact Ha'.
  - apply Hinv; [left | exact Hs].
Qed.

Lemma foldl_passes {S B : Type} (f : S -> nat * B -> S) (bounds : nat -> list B)
    (ids : list nat) : forall s,
  foldl (fun s swid => foldl (fun s b => f s (swid, b)) s (bounds swid)) s ids
  = foldl f s (flat_map (fun swid => map (pair swid) (bounds swid)) ids).
Proof.
  induction ids as [| swid ids IH]; intros s; [reflexivity |].
  cbn [foldl flat_map]. rewrite foldl_app, IH. f_equal.
  generalize s. induction (bounds swid) as [| b l IHl]; intros s0; [reflexivity |].
  cbn [map foldl]. apply IHl.
Qed.

Section CorrectedVectors.

Variable corr : nat -> float64 -> float64.
Variables (nrv_line : list Z) (nrv_pixel : list (list Z)) (nesz : list (list float64)).

Lemma paint_rectangle_shaped pass acc :
  shaped nrv_pixel acc ->
  shaped nrv_pixel (paint_rectangle corr nrv_line nrv_pixel nesz pass acc).
Proof.
  intros [Hlen Hrows]. unfold paint_rectangle. split.
  - rewrite length_imap. exact Hlen.
  - intros v row p Hrow Hp. rewrite list_lookup_imap in Hrow.
    destruct (acc !! v) as [r |] eqn:E; [| discriminate]. cbn in Hrow.
    injection Hrow as <-. rewrite length_imap. exact (Hrows v r p E Hp).
Qed.

Lemma paint_rectangle_sample pass acc (v k : nat) :
  sample_of (paint_rectangle corr nrv_line nrv_pixel nesz pass acc) v k
  = match sample_of acc v k with
    | Some old =>
        Some (match nrv_line !! v, sample_of nrv_pixel v k, sample_of nesz v k with
              | Some line, Some p, Some x =>
                  if rectangle_holds (snd pass) line p then corr (fst pass) x else old
              | _, _, _ => old
              end)
    | None => None
    end.
Proof.
  unfold sample_of, paint_rectangle. rewrite list_lookup_imap.
  destruct (acc !! v) as [row |]; [| reflexivity]. cbn.
  rewrite list_lookup_imap. destruct (row !! k); reflexivity.
Qed.

(** A sample that no pass holds keeps its value. *)
Lemma passes_outside (passes : list (nat * swathBound)) (v k : nat) (line p : Z) :
  nrv_line !! v = Some line -> sample_of nrv_pixel v k = Some p ->
  (forall pass, pass ∈ passes -> rectangle_holds (snd pass) line p = false) ->
  forall acc,
    sample_of (foldl (fun acc pass => paint_rectangle corr nrv_line nrv_pixel nesz pass acc)
                 acc passes) v k
    = sample_of acc v k.
Proof.
  intros Hline Hp. induction passes as [| pass passes IH] using rev_ind; intros Hout acc;
    [reflexivity |].
  rewrite foldl_snoc, paint_rectangle_sample, IH
    by (intros q Hq; apply Hout, elem_of_app; left; exact Hq).
  destruct (sample_of acc v k) as [old |]; [| reflexivity].
  rewrite Hline, Hp, (Hout pass) by (apply elem_of_app; right; left).
  destruct (sample_of nesz v k); reflexivity.
Qed.

(** A sample that passes of one subswath only hold has the corrected value
    of that subswath. *)
Lemma passes_inside (passes : list (nat * swathBound)) (v k : nat) (line p : Z)
    (x : float64) (swid : nat) :
  nrv_line !! v = Some line -> sample_of nrv_pixel v k = Some p ->
  sample_of nesz v k = Some x ->
  (exists pass, pass ∈ passes /\ rectangle_holds (snd pass) line p = true) ->
  (forall pass, pass ∈ passes -> rectangle_holds (snd pass) line p = true ->
                fst pass = swid) ->
  forall acc old,
    sample_of acc v k = Some old ->
    sample_of (foldl (fun acc pass => paint_rectangle corr nrv_line nrv_pixel nesz pass acc)
                 acc passes) v k
    = Some (corr swid x).
Proof.
  intros Hline Hp Hx.
  induction passes as [| pass passes IH] using rev_ind;
    intros [q [Hq Hhold]] Hsame acc old Hold; [inversion Hq |].
  rewrite foldl_snoc, paint_rectangle_sample.
  destruct (rectangle_holds (snd pass) line p) eqn:Epass.
  - assert (Hsome : exists o, sample_of
              (foldl (fun acc pass => paint_rectangle corr nrv_line nrv_pixel nesz pass acc)
                 acc passes) v k = Some o).
    { clear -Hold. induction passes as [| r passes IH] using rev_ind; [eauto |].
      destruct IH as [o Ho]. rewrite foldl_snoc, paint_rectangle_sample, Ho. eauto. }
    destruct Hsome as [o ->]. rewrite Hline, Hp, Hx, Epass.
    rewrite (Hsame pass) by (try (apply elem_of_app; right; left); exact Epass).
    reflexivity.
  - assert (Hin : q ∈ passes).
    { apply elem_of_app in Hq as [Hq | Hq]; [exact Hq |].
      apply list_elem_of_singleton in Hq. subst q. congruence. }
    rewrite (IH (ex_intro _ q (conj Hin Hhold))
               (fun r Hr => Hsame r ltac:(apply elem_of_app; left; exact Hr)) acc old Hold).
    rewrite Hline, Hp, Hx, Epass. reflexivity.
Qed.

End CorrectedVectors.

(** The pass of one rectangle, as the loop over the lines makes it. *)
Lemma rectangle_pass (ns pb : gmap string float64) (add_pb : bool) mode (swid : nat)
    (b : swathBound) (nrv_line : list Z) (nrv_pixel : list (list Z))
    (nesz : list (list float64)) (k kb : float64) (acc : list (list float64)) :
  ns !! subswathID mode swid = Some k ->
  pb !! subswathID mode swid = Some kb ->
  length nrv_pixel = length nrv_line ->
  shaped nrv_pixel nesz ->
  shaped nrv_pixel acc ->
  for_each
    (np_where (fun y => (firstAzimuthLine b <=? y)%Z && (y <=? lastAzimuthLine b)%Z) nrv_line)
    (fun acc v1 =>
       rbind (list_getitem nrv_pixel (Z.of_nat v1)) (fun pixel_row =>
       rbind (list_getitem nesz (Z.of_nat v1)) (fun nesz_row =>
       rbind (list_getitem acc (Z.of_nat v1)) (fun out_row =>
       rbind (corrected_row ns pb add_pb (subswathID mode swid)
                (np_where (fun p => (firstRangeSample b <=? p)%Z
                                    && (p <=? lastRangeSample b)%Z) pixel_row)
                nesz_row out_row) (fun new_row =>
       Ok (<[v1 := new_row]> acc))))))
    acc
  = Ok (paint_rectangle (corrected_value ns pb add_pb mode) nrv_line nrv_pixel nesz
          (swid, b) acc).
Proof.
  intros Hk Hkb Hlines [Hnlen Hnrows] [Hlen Hrows].
  set (valid1 := np_where _ nrv_line).
  set (valid2 := fun v => np_where (fun p => (firstRangeSample b <=? p)%Z
                                             && (p <=? lastRangeSample b)%Z)
                            (default [] (nrv_pixel !! v))).
  set (G := fun v (row : list float64) =>
              imap (fun i old =>
                      if bool_decide (i ∈ valid2 v)
                      then corrected_value ns pb add_pb mode swid
                             (default NaN (default [] (nesz !! v) !! i))
                      else old) row).
  rewrite (rows_loop (fun v row => forall p, nrv_pixel !! v = Some p -> length row = length p)
             G).
  - f_equal. unfold paint_rectangle. apply imap_ext. intros v row Hrow.
    destruct (nrv_pixel !! v) as [prow |] eqn:Eprow.
    2:{ apply lookup_ge_None in Eprow. apply lookup_lt_Some in Hrow. lia. }
    destruct (lookup_lt_is_Some_2 nesz v) as [nrow Enrow].
    { apply lookup_lt_Some in Hrow. lia. }
    destruct (lookup_lt_is_Some_2 nrv_line v) as [line Eline].
    { apply lookup_lt_Some in Hrow. lia. }
    pose proof (Hnrows v nrow prow Enrow Eprow) as Hnl.
    pose proof (Hrows v row prow Hrow Eprow) as Hrl.
    destruct (decide (v ∈ valid1)) as [Hv | Hv].
    + rewrite (bool_decide_eq_true_2 _ Hv).
      apply elem_of_np_where in Hv as [line' [Hl' Hhold]].
      rewrite Eline in Hl'. injection Hl' as <-.
      unfold G, valid2. rewrite Eline, Eprow, Enrow.
      cbn -[np_where bool_decide corrected_value rectangle_holds lookup].
      apply imap_ext. intros i old Hold.
      destruct (lookup_lt_is_Some_2 prow i) as [p Ep].
      { apply lookup_lt_Some in Hold. lia. }
      destruct (lookup_lt_is_Some_2 nrow i) as [x Ex].
      { apply lookup_lt_Some in Hold. lia. }
      rewrite Ep, Ex. cbn [from_option id snd fst]. unfold rectangle_holds.
      rewrite Hhold. cbn [andb].
      destruct ((firstRangeSample b <=? p)%Z && (p <=? lastRangeSample b)%Z) eqn:Ein.
      * rewrite bool_decide_eq_true_2 by (apply elem_of_np_where; eauto).
        reflexivity.
      * rewrite bool_decide_eq_false_2; [reflexivity |].
        intros Hin. apply elem_of_np_where in Hin as [p' [Hp' Hc]].
        rewrite Ep in Hp'. injection Hp' as <-. congruence.
    + rewrite (bool_decide_eq_false_2 _ Hv).
      rewrite Eline, Enrow.
      cbn -[np_where bool_decide corrected_value rectangle_holds lookup].
      apply list_eq. intros i. rewrite list_lookup_imap.
      destruct (row !! i) as [old |] eqn:Hold; [| reflexivity]. cbn.
      destruct (lookup_lt_is_Some_2 prow i) as [p Ep].
      { apply lookup_lt_Some in Hold. lia. }
      destruct (lookup_lt_is_Some_2 nrow i) as [x Ex].
      { apply lookup_lt_Some in Hold. lia. }
      rewrite Ep, Ex. unfold rectangle_holds. cbn [snd].
      destruct ((firstAzimuthLine b <=? line)%Z && (line <=? lastAzimuthLine b)%Z)
        eqn:Eline2; [| reflexivity].
      exfalso. apply Hv. apply elem_of_np_where. eauto.
  - intros v row Hrow p Hp. unfold G. rewrite length_imap. exact (Hrow p Hp).
  - intros acc' v row Hv Hinv Hrow.
    apply elem_of_np_where in Hv as [line [Hline _]].
    assert (Hvlt : (v < length nrv_line)%nat) by (apply lookup_lt_Some in Hline; exact Hline).
    destruct (list_getitem_below nrv_pixel v ltac:(lia)) as [prow [-> Eprow]].
    destruct (list_getitem_below nesz v ltac:(lia)) as [nrow [-> Enrow]].
    destruct (list_getitem_below acc' v) as [row' [-> Erow']].
    { apply lookup_lt_Some in Hrow. exact Hrow. }
    rewrite Hrow in Erow'. injection Erow' as <-.
    cbn [rbind].
    rewrite (corrected_row_returns ns pb add_pb mode swid _ nrow row k kb Hk Hkb).
    + cbn [rbind]. unfold G, valid2. rewrite Eprow, Enrow. reflexivity.
    + intros i Hi. apply elem_of_np_where in Hi as [p [Hp _]].
      apply lookup_lt_Some in Hp.
      rewrite (Hnrows v nrow prow Enrow Eprow), (Hinv v row Hrow prow Eprow). lia.
  - apply NoDup_np_where.
  - intros u r Hu p Hp. exact (Hrows u r p Hu Hp).
  - intros v Hv. apply elem_of_np_where in Hv as [line [Hline _]].
    apply lookup_lt_Some in Hline. lia.
Qed.

Lemma elem_of_passes (bounds : nat -> list swathBound) (ids : list nat)
    (pass : nat * swathBound) :
  pass ∈ flat_map (fun swid => map (pair swid) (bounds swid)) ids
  <-> fst pass ∈ ids /\ snd pass ∈ bounds (fst pass).
Proof.
  rewrite list_elem_of_In, in_flat_map. split.
  - intros [swid [Hs Hp]]. apply list_elem_of_In in Hs.
    apply list_elem_of_In, list_elem_of_fmap in Hp as [b [-> Hb]]. split; assumption.
  - intros [Hs Hb]. exists (fst pass). split; [apply list_elem_of_In; exact Hs |].
    apply list_elem_of_In, list_elem_of_fmap. exists (snd pass).
    split; [destruct pass; reflexivity | exact Hb].
Qed.

Lemma nan_rows_sample (nrv_pixel : list (list Z)) (v k : nat) (p : Z) :
  sample_of nrv_pixel v k = Some p ->
  sample_of (map (fun p => replicate (length p) NaN) nrv_pixel) v k = Some NaN.
Proof.
  unfold sample_of. intros H. rewrite list_lookup_fmap.
  destruct (nrv_pixel !! v) as [row |]; [| discriminate]. cbn in H |- *.
  apply lookup_replicate_2. apply lookup_lt_Some in H. exact H.
Qed.

Lemma nan_rows_shaped (nrv_pixel : list (list Z)) :
  shaped nrv_pixel (map (fun p => replicate (length p) NaN) nrv_pixel).
Proof.
  split; [apply length_map |]. intros v row p Hrow Hp.
  rewrite list_lookup_fmap, Hp in Hrow. injection Hrow as <-. apply length_replicate.
Qed.

(** X19.  [get_corrected_nesz_vectors], on vectors of matching lengths,
    for swath identifiers of the acquisition mode and a file name that
    carries the sensing date, returns rows of the
    lengths of the pixel rows in which a sample that no rectangle of these
    subswaths holds is NaN, and a sample held by rectangles of one subswath
    only is the input noise times the noise scaling of that subswath, plus
    its balancing power under [add_pb]: the correction is computed from the
    input and never applied twice. *)
Theorem get_corrected_nesz_vectors_per_subswath self (swath_ids : list nat) pol
    (nrv_line : list Z) (nrv_pixel : list (list Z)) (nesz : list (list float64))
    (add_pb : bool) bounds dp date :
  import_swathBounds self pol = Ok bounds ->
  denoParams self pol = Ok dp ->
  sensingDate self = Ok date ->
  (forall swid, swid ∈ swath_ids -> swid ∈ subswathRange (obsMode self)) ->
  length nrv_pixel = length nrv_line ->
  shaped nrv_pixel nesz ->
  exists out,
    get_corrected_nesz_vectors self swath_ids pol nrv_line nrv_pixel nesz add_pb = Ok out
    /\ shaped nrv_pixel out
    /\ forall v k line p x,
         nrv_line !! v = Some line ->
         sample_of nrv_pixel v k = Some p ->
         sample_of nesz v k = Some x ->
         ((forall swid, swid ∈ swath_ids -> subswath_holds bounds swid line p = false) ->
          sample_of out v k = Some NaN)
         /\ forall swid,
              swid ∈ swath_ids ->
              subswath_holds bounds swid line p = true ->
              (forall other, other ∈ swath_ids -> other <> swid ->
                             subswath_holds bounds other line p = false) ->
              let ID := subswathID (obsMode self) swid in
              let key := format_1f (coefficientVersion self) in
              let scaled :=
                fmul x (versioned_or (dp_noiseScalingParameters dp) ID key (Fin 1)) in
              sample_of out v k
              = Some (if add_pb
                      then fadd scaled
                             (versioned_or (dp_powerBalancingParameters dp) ID key (Fin 0))
                      else scaled).
Proof.
  intros Hbounds Hdp Hdate Hids Hlines Hnesz.
  unfold get_corrected_nesz_vectors. rewrite Hbounds. cbn [rbind].
  unfold import_denoisingCoefficients. rewrite Hdp, Hdate. cbn [rbind].
  set (key := format_1f (coefficientVersion self)).
  set (c := foldl _ coefficients_init _).
  set (ns := noiseScalingParameters c). set (pb := powerBalancingParameters c).
  assert (Hlook : forall swid, swid ∈ swath_ids ->
             ns !! subswathID (obsMode self) swid
             = Some (versioned_or (dp_noiseScalingParameters dp)
                       (subswathID (obsMode self) swid) key (Fin 1))
             /\ pb !! subswathID (obsMode self) swid
                = Some (versioned_or (dp_powerBalancingParameters dp)
                          (subswathID (obsMode self) swid) key (Fin 0))).
  { intros swid Hin.
    destruct (coefficients_loop_lookup dp (obsMode self) key (subswathRange (obsMode self))
                swid (fun _ H => H) (Hids swid Hin) coefficients_init) as [Hk [Hb _]].
    split; assumption. }
  set (corr := corrected_value ns pb add_pb (obsMode self)).
  set (paint := fun acc pass => paint_rectangle corr nrv_line nrv_pixel nesz pass acc).
  rewrite (for_each_pure (shaped nrv_pixel)
             (fun acc swid => foldl (fun acc b => paint acc (swid, b)) acc (bounds swid))).
  - rewrite (foldl_passes paint bounds swath_ids).
    set (passes := flat_map _ swath_ids).
    eexists. split; [reflexivity |]. split.
    + generalize (nan_rows_shaped nrv_pixel).
      generalize (map (fun p => replicate (length p) NaN) nrv_pixel).
      induction passes as [| pass passes IH]; intros acc Hacc; [exact Hacc |].
      cbn [foldl]. apply IH. apply paint_rectangle_shaped. exact Hacc.
    + intros v k line p x Hline Hp Hx. split.
      * intros Hout.
        rewrite (passes_outside corr nrv_line nrv_pixel nesz passes v k line p Hline Hp).
        -- exact (nan_rows_sample nrv_pixel v k p Hp).
        -- intros pass Hpass. apply elem_of_passes in Hpass as [Hs Hb].
           specialize (Hout (fst pass) Hs). unfold subswath_holds in Hout.
           destruct (rectangle_holds (snd pass) line p) eqn:E; [| reflexivity].
           assert (Hex : existsb (fun b => rectangle_holds b line p) (bounds (fst pass))
                         = true).
           { apply existsb_exists. exists (snd pass).
             split; [apply list_elem_of_In; exact Hb | exact E]. }
           congruence.
      * intros swid Hswid Hhold Hothers. cbv zeta.
        destruct (Hlook swid Hswid) as [Hk Hb].
        unfold subswath_holds in Hhold. apply existsb_exists in Hhold as [b [Hb1 Hb2]].
        rewrite (passes_inside corr nrv_line nrv_pixel nesz passes v k line p x swid
                   Hline Hp Hx) with (old := NaN).
        -- unfold corr, corrected_value. rewrite Hk, Hb. reflexivity.
        -- exists (swid, b). split; [| exact Hb2].
           apply elem_of_passes. split; [exact Hswid | apply list_elem_of_In; exact Hb1].
        -- intros pass Hpass Hholds. apply elem_of_passes in Hpass as [Hs Hbp].
           destruct (decide (fst pass = swid)) as [E | Hne]; [exact E |].
           specialize (Hothers (fst pass) Hs Hne). unfold subswath_holds in Hothers.
           assert (Hex : existsb (fun b => rectangle_holds b line p) (bounds (fst pass))
                         = true).
           { apply existsb_exists. exists (snd pass).
             split; [apply list_elem_of_In; exact Hbp | exact Hholds]. }
           congruence.
        -- exact (nan_rows_sample nrv_pixel v k p Hp).
  - intros acc swid Hswid Hacc.
    destruct (Hlook swid Hswid) as [Hk Hb].
    apply (for_each_pure (shaped nrv_pixel) (fun acc b => paint acc (swid, b))).
    + intros acc' b _ Hacc'.
      exact (rectangle_pass ns pb add_pb (obsMode self) swid b nrv_line nrv_pixel nesz
               _ _ acc' Hk Hb Hlines Hnesz Hacc').
    + intros acc' b _ Hacc'. apply paint_rectangle_shaped. exact Hacc'.
    + exact Hacc.
  - intros acc swid _ Hacc. generalize acc Hacc.
    induction (bounds swid) as [| b l IH]; intros acc' Hacc'; [exact Hacc' |].
    cbn [foldl]. apply IH. apply paint_rectangle_shaped. exact Hacc'.
  - apply nan_rows_shaped.
Qed.

(** Of two noise vectors over the image of 3 lines by 12 pixels, the sample
    at pixel 5 lies in the second subswath and becomes [1 * 2 + 0.1]; the
    sample at pixel 20 lies in no subswath and is NaN. *)
Lemma get_corrected_nesz_vectors_per_subswath_witness :
  exists out,
    get_corrected_nesz_vectors image_with_bounds_and_store [1; 2; 3]%nat HV [0; 1]%Z
      [[0; 5; 10]; [2; 20]]%Z [[Fin 1; Fin 1; Fin 1]; [Fin 2; Fin 2]] true = Ok out
    /\ sample_of out 0 1 = Some (fadd (fmul (Fin 1) (Fin 2)) (Fin (1 # 10)))
    /\ sample_of out 1 1 = Some NaN.
Proof.
  destruct (get_corrected_nesz_vectors_per_subswath image_with_bounds_and_store
              [1; 2; 3]%nat HV [0; 1]%Z [[0; 5; 10]; [2; 20]]%Z
              [[Fin 1; Fin 1; Fin 1]; [Fin 2; Fin 2]] true c7_bounds stored_coefficients
              20180101000000 eq_refl eq_refl eq_refl) as [out [Hrun [_ Hout]]].
  - intros swid Hin. exact Hin.
  - reflexivity.
  - split; [reflexivity |]. intros v row p Hrow Hp.
    destruct v as [| [| v]]; cbn in Hrow, Hp; try discriminate;
      injection Hrow as <-; injection Hp as <-; reflexivity.
  - exists out. split; [exact Hrun |]. split.
    + destruct (Hout 0%nat 1%nat 0%Z 5%Z (Fin 1) eq_refl eq_refl eq_refl) as [_ Hin].
      rewrite (Hin 2%nat); [vm_compute; reflexivity | | reflexivity |].
      * right. left.
      * intros other Ho Hne. rewrite !elem_of_cons in Ho.
        destruct Ho as [-> | [-> | [-> | Ho]]];
          [reflexivity | congruence | reflexivity | inversion Ho].
    + destruct (Hout 1%nat 1%nat 1%Z 20%Z (Fin 2) eq_refl eq_refl eq_refl) as [Hnone _].
      apply Hnone. intros swid Hs. rewrite !elem_of_cons in Hs.
      destruct Hs as [-> | [-> | [-> | Hs]]]; [reflexivity .. | inversion Hs].
Defined.

(** The entries at the positions that [np.where] gives are the entries
    that satisfy the test, in order. *)
Lemma np_where_entries {A B : Type} (P : A -> bool) (g : A -> B) (d : B) (xs : list A) :
  map (fun k => default d (map g xs !! k)) (np_where P xs)
  = map g (filter (fun x => P x = true) xs).
Proof.
  unfold np_where.
  assert (H : forall pre,
             map (fun k => default d (map g (pre ++ xs) !! k))
               (filter (fun k => match (pre ++ xs) !! k with
                                 | Some x => P x
                                 | None => false
                                 end = true) (seq (length pre) (length xs)))
             = map g (filter (fun x => P x = true) xs)).
  { induction xs as [| x xs IH]; intros pre; [reflexivity |].
    cbn [length seq].
    assert (Hx : (pre ++ x :: xs) !! length pre = Some x)
      by (apply list_lookup_middle; reflexivity).
    specialize (IH (pre ++ [x])). rewrite <- app_assoc, length_app in IH.
    cbn [app length] in IH. replace (length pre + 1)%nat with (S (length pre)) in IH by lia.
    destruct (P x) eqn:EP.
    - rewrite filter_cons_True by (rewrite Hx; exact EP).
      rewrite (filter_cons_True _ x) by exact EP.
      cbn [map]. rewrite IH. f_equal.
      rewrite list_lookup_fmap, Hx. reflexivity.
    - rewrite filter_cons_False by (rewrite Hx, EP; discriminate).
      rewrite (filter_cons_False _ x) by (rewrite EP; discriminate).
      exact IH. }
  exact (H []).
Qed.

Lemma combine_fst_snd {A B : Type} (l : list (A * B)) :
  combine (map fst l) (map snd l) = l.
Proof.
  induction l as [| [a b] l IH]; [reflexivity |]. cbn [map combine fst snd].
  rewrite IH. reflexivity.
Qed.

(** X20.  [get_noise_range_vectors] returns whenever the noise vectors can
    be imported: one line, one row of pixels and one row of noise values
    per record, the rows of a record being its samples of positive noise,
    in order (a NaN or a zero is dropped with its pixel); the two rows have
    one length, so that the vectors have the shape that
    [get_corrected_nesz_vectors] relies on. *)
Theorem get_noise_range_vectors_positive self pol table blocks :
  import_noiseVector self pol = Ok (table, blocks) ->
  exists nrv_pixel nrv_noise,
    get_noise_range_vectors self pol = Ok (map sr_line table, nrv_pixel, nrv_noise)
    /\ length nrv_pixel = length (map sr_line table)
    /\ shaped nrv_pixel nrv_noise
    /\ forall v r, table !! v = Some r ->
         exists prow nrow,
           nrv_pixel !! v = Some prow /\ nrv_noise !! v = Some nrow
           /\ combine prow nrow
              = filter (fun s => fgtb (snd s) (Fin 0) = true) (sr_samples r).
Proof.
  intros Himport. unfold get_noise_range_vectors. rewrite Himport. cbn [rbind fst].
  eexists. eexists. split; [reflexivity |].
  assert (Hrows : forall r : sparseRecord,
             map (fun k => default 0%Z (map fst (sr_samples r) !! k))
               (np_where (fun p => fgtb (snd p) (Fin 0)) (sr_samples r))
             = map fst (filter (fun s => fgtb (snd s) (Fin 0) = true) (sr_samples r))
             /\ map (fun k => default NaN (map snd (sr_samples r) !! k))
                  (np_where (fun p => fgtb (snd p) (Fin 0)) (sr_samples r))
                = map snd (filter (fun s => fgtb (snd s) (Fin 0) = true) (sr_samples r))).
  { intros r. split; apply np_where_entries. }
  split; [rewrite !length_map; reflexivity |]. split; [split |].
  - rewrite !length_map. reflexivity.
  - intros v row p Hrow Hp. rewrite list_lookup_fmap in Hrow. rewrite list_lookup_fmap in Hp.
    destruct (table !! v) as [r |]; [| discriminate].
    cbn [fmap option_fmap option_map] in Hrow, Hp.
    injection Hrow as <-. injection Hp as <-. rewrite !length_map. reflexivity.
  - intros v r Hr. eexists. eexists. rewrite !list_lookup_fmap, Hr.
    cbn [fmap option_fmap option_map].
    split; [reflexivity |]. split; [reflexivity |].
    destruct (Hrows r) as [-> ->]. apply combine_fst_snd.
Qed.

(** The record of line 1 of the image of 3 lines by 12 pixels has a zero
    noise over the pixels 0 to 3: its rows start at pixel 4. *)
Lemma get_noise_range_vectors_positive_witness :
  exists nrv_pixel nrv_noise prow nrow,
    get_noise_range_vectors c7_image HV = Ok ([0; 1; 2]%Z, nrv_pixel, nrv_noise)
    /\ nrv_pixel !! 1%nat = Some prow /\ nrv_noise !! 1%nat = Some nrow
    /\ combine prow nrow = map (fun p => (p, Fin 1)) (arange 4 12).
Proof.
  destruct (get_noise_range_vectors_positive c7_image HV
              [c7_record 0 (Fin 1); c7_record 1 (Fin 0); c7_record 2 (Fin 1)]
              (fun _ => [c7_block]) eq_refl) as [nrv_pixel [nrv_noise [Hrun [_ [_ Hrows]]]]].
  destruct (Hrows 1%nat (c7_record 1 (Fin 0)) eq_refl) as [prow [nrow [Hp [Hn Hc]]]].
  exists nrv_pixel, nrv_noise, prow, nrow.
  split; [exact Hrun | split; [exact Hp | split; [exact Hn |]]].
  rewrite Hc. vm_compute. reflexivity.
Defined.

(** ** The product behind a file name *)

Lemma substring_prefix (n : nat) : forall s p,
  substring 0 n s = p -> String.length p = n -> exists rest, s = p +:+ rest.
Proof.
  induction n as [| n IH]; intros s p Hs Hlen.
  - destruct p; [| discriminate]. exists s. reflexivity.
  - destruct s as [| c s]; cbn [substring] in Hs.
    + subst p. discriminate.
    + subst p. cbn [String.length] in Hlen. injection Hlen as Hlen.
      destruct (IH s (substring 0 n s) eq_refl Hlen) as [rest Hrest].
      exists rest. change (String c s = String c (substring 0 n s +:+ rest)).
      rewrite <- Hrest. reflexivity.
Qed.

(** X21.  The file name test of [__init__] lets through exactly the names
    whose last path component begins with one of the eight dual-polarization
    product types; the platform is then ['S1A'] or ['S1B'], the acquisition
    mode ['IW'] (for GRDH) or ['EW'] (for GRDM), and the two polarizations
    are ['HH'], ['HV'] for a product [1SDH] and ['VH'], ['VV'] for a product
    [1SDV]. *)
Theorem attributes_of_filename_products (filename : string) (a : nameAttributes) :
  attributes_of_filename filename = Ok a
  <-> exists platform mode transmit rest,
        (platform = "S1A" \/ platform = "S1B")
        /\ (mode = ("IW", "GRDH") \/ mode = ("EW", "GRDM"))
        /\ (transmit = "H" \/ transmit = "V")
        /\ last_component "" filename
           = platform +:+ "_" +:+ fst mode +:+ "_" +:+ snd mode +:+ "_1SD" +:+ transmit
             +:+ rest
        /\ a = {| na_platform := platform;
                  na_obsMode := fst mode;
                  na_txPol := transmit;
                  na_polarizations := [transmit +:+ "H"; transmit +:+ "V"] |}.
Proof.
  unfold attributes_of_filename. set (name := last_component "" filename). split.
  - destruct (existsb (String.eqb (substring 0 16 name)) accepted_prefixes) eqn:E;
      [| discriminate].
    cbn [negb]. intros Hrun.
    apply existsb_exists in E as [p [Hp Heq]]. apply String.eqb_eq in Heq.
    assert (Hname : exists rest, name = p +:+ rest).
    { apply (substring_prefix 16); [exact Heq |].
      cbn [accepted_prefixes In] in Hp.
      repeat (destruct Hp as [<- | Hp]; [reflexivity |]). destruct Hp. }
    destruct Hname as [rest Hname]. rewrite Hname in Hrun.
    cbn [accepted_prefixes In] in Hp.
    destruct Hp as [<- | [<- | [<- | [<- | [<- | [<- | [<- | [<- | []]]]]]]]];
      cbn in Hrun; injection Hrun as <-.
    + exists "S1A", ("IW", "GRDH"), "H", rest. auto 10.
    + exists "S1A", ("IW", "GRDH"), "V", rest. auto 10.
    + exists "S1B", ("IW", "GRDH"), "H", rest. auto 10.
    + exists "S1B", ("IW", "GRDH"), "V", rest. auto 10.
    + exists "S1A", ("EW", "GRDM"), "H", rest. auto 10.
    + exists "S1A", ("EW", "GRDM"), "V", rest. auto 10.
    + exists "S1B", ("EW", "GRDM"), "H", rest. auto 10.
    + exists "S1B", ("EW", "GRDM"), "V", rest. auto 10.
  - intros [platform [mode [transmit [rest [Hp [Hm [Ht [Hname ->]]]]]]]].
    rewrite Hname.
    destruct Hp as [-> | ->]; destruct Hm as [-> | ->]; destruct Ht as [-> | ->];
      destruct rest; reflexivity.
Qed.

(** A dual-polarization EW product in a directory is accepted, with the
    polarizations HH and HV. *)
Lemma attributes_of_filename_products_witness :
  attributes_of_filename
    "/data/S1A_EW_GRDM_1SDH_20180101T000000_20180101T000100_019900_021E00_ABCD.SAFE"
  = Ok {| na_platform := "S1A"; na_obsMode := "EW"; na_txPol := "H";
          na_polarizations := ["HH"; "HV"] |}.
Proof.
  apply (proj2 (attributes_of_filename_products _ _)).
  exists "S1A", ("EW", "GRDM"), "H",
    "_20180101T000000_20180101T000100_019900_021E00_ABCD.SAFE".
  split; [left; reflexivity |]. split; [right; reflexivity |].
  split; [left; reflexivity |]. split; reflexivity.
Defined.

(** ** The refinement of the elevation angle *)

(** A loop whose body cannot raise and counts its passes up to a bound. *)
Lemma py_while_counted {St : Type} (cond : St -> bool) (step : St -> St) (count : St -> nat)
    (bound : nat) :
  (forall s, count (step s) = S (count s)) ->
  (forall s, (bound <= count s)%nat -> cond s = false) ->
  forall rem s fuel,
    (count s + rem = bound)%nat -> (rem <= fuel)%nat ->
    exists m, (m <= rem)%nat
      /\ py_while fuel cond (fun s => Ok (step s)) s = Some (Ok (Nat.iter m step s))
      /\ (forall k, (k < m)%nat -> cond (Nat.iter k step s) = true)
      /\ cond (Nat.iter m step s) = false.
Proof.
  intros Hcount Hbound. induction rem as [| rem IH]; intros s fuel Hs Hfuel.
  - exists 0%nat. assert (Hc : cond s = false) by (apply Hbound; lia).
    split; [lia |]. split; [destruct fuel; simpl; rewrite Hc; reflexivity |].
    split; [intros k Hk; lia | exact Hc].
  - destruct (cond s) eqn:Hc.
    + destruct fuel as [| fuel]; [lia |].
      destruct (IH (step s) fuel) as [m [Hm [Hrun [Hbefore Hlast]]]];
        [rewrite Hcount; lia | lia |].
      exists (S m). split; [lia |].
      rewrite Nat.iter_succ_r. split; [simpl; rewrite Hc; exact Hrun |].
      split; [| exact Hlast].
      intros [| k] Hk; [exact Hc |]. rewrite Nat.iter_succ_r. apply Hbefore. lia.
    + exists 0%nat. split; [lia |].
      split; [destruct fuel; simpl; rewrite Hc; reflexivity |].
      split; [intros k Hk; lia | exact Hc].
Qed.

Lemma refine_iter_count (err : float64 -> float64) (m : nat) :
  nIter (Nat.iter m (refine_step err) refine_init) = m.
Proof. induction m as [| m IH]; [reflexivity |]. cbn [Nat.iter refine_step nIter].
  simpl. rewrite IH. reflexivity. Qed.

(** X22.  Whatever the range errors are, the refinement loop of
    [refinedElevationAngleInterpolator] ends after [n] passes with
    [1 <= n <= 100], and the angle it hands on is 90 less the depression
    angle reached: every pass before the last found a range error of at
    least 0.01 in absolute value (or a NaN), a run of fewer than 100 passes
    ended on an error below 0.01, and after 100 passes the angle reached is
    used as it is: no exception stands for the missing convergence. *)
Theorem refinedElevationAngle_bounded (err : float64 -> float64) (extra : nat) :
  exists n, (1 <= n <= 100)%nat
    /\ let passes k := Nat.iter k (refine_step err) refine_init in
       refinedElevationAngle (100 + extra) err
       = Some (Ok (fsub (Fin 90) (depressionAngle (passes n))))
       /\ (forall k, (k < n)%nat ->
             depressionAngle (passes (S k))
             = fadd (depressionAngle (passes k))
                 (fdiv (err (depressionAngle (passes k)))
                    (fdiv (fsub (err (depressionAngle (passes k)))
                             (err (fadd (depressionAngle (passes k)) (Fin (1 # 1000)))))
                       (Fin (1 # 1000)))))
       /\ (forall k, (k + 1 < n)%nat ->
             fltb (fabs (err (depressionAngle (passes k)))) (Fin (1 # 100)) = false)
       /\ ((n < 100)%nat ->
           fltb (fabs (err (depressionAngle (passes (n - 1))))) (Fin (1 # 100)) = true).
Proof.
  destruct (py_while_counted refine_continues (refine_step err) nIter 100
              (fun s => eq_refl)) with (rem := 100%nat) (s := refine_init)
                                       (fuel := (100 + extra)%nat)
    as [n [Hn [Hrun [Hbefore Hlast]]]].
  - intros s Hs. unfold refine_continues.
    destruct (Nat.leb_spec 100 (nIter s)) as [_ | Hlt]; [| lia].
    rewrite orb_true_r. reflexivity.
  - reflexivity.
  - lia.
  - assert (Hpos : (1 <= n)%nat).
    { destruct n as [| n]; [| lia]. discriminate Hlast. }
    exists n. split; [lia |]. cbv zeta.
    split; [unfold refinedElevationAngle; rewrite Hrun; reflexivity |].
    split; [intros k _; reflexivity |]. split.
    + intros k Hk. specialize (Hbefore (S k) ltac:(lia)).
      unfold refine_continues in Hbefore. apply negb_true_iff, orb_false_iff in Hbefore.
      destruct Hbefore as [Hstatus _]. exact Hstatus.
    + intros Hlt. unfold refine_continues in Hlast.
      apply negb_false_iff, orb_true_iff in Hlast.
      destruct Hlast as [Hstatus | Hcount].
      * destruct n as [| n]; [lia |]. replace (S n - 1)%nat with n by lia. exact Hstatus.
      * rewrite refine_iter_count in Hcount. apply Nat.leb_le in Hcount. lia.
Qed.

(** With a range error of 1 at every angle the two errors of a pass are
    equal, the first step is infinite and the hundred passes are made: the
    angle handed on is minus infinity. *)
Example refinedElevationAngle_no_convergence :
  refinedElevationAngle 100 (fun _ => Fin 1) = Some (Ok NInf).
Proof. vm_compute. reflexivity. Qed.

(** ** Pixels outside the subswaths *)

(** What a call that returned has computed. *)
Lemma thermalNoiseRemoval_result self pol (algorithm : string) lnpc (ptp : bool) returnNESZ
    log d :
  is_variant algorithm ->
  snd (thermalNoiseRemoval self pol (PyStr algorithm) lnpc (PyBool ptp) returnNESZ log)
  = Ok d ->
  exists raw noise,
    self_rawSigma0Map self pol = Ok raw
    /\ noise_slot self pol algorithm lnpc = Ok noise
    /\ sigma0_of d
       = postFilter (PyStr algorithm) raw (noiseSubtraction (shape self) ptp raw noise).
Proof.
  intros Hv Hrun.
  unfold thermalNoiseRemoval, noise_slot, mbind, invoke, mreturn, mraise in *.
  destruct Hv as [-> | ->]; simpl in Hrun |- *;
    (destruct (self_subswathIndexMap self pol) as [swi |]; [| discriminate]);
    simpl in Hrun;
    (destruct (self_rawSigma0Map self pol) as [raw |]; [| discriminate]);
    simpl in Hrun.
  - destruct (self_rawNoiseEquivalentSigma0Map self pol false) as [noise |];
      [| discriminate].
    simpl in Hrun. exists raw, noise. split; [reflexivity |]. split; [reflexivity |].
    destruct returnNESZ; injection Hrun as <-; reflexivity.
  - destruct (self_modifiedNoiseEquivalentSigma0Map self pol lnpc) as [noise |];
      [| discriminate].
    simpl in Hrun. exists raw, noise. split; [reflexivity |]. split; [reflexivity |].
    destruct returnNESZ; injection Hrun as <-; reflexivity.
Qed.

(** Where the noise is NaN the denoised pixel is NaN, in both variants and
    with or without the mean noise added back. *)
Lemma denoised_nan (algorithm : string) shp (ptp : bool) (raw noise : raster) (i j : nat) :
  is_variant algorithm ->
  noise i j = NaN ->
  postFilter (PyStr algorithm) raw (noiseSubtraction shp ptp raw noise) i j = NaN.
Proof.
  intros Hv Hnan.
  assert (Hsub : noiseSubtraction shp ptp raw noise i j = NaN).
  { unfold noiseSubtraction. destruct ptp; rewrite Hnan; unfold fsub;
      destruct (raw i j); reflexivity. }
  unfold postFilter. destruct Hv as [-> | ->].
  - change (py_eq_str (PyStr "ESA") "ESA") with true. cbv iota beta.
    rewrite Hsub. reflexivity.
  - change (py_eq_str (PyStr "NERSC") "ESA") with false.
    change (py_eq_str (PyStr "NERSC") "NERSC") with true. cbv iota beta.
    rewrite Hsub. destruct (_ || _); reflexivity.
Qed.

Lemma for_each_keeps_nan {A : Type} (body : raster -> A -> result raster) (l : list A)
    (i j : nat) :
  (forall m a m', body m a = Ok m' -> m i j = NaN -> m' i j = NaN) ->
  forall m m', for_each l body m = Ok m' -> m i j = NaN -> m' i j = NaN.
Proof.
  intros Hbody. induction l as [| a l IH]; intros m m' Hrun Hnan.
  - injection Hrun as <-. exact Hnan.
  - cbn [for_each] in Hrun. destruct (body m a) as [m1 |] eqn:E; [| discriminate].
    cbn [rbind] in Hrun. exact (IH m1 m' Hrun (Hbody m a m1 E Hnan)).
Qed.

(** The noise vector map of the class is NaN outside the subswaths. *)
Lemma noiseVectorMap_outside K self pol (lutShift : bool) swi (m : raster) (i j : nat) :
  self_subswathIndexMap self pol = Ok swi ->
  noiseVectorMap K self pol lutShift = Ok m ->
  in_no_subswath self swi i j -> m i j = NaN.
Proof.
  intros Hswi Hrun Hout. unfold noiseVectorMap in Hrun.
  destruct (import_noiseVector self pol) as [[noiseRange noiseAzimuth] |];
    [| discriminate].
  cbn [rbind fst snd] in Hrun.
  destruct (import_swathBounds self pol) as [swathBounds |]; [| discriminate].
  cbn [rbind] in Hrun. rewrite Hswi in Hrun. cbn [rbind] in Hrun.
  match type of Hrun with
  | rbind ?ranged _ = _ => destruct ranged as [mr |] eqn:Er; [| discriminate]
  end.
  cbn [rbind] in Hrun.
  apply (azimuth_loops_keep_nan K _ _ _ i j _ _ Hrun).
  destruct lutShift.
  - destruct (self_geolocationGridPointInterpolator self pol "elevationAngle")
      as [elevation |]; [| discriminate].
    cbn [rbind] in Er.
    destruct (self_elevationAntennaPatternInterpolator self pol) as [pattern |];
      [| discriminate].
    cbn [rbind] in Er.
    destruct (self_rangeSpreadingLossInterpolator self pol) as [loss |];
      [| discriminate].
    cbn [rbind] in Er.
    exact (rasterize_loop_outside K swi swathBounds noiseRange _ _ _ _ Er i j Hout).
  - exact (rasterize_loop_outside K swi swathBounds noiseRange _ _ _ _ Er i j Hout).
Qed.

(** The raw noise-equivalent sigma nought is NaN where the noise vector map
    is. *)
Lemma rawNoiseEquivalentSigma0Map_keeps_nan K self pol (lutShift : bool)
    (noise nesz : raster) (i j : nat) :
  self_noiseVectorMap self pol lutShift = Ok noise ->
  rawNoiseEquivalentSigma0Map K self pol lutShift = Ok nesz ->
  noise i j = NaN -> nesz i j = NaN.
Proof.
  intros Hnoise Hrun Hnan. unfold rawNoiseEquivalentSigma0Map in Hrun.
  rewrite Hnoise in Hrun. cbn [rbind] in Hrun.
  destruct (self_calibrationVectorMap self pol) as [cal |]; [| discriminate].
  cbn [rbind] in Hrun.
  destruct (fltb _ _).
  - destruct (self_subswathIndexMap self pol) as [swi |]; [| discriminate].
    cbn [rbind] in Hrun.
    apply (for_each_keeps_nan _ _ i j) with (m := fun i j =>
             fdiv (noise i j) (fmul (cal i j) (cal i j))) in Hrun.
    + exact Hrun.
    + intros m a m' Hbody Hm. unfold prescale_pass in Hbody.
      destruct (noiseCalibrationFactor (obsMode self) a); [| discriminate].
      cbn [rbind] in Hbody. injection Hbody as <-. rewrite Hm.
      destruct (N.eqb _ _); reflexivity.
    + cbv beta. rewrite Hnan. reflexivity.
  - injection Hrun as <-. rewrite Hnan. reflexivity.
Qed.

(** The modified noise map is NaN where the raw one is. *)
Lemma modifiedNoiseEquivalentSigma0Map_keeps_nan K self pol (lnpc : bool)
    (nesz out : raster) (i j : nat) :
  self_rawNoiseEquivalentSigma0Map self pol true = Ok nesz ->
  modifiedNoiseEquivalentSigma0Map K self pol lnpc = Ok out ->
  nesz i j = NaN -> out i j = NaN.
Proof.
  intros Hnesz Hrun Hnan. unfold modifiedNoiseEquivalentSigma0Map in Hrun.
  rewrite Hnesz in Hrun. cbn [rbind] in Hrun.
  assert (Hgain : exists base : raster,
             (if scallopingApplies self
              then rbind (self_scallopingGainMap self pol)
                     (fun gain => Ok (fun i j => fmul (nesz i j) (gain i j)))
              else Ok nesz) = Ok base /\ base i j = NaN).
  { destruct (scallopingApplies self).
    - destruct (self_scallopingGainMap self pol) as [gain |]; [| discriminate].
      eexists. split; [reflexivity |]. cbv beta. rewrite Hnan. reflexivity.
    - exists nesz. split; [reflexivity | exact Hnan]. }
  destruct Hgain as [base [Ebase Hbase]]. rewrite Ebase in Hrun. cbn [rbind] in Hrun.
  destruct (self_subswathIndexMap self pol) as [swi |]; [| discriminate].
  cbn [rbind] in Hrun.
  destruct (import_denoisingCoefficients self pol) as [coef |]; [| discriminate].
  cbn [rbind] in Hrun.
  match type of Hrun with
  | rbind ?scaled _ = _ => destruct scaled as [n1 |] eqn:E1; [| discriminate]
  end.
  cbn [rbind] in Hrun.
  assert (Hn1 : n1 i j = NaN).
  { apply (for_each_keeps_nan _ _ i j) with (m := base) in E1; [exact E1 | | exact Hbase].
    intros m a m' Hbody Hm.
    destruct (py_getitem (noiseScalingParameters coef) _); [| discriminate].
    cbn [rbind] in Hbody.
    destruct (py_getitem (powerBalancingParameters coef) _); [| discriminate].
    cbn [rbind] in Hbody. injection Hbody as <-. rewrite Hm.
    destruct (N.eqb _ _); reflexivity. }
  destruct (lnpc && is_cross_pol pol).
  - destruct (self_rawSigma0Map self pol) as [sigma0 |]; [| discriminate].
    cbn [rbind] in Hrun. unfold adaptiveNoiseScaling in Hrun.
    apply (for_each_keeps_nan _ _ i j) with (m := n1) in Hrun; [exact Hrun | | exact Hn1].
    intros m a m' Hbody Hm.
    destruct (py_getitem (extraScalingParameters coef) "SNR"); [| discriminate].
    cbn [rbind] in Hbody.
    destruct (py_getitem (extraScalingParameters coef) _); [| discriminate].
    cbn [rbind] in Hbody.
    destruct (InterpolatedUnivariateSpline K _ _ 3); [| discriminate].
    cbn [rbind] in Hbody. injection Hbody as <-. rewrite Hm.
    destruct (_ && _); reflexivity.
  - injection Hrun as <-. exact Hn1.
Qed.

(** X23.  With the noise methods of the class, a pixel that lies in no
    subswath is NaN in the denoised sigma nought of both variants, whatever
    the raw sigma nought, the coefficients and the flags are: the noise
    vector map is reconstructed subswath by subswath, and the NaN it leaves
    elsewhere goes through the calibration, the scaling, the balancing and
    the subtraction. *)
Theorem thermalNoiseRemoval_blank_outside_subswaths K self pol lnpc (ptp : bool) returnNESZ
    log swi :
  self_subswathIndexMap self pol = Ok swi ->
  (forall d,
     self_noiseVectorMap self pol false = noiseVectorMap K self pol false ->
     self_rawNoiseEquivalentSigma0Map self pol false
     = rawNoiseEquivalentSigma0Map K self pol false ->
     snd (thermalNoiseRemoval self pol (PyStr "ESA") lnpc (PyBool ptp) returnNESZ log)
     = Ok d ->
     forall i j, in_no_subswath self swi i j -> sigma0_of d i j = NaN)
  /\ (forall d,
        self_noiseVectorMap self pol true = noiseVectorMap K self pol true ->
        self_rawNoiseEquivalentSigma0Map self pol true
        = rawNoiseEquivalentSigma0Map K self pol true ->
        self_modifiedNoiseEquivalentSigma0Map self pol lnpc
        = modifiedNoiseEquivalentSigma0Map K self pol lnpc ->
        snd (thermalNoiseRemoval self pol (PyStr "NERSC") lnpc (PyBool ptp) returnNESZ log)
        = Ok d ->
        forall i j, in_no_subswath self swi i j -> sigma0_of d i j = NaN).
Proof.
  intros Hswi. split.
  - intros d Hvec Hraw Hrun i j Hout.
    destruct (thermalNoiseRemoval_result self pol "ESA" lnpc ptp returnNESZ log d
                ltac:(left; reflexivity) Hrun) as [raw [nesz [_ [Hslot ->]]]].
    apply denoised_nan; [left; reflexivity |].
    unfold noise_slot in Hslot. cbn in Hslot. rewrite Hraw in Hslot.
    destruct (self_noiseVectorMap self pol false) as [noise |] eqn:En.
    + apply (rawNoiseEquivalentSigma0Map_keeps_nan K self pol false noise nesz i j En Hslot).
      symmetry in Hvec. exact (noiseVectorMap_outside K self pol false swi noise i j
                                 Hswi Hvec Hout).
    + unfold rawNoiseEquivalentSigma0Map in Hslot. rewrite En in Hslot. discriminate.
  - intros d Hvec Hraw Hmod Hrun i j Hout.
    destruct (thermalNoiseRemoval_result self pol "NERSC" lnpc ptp returnNESZ log d
                ltac:(right; reflexivity) Hrun) as [raw [out [_ [Hslot ->]]]].
    apply denoised_nan; [right; reflexivity |].
    unfold noise_slot in Hslot. cbn in Hslot. rewrite Hmod in Hslot.
    destruct (self_rawNoiseEquivalentSigma0Map self pol true) as [nesz |] eqn:Enesz.
    + apply (modifiedNoiseEquivalentSigma0Map_keeps_nan K self pol lnpc nesz out i j
               Enesz Hslot).
      symmetry in Hraw.
      destruct (self_noiseVectorMap self pol true) as [noise |] eqn:En.
      * apply (rawNoiseEquivalentSigma0Map_keeps_nan K self pol true noise nesz i j En Hraw).
        symmetry in Hvec. exact (noiseVectorMap_outside K self pol true swi noise i j
                                   Hswi Hvec Hout).
      * unfold rawNoiseEquivalentSigma0Map in Hraw. rewrite En in Hraw. discriminate.
    + unfold modifiedNoiseEquivalentSigma0Map in Hslot. rewrite Enesz in Hslot.
      discriminate.
Qed.

Lemma thermalNoiseRemoval_blank_outside_subswaths_witness :
  succeeds (snd (thermalNoiseRemoval image_wider_than_swaths HV (PyStr "ESA") false
                   (PyBool false) false [])) = true
  /\ returned_pixel
       (thermalNoiseRemoval image_wider_than_swaths HV (PyStr "ESA") false (PyBool false)
          false [])
       0%nat 12%nat = NaN.
Proof.
  destruct (snd (thermalNoiseRemoval image_wider_than_swaths HV (PyStr "ESA") false
                   (PyBool false) false [])) as [d |] eqn:E;
    [| vm_compute in E; discriminate E].
  split; [reflexivity |].
  unfold returned_pixel. rewrite E.
  destruct (thermalNoiseRemoval_blank_outside_subswaths trial_kernels
              image_wider_than_swaths HV false false false []
              (index_map_of image_wider_than_swaths) eq_refl) as [Hesa _].
  apply (Hesa d eq_refl eq_refl E).
  intros iSW Hin. apply elem_of_seq in Hin.
  assert (Hcases : iSW = 1%nat \/ iSW = 2%nat \/ iSW = 3%nat)
    by (change (numberOfSubswaths (obsMode image_wider_than_swaths)) with 3%nat in Hin;
        lia).
  destruct Hcases as [-> | [-> | ->]]; vm_compute; discriminate.
Defined.
